(** * Resource-lifecycle and leak-detection layer: a shallow embedding

    The development follows the three source units it verifies:

    - [MemoryMonitor]: the sampler's measurement log, the trend analyser
      ([detectLeak], [calculateTrend]) and the efficiency scorer
      ([calculateMemoryEfficiency]), with [getReport] on top;
    - [FileWatcher]: the module-level [watcherState] and the operations
      [safeWatch], [safeWatchPaths], [ensurePollingActive], [stopPolling]
      and [disposeFileWatcher], as state passing over an explicit world
      (timers, native watchers, local storage) that records what was done;
    - [TerminalStore]: the terminal-process registry with
      [attachTerminal], [detachTerminal], [detachAllTerminals] and
      [dispose].

    Byte counts and timestamps are integers ([Z]).  The arithmetic of the
    monitor is read twice.  [MemoryMonitor] reads it over the integers and
    the rationals ([Q]): that is what the report's integer fields, their
    order and the extremes of the efficiency depend on.  [Binary64] and
    [MemoryMonitor64] read the same functions as the engine computes them,
    every [+], [-], [*] and [/] rounded to the nearest binary64 number; what
    is stated about the value of a computed quotient, and about the leak
    verdict that rests on one, is stated on these, for byte counts in the
    range where a number holds them exactly.

    An [async] function of the watch coordinator, and the bulk teardown of
    the terminal store, is run to its end in one step: what the host does
    at an [await] (a native watch that resolves or rejects, a kill that
    resolves, rejects, throws or never settles) is an argument or a field.
    [attachTerminal] and [detachTerminal] are split at their [await], so
    that other calls can run in between. *)

From Stdlib Require Import ZArith QArith Qfield Qround Qabs Qpower Lia Lqa Bool.
From Stdlib Require Qcanon.
From Stdlib Require PrimFloat FloatOps SpecFloat Uint63.
From stdpp Require Import gmap strings list fin_maps.

(* ===================================================================== *)
(** ** The memory monitor *)
(* ===================================================================== *)

Module MemoryMonitor.

Local Open Scope Z_scope.

(** [interface MemoryMeasurement] *)
Record MemoryMeasurement := {
  timestamp : Z;
  heapUsed : Z;
  heapTotal : Z;
  external : Z;
  arrayBuffers : Z;
  jsHeapSizeLimit : option Z;
  usedJSHeapSize : option Z;
  totalJSHeapSize : option Z;
  testPhase : string;
  componentCount : option Z;
  terminalCount : option Z;
  listenerCount : option Q;
  fileWatcherCount : option Z;
  streamReaderCount : option Z
}.

(** [interface MemoryReport] *)
Record MemoryReport := {
  baseline : Z;
  current : Z;
  peak : Z;
  growth : Z;
  measurements : list MemoryMeasurement;
  leakDetected : bool;
  averageGrowthRate : Q;
  memoryEfficiency : Q
}.

(** The fields of [class MemoryMonitor] that the report depends on. *)
Record Monitor := {
  log : list MemoryMeasurement;
  isMonitoring : bool;
  intervalId : option nat;
  startTime : Z
}.

Definition newMonitor : Monitor :=
  {| log := []; isMonitoring := false; intervalId := None; startTime := 0 |}.

(** [clear()] *)
Definition clear (m : Monitor) : Monitor :=
  {| log := []; isMonitoring := isMonitoring m; intervalId := intervalId m;
     startTime := 0 |}.

(** [recordMeasurement]: the snapshot is supplied by the environment. *)
Definition recordMeasurement (snap : MemoryMeasurement) (m : Monitor) : Monitor :=
  {| log := log m ++ [snap]; isMonitoring := isMonitoring m;
     intervalId := intervalId m; startTime := startTime m |}.

(** [arr.slice(-k)]: the last [k] elements, the whole array when shorter. *)
Definition slice_last {A} (k : nat) (l : list A) : list A :=
  skipn (length l - k) l.

(** [arr[arr.length - 1]] on a non-empty array whose first element is [d]. *)
Definition last_of {A} (d : A) (l : list A) : A := List.last l d.

(** [Math.max(x, ...xs)] on the non-empty argument list [x :: xs]. *)
Definition Math_max (x : Z) (xs : list Z) : Z := fold_left Z.max xs x.

(** [values.reduce((a, b) => a + b, 0)] *)
Definition reduce_sum (values : list Z) : Z :=
  fold_left (fun a b => a + b) values 0.

(** [values.reduce((sum, y, x) => sum + x * y, 0)]: [x] is the index. *)
Fixpoint reduce_indexed (x : Z) (values : list Z) (sum : Z) : Z :=
  match values with
  | [] => sum
  | y :: rest => reduce_indexed (x + 1) rest (sum + x * y)
  end.

Definition Qgtb (a b : Q) : bool := negb (Qle_bool a b).

(** [calculateTrend(values)], its sums, products and quotient taken exactly;
    [MemoryMonitor64.calculateTrend] rounds each of them. *)
Definition calculateTrend (values : list Z) : Q :=
  let n := Z.of_nat (length values) in
  if n <? 2 then 0%Q
  else
    let sumX := (inject_Z (n * (n - 1)) / 2)%Q in
    let sumY := inject_Z (reduce_sum values) in
    let sumXY := inject_Z (reduce_indexed 0 values 0) in
    let sumX2 := (inject_Z (n * (n - 1) * (2 * n - 1)) / 6)%Q in
    let denominator := (inject_Z n * sumX2 - sumX * sumX)%Q in
    if negb (Qeq_bool denominator 0)
    then ((inject_Z n * sumXY - sumX * sumY) / denominator)%Q
    else 0%Q.

Definition leakThreshold : Z := 1024 * 1024.

(** [detectLeak()] *)
Definition detectLeak (ms : list MemoryMeasurement) : bool :=
  if (length ms <? 10)%nat then false
  else
    let recent := slice_last 10 ms in
    let trend := calculateTrend (map heapUsed recent) in
    Qgtb trend (inject_Z leakThreshold).

(** [calculateAverageGrowthRate()], the two quotients taken exactly. *)
Definition calculateAverageGrowthRate (ms : list MemoryMeasurement) : Q :=
  match ms with
  | [] => 0%Q
  | b :: rest =>
      if (length ms <? 2)%nat then 0%Q
      else
        let c := last_of b ms in
        let timeDiff := (inject_Z (timestamp c - timestamp b) / 1000)%Q in
        let memoryDiff := inject_Z (heapUsed c - heapUsed b) in
        if Qgtb timeDiff 0 then (memoryDiff / timeDiff)%Q else 0%Q
  end.

(** [Math.min(a, b)] and [Math.max(a, b)] on two numbers. *)
Definition Math_min2 (a b : Q) : Q := if Qle_bool a b then a else b.
Definition Math_max2 (a b : Q) : Q := if Qle_bool a b then b else a.

(** [Math.max(0, Math.min(1, e))] *)
Definition clamp01 (e : Q) : Q := Math_max2 0 (Math_min2 1 e).

(** [calculateMemoryEfficiency()], the quotient and the difference taken
    exactly. *)
Definition calculateMemoryEfficiency (ms : list MemoryMeasurement) : Q :=
  match ms with
  | [] => 1%Q
  | b :: rest =>
      if (length ms <? 2)%nat then 1%Q
      else
        let pk := Math_max (heapUsed b) (map heapUsed rest) in
        let c := last_of b ms in
        if pk =? heapUsed b then 1%Q
        else
          let efficiency :=
            (1 - inject_Z (heapUsed c - heapUsed b)
                 / inject_Z (pk - heapUsed b))%Q in
          clamp01 efficiency
  end.

(** [getReport()] *)
Definition getReport (m : Monitor) : MemoryReport :=
  match log m with
  | [] =>
      {| baseline := 0; current := 0; peak := 0; growth := 0;
         measurements := [];
         leakDetected := false;
         averageGrowthRate := 0%Q;
         memoryEfficiency := 1%Q |}
  | b :: rest =>
      let c := last_of b (log m) in
      let pk := Math_max (heapUsed b) (map heapUsed rest) in
      let g := heapUsed c - heapUsed b in
      {| baseline := heapUsed b; current := heapUsed c; peak := pk; growth := g;
         measurements := log m;
         leakDetected := detectLeak (log m);
         averageGrowthRate := calculateAverageGrowthRate (log m);
         memoryEfficiency := calculateMemoryEfficiency (log m) |}
  end.

(** *** The regression as the specification words it *)

(** Sample indices [0 .. n-1]. *)
Definition indices (n : nat) : list Z := map Z.of_nat (seq 0 n).

Definition sigma (l : list Z) : Z := fold_right Z.add 0 l.

(** slope = (n·Σxy − Σx·Σy) / (n·Σx² − (Σx)²), zero when the denominator
    is zero; x ranges over the sample indices and y over the values. *)
Definition slope_spec (ys : list Z) : Q :=
  let n := Z.of_nat (length ys) in
  let xs := indices (length ys) in
  let Sx := sigma xs in
  let Sy := sigma ys in
  let Sxy := sigma (zip_with Z.mul xs ys) in
  let Sxx := sigma (map (fun x => x * x) xs) in
  let den := n * Sxx - Sx * Sx in
  if den =? 0 then 0%Q
  else (inject_Z (n * Sxy - Sx * Sy) / inject_Z den)%Q.

Definition MiB : Z := 1048576.

(** A measurement with the given heap reading, the other counters zero. *)
Definition sample (ts h : Z) : MemoryMeasurement :=
  {| timestamp := ts; heapUsed := h; heapTotal := 0; external := 0;
     arrayBuffers := 0; jsHeapSizeLimit := None; usedJSHeapSize := None;
     totalJSHeapSize := None; testPhase := "monitoring";
     componentCount := None; terminalCount := None; listenerCount := None;
     fileWatcherCount := None; streamReaderCount := None |}.

End MemoryMonitor.

(* ===================================================================== *)
(** ** Numbers as the engine computes them *)
(* ===================================================================== *)

Module Binary64.

Local Open Scope Q_scope.

(** A JavaScript number is an IEEE 754 binary64 value, and [+], [-], [*]
    and [/] give the exact result rounded to the nearest such value, ties
    going to the one with an even significand.  A finite number is the
    rational it stands for; [fl] is that rounding: 53 significant bits, the
    exponent unbounded.  It is the rounding of the engine for every result
    whose magnitude is in the normal range, from 2^-1022 up to 2^1024, which
    holds for all arithmetic on byte counts and millisecond timestamps below
    2^53; infinities, NaN and subnormal results are outside it. *)

(** The integer nearest to [s], the even one of two equally near. *)
Definition nearest_even (s : Q) : Z :=
  let f := Qfloor s in
  match Qcompare (s - inject_Z f) (1 # 2) with
  | Lt => f
  | Gt => (f + 1)%Z
  | Eq => if Z.even f then f else (f + 1)%Z
  end.

(** The [k] with 2^k <= a < 2^(k+1), for positive [a]. *)
Definition ilog2 (a : Q) : Z :=
  let k := (Z.log2 (Qnum a) - Z.log2 (Zpos (Qden a)))%Z in
  if Qle_bool (2 ^ k) a then k else (k - 1)%Z.

(** The exponent of the last of the 53 bits of [q]. *)
Definition ulp_exponent (q : Q) : Z := (ilog2 (Qabs q) - 52)%Z.

Definition fl (q : Q) : Q :=
  if Qeq_bool q 0 then 0
  else
    let e := ulp_exponent q in
    Qred (inject_Z (nearest_even (q / 2 ^ e)) * 2 ^ e).

(** 2^-53, the largest relative error of one rounding. *)
Definition unit_roundoff : Q := 1 # 9007199254740992.

(** [a + b], [a - b], [a * b] and [a / b] on numbers. *)
Definition add (a b : Q) : Q := fl (a + b).
Definition subtract (a b : Q) : Q := fl (a - b).
Definition multiply (a b : Q) : Q := fl (a * b).
Definition divide (a b : Q) : Q := fl (a / b).

End Binary64.

(* ===================================================================== *)
(** ** The numeric helpers of the memory monitor, operation by operation *)
(* ===================================================================== *)

Module MemoryMonitor64.
Import MemoryMonitor Binary64.

Local Open Scope Q_scope.

(** [values.reduce((a, b) => a + b, 0)] *)
Definition reduce_sum (values : list Z) : Q :=
  fold_left (fun a b => add a (inject_Z b)) values 0.

(** [values.reduce((sum, y, x) => sum + x * y, 0)]: [x] is the index. *)
Fixpoint reduce_indexed (x : Z) (values : list Z) (sum : Q) : Q :=
  match values with
  | [] => sum
  | y :: rest =>
      reduce_indexed (x + 1) rest (add sum (multiply (inject_Z x) (inject_Z y)))
  end.

(** [calculateTrend(values)] *)
Definition calculateTrend (values : list Z) : Q :=
  let n := inject_Z (Z.of_nat (length values)) in
  if (length values <? 2)%nat then 0
  else
    let sumX := divide (multiply n (subtract n 1)) 2 in
    let sumY := reduce_sum values in
    let sumXY := reduce_indexed 0 values 0 in
    let sumX2 :=
      divide (multiply (multiply n (subtract n 1)) (subtract (multiply 2 n) 1)) 6 in
    let denominator := subtract (multiply n sumX2) (multiply sumX sumX) in
    if negb (Qeq_bool denominator 0)
    then divide (subtract (multiply n sumXY) (multiply sumX sumY)) denominator
    else 0.

(** [1024 * 1024] *)
Definition leakThreshold : Q := multiply 1024 1024.

(** [detectLeak()] *)
Definition detectLeak (ms : list MemoryMeasurement) : bool :=
  if (length ms <? 10)%nat then false
  else
    let recent := slice_last 10 ms in
    let trend := calculateTrend (map heapUsed recent) in
    Qgtb trend leakThreshold.

(** [calculateAverageGrowthRate()] *)
Definition calculateAverageGrowthRate (ms : list MemoryMeasurement) : Q :=
  match ms with
  | [] => 0
  | b :: rest =>
      if (length ms <? 2)%nat then 0
      else
        let c := last_of b ms in
        let timeDiff :=
          divide (subtract (inject_Z (timestamp c)) (inject_Z (timestamp b))) 1000 in
        let memoryDiff :=
          subtract (inject_Z (heapUsed c)) (inject_Z (heapUsed b)) in
        if Qgtb timeDiff 0 then divide memoryDiff timeDiff else 0
  end.

(** [calculateMemoryEfficiency()] *)
Definition calculateMemoryEfficiency (ms : list MemoryMeasurement) : Q :=
  match ms with
  | [] => 1
  | b :: rest =>
      if (length ms <? 2)%nat then 1
      else
        let pk := Math_max (heapUsed b) (map heapUsed rest) in
        let c := last_of b ms in
        if (pk =? heapUsed b)%Z then 1
        else
          let efficiency :=
            subtract 1
              (divide (subtract (inject_Z (heapUsed c)) (inject_Z (heapUsed b)))
                      (subtract (inject_Z pk) (inject_Z (heapUsed b)))) in
          clamp01 efficiency
  end.

(** [getReport()]; [growth] is a difference of two byte counts. *)
Definition getReport (m : Monitor) : MemoryReport :=
  match log m with
  | [] =>
      {| baseline := 0; current := 0; peak := 0; growth := 0;
         measurements := [];
         leakDetected := false;
         averageGrowthRate := 0;
         memoryEfficiency := 1 |}
  | b :: rest =>
      let c := last_of b (log m) in
      let pk := Math_max (heapUsed b) (map heapUsed rest) in
      let g := (heapUsed c - heapUsed b)%Z in
      {| baseline := heapUsed b; current := heapUsed c; peak := pk; growth := g;
         measurements := log m;
         leakDetected := detectLeak (log m);
         averageGrowthRate := calculateAverageGrowthRate (log m);
         memoryEfficiency := calculateMemoryEfficiency (log m) |}
  end.

End MemoryMonitor64.

(* ===================================================================== *)
(** ** The fallback watch coordinator *)
(* ===================================================================== *)

Module FileWatcher.

(** Closures, timers and native watchers are compared by identity in the
    source; an identity is a number here, fresh ones come from the world. *)
Abbreviation Callback := nat.
Abbreviation TimerId := nat.
Abbreviation WatcherId := nat.

Inductive Result (A : Type) :=
| Ok (a : A)
| Throw (msg : string).
Arguments Ok {A} a.
Arguments Throw {A} msg.

(** A JS [Set] iterates in insertion order: a duplicate-free list. *)
Definition set_add (x : nat) (s : list nat) : list nat :=
  if bool_decide (x ∈ s) then s else s ++ [x].
Definition set_delete (x : nat) (s : list nat) : list nat :=
  filter (λ y, y ≠ x) s.

(** The module-level [watcherState] object. *)
Record WatcherState := {
  fallbackEnabled : bool;
  watchingPaths : gset string;
  callbacks : gmap string (list Callback);
  pollingInterval : option TimerId;
  disposed : bool;
  individualIntervals : list TimerId;
  cleanupListeners : list nat
}.

(** [localStorage] when it is defined: its items, and whether reading or
    writing raises (quota, security policy). *)
Record Storage := {
  items : gmap string string;
  getItem_throws : bool;
  setItem_throws : bool
}.

(** What a scheduled interval runs on each tick. *)
Inductive IntervalTask :=
| SharedPoll
| PathsPoll (callback : Callback).

(** What the coordinator does to its environment, in order. *)
Inductive Event :=
| EvNativeWatch (pattern : string) (ok : bool)
| EvNativeWatchPaths (ok : bool)
| EvWatcherClose (watcher : WatcherId) (ok : bool)
| EvSetInterval (timer : TimerId)
| EvClearInterval (timer : TimerId)
| EvSetItem (key value : string)
| EvInvoke (callback : Callback).

(** The coordinator together with the environment it acts on.
    [localStorage] and [window] are [None] where the host does not define
    them. *)
Record World := {
  state : WatcherState;
  localStorage : option Storage;
  window : option (list (string * nat));
  nextId : nat;
  activeIntervals : gmap TimerId IntervalTask;
  openWatchers : gmap WatcherId string;
  trace : list Event
}.

Definition FALLBACK_KEY : string := "bolt-file-watcher-fallback".

(** [tryLoadFallbackState()] *)
Definition tryLoadFallbackState (ls : option Storage) : bool :=
  match ls with
  | Some st =>
      if getItem_throws st then false
      else bool_decide (items st !! FALLBACK_KEY = Some "true")
  | None => false
  end.

(** The state the module starts with in a host offering [ls] and [win]. *)
Definition initialState (ls : option Storage) : WatcherState :=
  {| fallbackEnabled := tryLoadFallbackState ls;
     watchingPaths := ∅;
     callbacks := ∅;
     pollingInterval := None;
     disposed := false;
     individualIntervals := [];
     cleanupListeners := [] |}.

Definition boot (ls : option Storage) (win : option (list (string * nat))) : World :=
  {| state := initialState ls; localStorage := ls; window := win; nextId := 0;
     activeIntervals := ∅; openWatchers := ∅; trace := [] |}.

(** *** Field updates *)

Definition with_state (f : WatcherState → WatcherState) (w : World) : World :=
  {| state := f (state w); localStorage := localStorage w; window := window w;
     nextId := nextId w; activeIntervals := activeIntervals w;
     openWatchers := openWatchers w; trace := trace w |}.

Definition emit (e : Event) (w : World) : World :=
  {| state := state w; localStorage := localStorage w; window := window w;
     nextId := nextId w; activeIntervals := activeIntervals w;
     openWatchers := openWatchers w; trace := trace w ++ [e] |}.

Definition fresh (w : World) : nat * World :=
  (nextId w,
   {| state := state w; localStorage := localStorage w; window := window w;
      nextId := S (nextId w); activeIntervals := activeIntervals w;
      openWatchers := openWatchers w; trace := trace w |}).

Definition with_intervals
    (f : gmap TimerId IntervalTask → gmap TimerId IntervalTask) (w : World) : World :=
  {| state := state w; localStorage := localStorage w; window := window w;
     nextId := nextId w; activeIntervals := f (activeIntervals w);
     openWatchers := openWatchers w; trace := trace w |}.

Definition with_watchers
    (f : gmap WatcherId string → gmap WatcherId string) (w : World) : World :=
  {| state := state w; localStorage := localStorage w; window := window w;
     nextId := nextId w; activeIntervals := activeIntervals w;
     openWatchers := f (openWatchers w); trace := trace w |}.

Definition with_window
    (f : list (string * nat) → list (string * nat)) (w : World) : World :=
  {| state := state w; localStorage := localStorage w; window := f <$> window w;
     nextId := nextId w; activeIntervals := activeIntervals w;
     openWatchers := openWatchers w; trace := trace w |}.

Definition with_storage (ls : option Storage) (w : World) : World :=
  {| state := state w; localStorage := ls; window := window w;
     nextId := nextId w; activeIntervals := activeIntervals w;
     openWatchers := openWatchers w; trace := trace w |}.

Definition set_fallbackEnabled (b : bool) (s : WatcherState) : WatcherState :=
  {| fallbackEnabled := b; watchingPaths := watchingPaths s;
     callbacks := callbacks s; pollingInterval := pollingInterval s;
     disposed := disposed s; individualIntervals := individualIntervals s;
     cleanupListeners := cleanupListeners s |}.

Definition set_watchingPaths (p : gset string) (s : WatcherState) : WatcherState :=
  {| fallbackEnabled := fallbackEnabled s; watchingPaths := p;
     callbacks := callbacks s; pollingInterval := pollingInterval s;
     disposed := disposed s; individualIntervals := individualIntervals s;
     cleanupListeners := cleanupListeners s |}.

Definition set_callbacks (c : gmap string (list Callback)) (s : WatcherState)
    : WatcherState :=
  {| fallbackEnabled := fallbackEnabled s; watchingPaths := watchingPaths s;
     callbacks := c; pollingInterval := pollingInterval s;
     disposed := disposed s; individualIntervals := individualIntervals s;
     cleanupListeners := cleanupListeners s |}.

Definition set_pollingInterval (t : option TimerId) (s : WatcherState)
    : WatcherState :=
  {| fallbackEnabled := fallbackEnabled s; watchingPaths := watchingPaths s;
     callbacks := callbacks s; pollingInterval := t;
     disposed := disposed s; individualIntervals := individualIntervals s;
     cleanupListeners := cleanupListeners s |}.

Definition set_disposed (b : bool) (s : WatcherState) : WatcherState :=
  {| fallbackEnabled := fallbackEnabled s; watchingPaths := watchingPaths s;
     callbacks := callbacks s; pollingInterval := pollingInterval s;
     disposed := b; individualIntervals := individualIntervals s;
     cleanupListeners := cleanupListeners s |}.

Definition set_individualIntervals (l : list TimerId) (s : WatcherState)
    : WatcherState :=
  {| fallbackEnabled := fallbackEnabled s; watchingPaths := watchingPaths s;
     callbacks := callbacks s; pollingInterval := pollingInterval s;
     disposed := disposed s; individualIntervals := l;
     cleanupListeners := cleanupListeners s |}.

Definition set_cleanupListeners (l : list nat) (s : WatcherState) : WatcherState :=
  {| fallbackEnabled := fallbackEnabled s; watchingPaths := watchingPaths s;
     callbacks := callbacks s; pollingInterval := pollingInterval s;
     disposed := disposed s; individualIntervals := individualIntervals s;
     cleanupListeners := l |}.

(** *** Environment primitives *)

(** [setInterval(task, 3000)] *)
Definition setInterval (task : IntervalTask) (w : World) : TimerId * World :=
  let '(t, w) := fresh w in
  (t, emit (EvSetInterval t) (with_intervals (insert t task) w)).

(** [clearInterval(t)] *)
Definition clearInterval (t : TimerId) (w : World) : World :=
  emit (EvClearInterval t) (with_intervals (delete t) w).

(** [saveFallbackState(state)] *)
Definition saveFallbackState (b : bool) (w : World) : World :=
  match localStorage w with
  | Some st =>
      if setItem_throws st then w
      else
        let v := if b then "true" else "false" in
        emit (EvSetItem FALLBACK_KEY v)
          (with_storage
             (Some {| items := <[FALLBACK_KEY := v]> (items st);
                      getItem_throws := getItem_throws st;
                      setItem_throws := setItem_throws st |}) w)
  | None => w
  end.

(** [stopPolling()] *)
Definition stopPolling (w : World) : World :=
  match pollingInterval (state w) with
  | Some t => with_state (set_pollingInterval None) (clearInterval t w)
  | None => w
  end.

(** [ensurePollingActive()]: the interval it schedules is the shared poll;
    with a [window], a fresh [cleanup] closure is remembered and hooked on
    both unload events. *)
Definition ensurePollingActive (w : World) : World :=
  if bool_decide (is_Some (pollingInterval (state w))) || disposed (state w)
  then w
  else
    let '(t, w) := setInterval SharedPoll w in
    let w := with_state (set_pollingInterval (Some t)) w in
    match window w with
    | Some _ =>
        let '(c, w) := fresh w in
        let w :=
          with_state
            (λ s, set_cleanupListeners (set_add c (cleanupListeners s)) s) w in
        with_window (λ l, l ++ [("beforeunload", c); ("unload", c)]) w
    | None => w
    end.

(** [if (!callbacks.has(pattern)) callbacks.set(pattern, new Set());
     callbacks.get(pattern).add(callback)] *)
Definition addCallback (pattern : string) (callback : Callback)
    (s : WatcherState) : WatcherState :=
  set_callbacks
    (<[pattern := set_add callback (default [] (callbacks s !! pattern))]>
       (callbacks s)) s.

(** [const callbacks = watcherState.callbacks.get(pattern);
     if (callbacks) { callbacks.delete(callback);
       if (callbacks.size === 0) watcherState.callbacks.delete(pattern); }] *)
Definition removeCallback (pattern : string) (callback : Callback)
    (s : WatcherState) : WatcherState :=
  match callbacks s !! pattern with
  | Some cbs =>
      let cbs' := set_delete callback cbs in
      if bool_decide (length cbs' = 0)
      then set_callbacks (delete pattern (callbacks s)) s
      else set_callbacks (<[pattern := cbs']> (callbacks s)) s
  | None => s
  end.

(** The three ways the [try] block of [safeWatch] can end: the native watch
    is set up; [webcontainer.fs.watch] rejects; the watch resolves but
    attaching the change listener throws. *)
Inductive NativeOutcome :=
| WatchOk
| WatchRejects
| ListenThrows.

(** The object [safeWatch] or [safeWatchPaths] returns, by the [close]
    closure it carries and what that closure captured. *)
Inductive Handle :=
| FallbackHandle (pattern : string) (callback : Callback)
| NativeHandle (watcher : WatcherId) (pattern : string) (callback : Callback)
| FailoverHandle (pattern : string) (callback : Callback)
| PathsPollHandle (interval : TimerId)
| NativePathsHandle (id : nat).

(** The [catch] block of [safeWatch]. *)
Definition failover (pattern : string) (callback : Callback) (w : World)
    : World * Result Handle :=
  let w := with_state (set_fallbackEnabled true) w in
  let w := saveFallbackState true w in
  let w := ensurePollingActive w in
  (w, Ok (FailoverHandle pattern callback)).

(** [safeWatch(webcontainer, pattern, callback)], run to completion. *)
Definition safeWatch (pattern : string) (callback : Callback)
    (native : NativeOutcome) (w : World) : World * Result Handle :=
  if disposed (state w)
  then (w, Throw "Cannot watch files with disposed file watcher")
  else
    let w := with_state (addCallback pattern callback) w in
    if fallbackEnabled (state w) then
      let w := ensurePollingActive w in
      (w, Ok (FallbackHandle pattern callback))
    else
      match native with
      | WatchRejects =>
          failover pattern callback (emit (EvNativeWatch pattern false) w)
      | _ =>
          let '(wid, w) := fresh w in
          let w :=
            emit (EvNativeWatch pattern true)
              (with_watchers (insert wid pattern) w) in
          let w :=
            with_state
              (λ s, set_watchingPaths ({[pattern]} ∪ watchingPaths s) s) w in
          match native with
          | ListenThrows => failover pattern callback w
          | _ => (w, Ok (NativeHandle wid pattern callback))
          end
      end.

(** The polling set-up that both fallback branches of [safeWatchPaths]
    spell out. *)
Definition pollPaths (callback : Callback) (w : World) : World * Result Handle :=
  let w := ensurePollingActive w in
  let '(t, w) := setInterval (PathsPoll callback) w in
  let w :=
    with_state
      (λ s, set_individualIntervals (set_add t (individualIntervals s)) s) w in
  (w, Ok (PathsPollHandle t)).

(** [safeWatchPaths(webcontainer, config, callback)] *)
Definition safeWatchPaths (callback : Callback) (native_ok : bool) (w : World)
    : World * Result Handle :=
  if fallbackEnabled (state w) then pollPaths callback w
  else if native_ok then
    let '(i, w) := fresh w in
    (emit (EvNativeWatchPaths true) w, Ok (NativePathsHandle i))
  else
    let w := emit (EvNativeWatchPaths false) w in
    let w := with_state (set_fallbackEnabled true) w in
    let w := saveFallbackState true w in
    pollPaths callback w.

(** [handle.close()]; [close_ok] says whether the native [watcher.close()]
    returns, the other closures do not consult it. *)
Definition close (h : Handle) (close_ok : bool) (w : World) : World :=
  match h with
  | FallbackHandle p cb => with_state (removeCallback p cb) w
  | NativeHandle wid p cb =>
      if close_ok then
        let w := emit (EvWatcherClose wid true) (with_watchers (delete wid) w) in
        let w :=
          with_state (λ s, set_watchingPaths (watchingPaths s ∖ {[p]}) s) w in
        with_state (removeCallback p cb) w
      else emit (EvWatcherClose wid false) w
  | FailoverHandle p cb =>
      let w := with_state (removeCallback p cb) w in
      if bool_decide (size (callbacks (state w)) = 0) then stopPolling w else w
  | PathsPollHandle t =>
      let w := clearInterval t w in
      with_state
        (λ s, set_individualIntervals (set_delete t (individualIntervals s)) s) w
  | NativePathsHandle _ => w
  end.

(** [disposeFileWatcher()] *)
Definition disposeFileWatcher (w : World) : World :=
  if disposed (state w) then w
  else
    let w := with_state (set_disposed true) w in
    let w := stopPolling w in
    let w := foldl (λ w t, clearInterval t w) w (individualIntervals (state w)) in
    let w := with_state (set_individualIntervals []) w in
    let w := with_state (set_callbacks ∅) w in
    let w := with_state (set_watchingPaths ∅) w in
    let w :=
      foldl (λ w c, with_window (filter (λ l, l.2 ≠ c)) w) w
        (cleanupListeners (state w)) in
    with_state (set_cleanupListeners []) w.

(** One tick of a scheduled interval.  The shared poll guards every callback
    on its own, so every callback of every pattern runs.  The patterns are
    enumerated in key order here; the [Map] of the source is visited in
    insertion order, which permutes the patterns and leaves the callbacks of
    one pattern in place.  What is stated of a tick below does not depend on
    the order of its invocations. *)
Definition tick (t : TimerId) (w : World) : World :=
  match activeIntervals w !! t with
  | Some SharedPoll =>
      if disposed (state w) then stopPolling w
      else
        foldl (λ w cb, emit (EvInvoke cb) w) w
          (concat (snd <$> map_to_list (callbacks (state w))))
  | Some (PathsPoll cb) =>
      if disposed (state w) then clearInterval t w
      else emit (EvInvoke cb) w
  | None => w
  end.

(** [callbacks.forEach((cb) => cb())] without a guard: the first callback
    that throws ends the iteration. *)
Fixpoint invokeUntilThrow (throws : Callback → bool) (cbs : list Callback)
    (w : World) : World * Result unit :=
  match cbs with
  | [] => (w, Ok tt)
  | cb :: rest =>
      let w := emit (EvInvoke cb) w in
      if throws cb then (w, Throw "callback") else invokeUntilThrow throws rest w
  end.

(** A change reported by the native watcher [wid]: its listener looks up the
    callbacks of the pattern it was created for.  A closed watcher reports
    nothing. *)
Definition nativeChange (throws : Callback → bool) (wid : WatcherId) (w : World)
    : World * Result unit :=
  match openWatchers w !! wid with
  | Some p =>
      match callbacks (state w) !! p with
      | Some cbs => invokeUntilThrow throws cbs w
      | None => (w, Ok tt)
      end
  | None => (w, Ok tt)
  end.

(** [getFileWatcherStatus()] *)
Record Status := {
  st_disposed : bool;
  st_fallbackEnabled : bool;
  st_activeCallbacks : nat;
  st_watchingPaths : nat;
  st_pollingActive : bool;
  st_individualIntervals : nat
}.

Definition getFileWatcherStatus (w : World) : Status :=
  {| st_disposed := disposed (state w);
     st_fallbackEnabled := fallbackEnabled (state w);
     st_activeCallbacks := size (callbacks (state w));
     st_watchingPaths := size (watchingPaths (state w));
     st_pollingActive := bool_decide (is_Some (pollingInterval (state w)));
     st_individualIntervals := length (individualIntervals (state w)) |}.

(** *** The coordinator as a state machine *)

Inductive Mode := Native | Fallback | Disposed.

Definition mode (w : World) : Mode :=
  if disposed (state w) then Disposed
  else if fallbackEnabled (state w) then Fallback
  else Native.

(** Everything a client, a timer or the native primitive can do to the
    coordinator. *)
Inductive Op :=
| OpWatch (pattern : string) (callback : Callback) (native : NativeOutcome)
| OpWatchPaths (callback : Callback) (native_ok : bool)
| OpClose (h : Handle) (close_ok : bool)
| OpDispose
| OpTick (t : TimerId)
| OpChange (throws : Callback → bool) (wid : WatcherId).

Definition exec (o : Op) (w : World) : World :=
  match o with
  | OpWatch p cb native => (safeWatch p cb native w).1
  | OpWatchPaths cb ok => (safeWatchPaths cb ok w).1
  | OpClose h ok => close h ok w
  | OpDispose => disposeFileWatcher w
  | OpTick t => tick t w
  | OpChange throws wid => (nativeChange throws wid w).1
  end.

Definition run (ops : list Op) (w : World) : World := foldl (λ w o, exec o w) w ops.

(** The events an operation adds to the trace. *)
Definition emitted (w w' : World) : list Event := drop (length (trace w)) (trace w').

Definition is_native_attempt (e : Event) : bool :=
  match e with
  | EvNativeWatch _ _ | EvNativeWatchPaths _ => true
  | _ => false
  end.

Definition is_release (e : Event) : bool :=
  match e with
  | EvClearInterval _ | EvWatcherClose _ _ => true
  | _ => false
  end.

(** The persisted flag as a later process would read it. *)
Definition persistedFlag (w : World) : bool := tryLoadFallbackState (localStorage w).

(** The invariant the data model states for the shared poll timer. *)
Definition poll_invariant (w : World) : Prop :=
  is_Some (pollingInterval (state w)) ↔
  (mode w = Fallback ∧ callbacks (state w) ≠ ∅).

End FileWatcher.

(* ===================================================================== *)
(** ** The terminal-process registry *)
(* ===================================================================== *)

Module TerminalStore.

(** How a call of the host ends: it throws before it returns, or it returns
    and what it returned resolves, rejects or never settles when awaited. *)
Inductive Settle := Resolves | Rejects | NeverSettles | Throws.

(** A [WebContainerProcess] as the store sees it: its [killed] flag and what
    [process.kill()] does when called and awaited. *)
Record Process := {
  pid : nat;
  killed : bool;
  kill : Settle
}.

(** An element of [#terminals]. *)
Record Entry := {
  terminal : nat;
  process : Process
}.

(** [#boltTerminal]: [dispose] is an optional method. *)
Record BoltTerminal := {
  has_dispose : bool;
  bolt_dispose : Settle
}.

Record Store := {
  terminals : list Entry;
  boltTerminal : BoltTerminal;
  disposed : bool
}.

Inductive Event :=
| EvKill (p : nat)
| EvBoltDispose
| EvWarn (msg : string)
| EvWrite (t : nat) (msg : string).

(** The state of the promise an [async] function returned: fulfilled,
    rejected, or still pending. *)
Inductive Completion := Completed | Rejected | Pending.

Definition set_terminals (l : list Entry) (s : Store) : Store :=
  {| terminals := l; boltTerminal := boltTerminal s; disposed := disposed s |}.

Definition set_disposed (b : bool) (s : Store) : Store :=
  {| terminals := terminals s; boltTerminal := boltTerminal s; disposed := b |}.

(** *** [attachTerminal(terminal)] *)

(** Up to its first [await]: the disposed flag is looked at here and
    nowhere else.  [true] when the call goes on to wait for its shell. *)
Definition attachTerminal_begin (s : Store) : bool * list Event :=
  if disposed s
  then (false, [EvWarn "Cannot attach terminal to disposed TerminalStore"])
  else (true, []).

(** From the point where [newShellProcess] has settled, on the store as it
    is by then; [spawn] is the process it yields, [None] when it throws. *)
Definition attachTerminal_resume (t : nat) (spawn : option Process) (s : Store)
    : Store * list Event :=
  match spawn with
  | Some p => (set_terminals (terminals s ++ [{| terminal := t; process := p |}]) s, [])
  | None => (s, [EvWrite t "Failed to spawn shell"])
  end.

(** A call that no other call runs across. *)
Definition attachTerminal (t : nat) (spawn : option Process) (s : Store)
    : Store * list Event :=
  let '(go, evs) := attachTerminal_begin s in
  if go then attachTerminal_resume t spawn s else (s, evs).

(** *** Killing one process *)

(** The synchronous part of [try { if (!process.killed) await process.kill() }
    catch { console.warn }]: the kill is called unless the process reports
    itself killed; a kill that throws at the call is caught and logged on
    the spot. *)
Definition requestKill (e : Entry) : list Event :=
  if killed (process e) then []
  else
    match kill (process e) with
    | Throws => [EvKill (pid (process e)); EvWarn "Error killing terminal process:"]
    | _ => [EvKill (pid (process e))]
    end.

(** The rest of it once the awaited kill settles: a rejection is caught and
    logged, so the promise of the body fulfils; it stays pending only while
    the kill does. *)
Definition settleKill (e : Entry) : Completion * list Event :=
  if killed (process e) then (Completed, [])
  else
    match kill (process e) with
    | Resolves | Throws => (Completed, [])
    | Rejects => (Completed, [EvWarn "Error killing terminal process:"])
    | NeverSettles => (Pending, [])
    end.

Definition is_settled (c : Completion) : bool :=
  match c with Completed | Rejected => true | Pending => false end.

(** [Promise.allSettled(promises)] fulfils once every promise has fulfilled
    or rejected. *)
Definition allSettled (cs : list Completion) : Completion :=
  if forallb is_settled cs then Completed else Pending.

(** *** [detachTerminal(terminal)] *)

(** What a call holds on to across its [await]: the index [findIndex] gave
    and the record found there. *)
Record Detaching := {
  index : nat;
  victim : Entry
}.

(** [this.#terminals.splice(index, 1)]; nothing is removed when [index] is
    past the end. *)
Definition splice1 (index : nat) (s : Store) : Store :=
  set_terminals (delete index (terminals s)) s.


(** From the point where the awaited kill has settled, on the store as it is
    by then: the index found before the [await] is the one removed. *)
Definition detachTerminal_resume (d : Detaching) (s : Store)
    : Store * list Event * Completion :=
  match kill (process (victim d)) with
  | NeverSettles => (s, [], Pending)
  | Rejects => (splice1 (index d) s, [EvWarn "Error killing terminal process:"], Completed)
  | Resolves | Throws => (splice1 (index d) s, [], Completed)
  end.



(** *** [detachAllTerminals()] *)

(** Every mapped body runs up to its [await] before any outcome is looked
    at; the list is emptied once all have settled.  The [await] of
    [Promise.allSettled] is not in a [try]. *)
Definition detachAllTerminals (s : Store) : Store * list Event * Completion :=
  let requested := concat (requestKill <$> terminals s) in
  let outcomes := settleKill <$> terminals s in
  let evs := requested ++ concat (snd <$> outcomes) in
  match allSettled (fst <$> outcomes) with
  | Completed => (set_terminals [] s, evs, Completed)
  | Rejected => (s, evs, Rejected)
  | Pending => (s, evs, Pending)
  end.

(** [dispose()] *)
Definition dispose (s : Store) : Store * list Event * Completion :=
  if disposed s then (s, [], Completed)
  else
    let s := set_disposed true s in
    let '(s, evs, c) := detachAllTerminals s in
    match c with
    | Completed =>
        if has_dispose (boltTerminal s) then
          match bolt_dispose (boltTerminal s) with
          | Resolves => (s, evs ++ [EvBoltDispose], Completed)
          | Rejects | Throws =>
              (s, evs ++ [EvBoltDispose; EvWarn "Error disposing bolt terminal:"],
               Completed)
          | NeverSettles => (s, evs ++ [EvBoltDispose], Pending)
          end
        else (s, evs, Completed)
    | Rejected => (s, evs, Rejected)
    | Pending => (s, evs, Pending)
    end.

(** [getActiveTerminalCount()] *)
Definition getActiveTerminalCount (s : Store) : nat :=
  length (filter (λ e, killed (process e) = false) (terminals s)).

Definition is_kill (e : Event) : bool :=
  match e with EvKill _ => true | _ => false end.

Definition is_warn (e : Event) : bool :=
  match e with EvWarn _ => true | _ => false end.

Definition is_release (e : Event) : bool :=
  match e with EvKill _ | EvBoltDispose => true | _ => false end.

Definition live (e : Entry) : bool := negb (killed (process e)).

(** The kill of a live record fails: it throws or rejects. *)
Definition fails (e : Entry) : bool :=
  live e &&
  match kill (process e) with Rejects | Throws => true | _ => false end.

End TerminalStore.

(* ===================================================================== *)
(** ** Properties of the memory monitor *)
(* ===================================================================== *)

Module MemoryMonitorProofs.
Import MemoryMonitor.

Local Open Scope Z_scope.

(** *** Sums: the reductions of the code against the sums of the formula *)

Lemma reduce_sum_from (l : list Z) (a : Z) :
  fold_left (fun a b => a + b) l a = a + sigma l.
Proof.
  revert a; induction l as [|y l IH]; intros a; simpl.
  - lia.
  - rewrite IH. unfold sigma; simpl. lia.
Qed.

Lemma reduce_sum_sigma (l : list Z) : reduce_sum l = sigma l.
Proof. unfold reduce_sum. rewrite reduce_sum_from. lia. Qed.

Lemma reduce_indexed_from (l : list Z) (k : nat) (acc : Z) :
  reduce_indexed (Z.of_nat k) l acc
  = acc + sigma (zip_with Z.mul (map Z.of_nat (seq k (length l))) l).
Proof.
  revert k acc; induction l as [|y l IH]; intros k acc; simpl.
  - lia.
  - replace (Z.of_nat k + 1) with (Z.of_nat (S k)) by lia.
    rewrite IH. unfold sigma; simpl. lia.
Qed.

Lemma reduce_indexed_sigma (l : list Z) :
  reduce_indexed 0 l 0 = sigma (zip_with Z.mul (indices (length l)) l).
Proof. apply (reduce_indexed_from l 0%nat 0). Qed.

Lemma indices_succ (n : nat) : indices (S n) = indices n ++ [Z.of_nat n].
Proof. unfold indices. rewrite seq_S, map_app. reflexivity. Qed.

Lemma sigma_app (l1 l2 : list Z) : sigma (l1 ++ l2) = sigma l1 + sigma l2.
Proof.
  unfold sigma. induction l1 as [|x l1 IH]; simpl; [reflexivity|].
  rewrite IH. lia.
Qed.

(** Σx over the indices 0..n-1 is n(n-1)/2. *)
Lemma sigma_indices (n : nat) :
  2 * sigma (indices n) = Z.of_nat n * (Z.of_nat n - 1).
Proof.
  induction n as [|n IH]; [reflexivity|].
  rewrite indices_succ, sigma_app. unfold sigma at 2; simpl fold_right.
  nia.
Qed.

(** Σx² over the indices 0..n-1 is n(n-1)(2n-1)/6. *)
Lemma sigma_squares (n : nat) :
  6 * sigma (map (fun x => x * x) (indices n))
  = Z.of_nat n * (Z.of_nat n - 1) * (2 * Z.of_nat n - 1).
Proof.
  induction n as [|n IH]; [reflexivity|].
  rewrite indices_succ, map_app, sigma_app. unfold sigma at 2; simpl fold_right.
  nia.
Qed.

(** *** Comparisons on rationals *)

Lemma Qgtb_true (a b : Q) : Qgtb a b = true <-> (b < a)%Q.
Proof.
  unfold Qgtb. rewrite negb_true_iff, <- not_true_iff_false, Qle_bool_iff.
  split; [apply Qnot_le_lt | apply Qlt_not_le].
Qed.

Lemma Qgtb_proper (a a' b : Q) : (a == a')%Q -> Qgtb a b = Qgtb a' b.
Proof.
  intros E. apply eq_true_iff_eq. rewrite !Qgtb_true, E. reflexivity.
Qed.

Lemma inject_Z_zero_iff (z : Z) : (inject_Z z == 0)%Q <-> z = 0.
Proof. unfold Qeq; simpl. lia. Qed.

Lemma inject_Z_minus (x y : Z) : inject_Z (x - y) = (inject_Z x - inject_Z y)%Q.
Proof.
  unfold Z.sub, Qminus. rewrite inject_Z_plus, inject_Z_opp. reflexivity.
Qed.

(** *** The closed forms of the code compute the regression of the formula *)

Lemma trend_refines (ys : list Z) : (calculateTrend ys == slope_spec ys)%Q.
Proof.
  unfold calculateTrend, slope_spec.
  rewrite reduce_sum_sigma, reduce_indexed_sigma.
  pose proof (sigma_indices (length ys)) as Hx.
  pose proof (sigma_squares (length ys)) as Hxx.
  set (n := Z.of_nat (length ys)) in *.
  set (Sx := sigma (indices (length ys))) in *.
  set (Sxx := sigma (map (fun x => x * x) (indices (length ys)))) in *.
  set (Sy := sigma ys).
  set (Sxy := sigma (zip_with Z.mul (indices (length ys)) ys)).
  destruct (n <? 2) eqn:Hn.
  - apply Z.ltb_lt in Hn.
    assert (Hden : n * Sxx - Sx * Sx = 0) by (subst n; nia).
    rewrite Hden. reflexivity.
  - assert (E1 : (inject_Z (n * (n - 1)) / 2 == inject_Z Sx)%Q).
    { rewrite <- Hx, inject_Z_mult. field. }
    assert (E2 : (inject_Z (n * (n - 1) * (2 * n - 1)) / 6 == inject_Z Sxx)%Q).
    { rewrite <- Hxx, inject_Z_mult. field. }
    cbv zeta.
    set (D := (inject_Z n * (inject_Z (n * (n - 1) * (2 * n - 1)) / 6)
               - inject_Z (n * (n - 1)) / 2 * (inject_Z (n * (n - 1)) / 2))%Q).
    assert (ED : (D == inject_Z (n * Sxx - Sx * Sx))%Q).
    { unfold D. rewrite E1, E2, inject_Z_minus, !inject_Z_mult. reflexivity. }
    destruct (Qeq_bool D 0) eqn:HD; destruct (n * Sxx - Sx * Sx =? 0) eqn:Hden;
      simpl.
    + reflexivity.
    + apply Qeq_bool_iff in HD. rewrite ED in HD.
      apply (proj1 (inject_Z_zero_iff _)) in HD. apply Z.eqb_neq in Hden.
      contradiction.
    + apply Z.eqb_eq in Hden. rewrite Hden in ED.
      apply Qeq_bool_neq in HD. exfalso. apply HD. rewrite ED. reflexivity.
    + rewrite ED, E1, !inject_Z_minus, !inject_Z_mult. reflexivity.
Qed.

(** The window the analyser looks at. *)
Lemma slice_last_length {A} (k : nat) (l : list A) :
  (k <= length l)%nat -> length (slice_last k l) = k.
Proof. intros H. unfold slice_last. rewrite length_skipn. lia. Qed.

Lemma slice_last_all {A} (l : list A) : slice_last (length l) l = l.
Proof. unfold slice_last. rewrite Nat.sub_diag. reflexivity. Qed.

(** Ten readings that start at [b] and grow by [d] per sample. *)
Definition ramp (b d : Z) : list Z := map (fun i => b + d * i) (indices 10).

Lemma slope_ramp (b d : Z) : (slope_spec (ramp b d) == inject_Z d)%Q.
Proof.
  unfold slope_spec, ramp. rewrite length_map.
  change (length (indices 10)) with 10%nat.
  set (xs := indices 10).
  assert (Hx : sigma xs = 45) by reflexivity.
  assert (Hxx : sigma (map (fun x => x * x) xs) = 285) by reflexivity.
  assert (Hy : sigma (map (fun i => b + d * i) xs) = 10 * b + 45 * d).
  { unfold xs, indices, sigma; simpl. lia. }
  assert (Hxy : sigma (zip_with Z.mul xs (map (fun i => b + d * i) xs))
                = 45 * b + 285 * d).
  { unfold xs, indices, sigma; simpl. lia. }
  rewrite Hx, Hxx, Hy, Hxy.
  change (Z.of_nat 10 * 285 - 45 * 45 =? 0) with false. cbv iota.
  replace (Z.of_nat 10 * (45 * b + 285 * d) - 45 * (10 * b + 45 * d))
    with (d * 825) by lia.
  change (Z.of_nat 10 * 285 - 45 * 45) with 825.
  rewrite inject_Z_mult. field.
Qed.

(** *** The report *)

Lemma report_leak (m : Monitor) : leakDetected (getReport m) = detectLeak (log m).
Proof. unfold getReport. destruct (log m); reflexivity. Qed.

Lemma detectLeak_long (ms : list MemoryMeasurement) :
  (10 <= length ms)%nat ->
  detectLeak ms
  = Qgtb (calculateTrend (map heapUsed (slice_last 10 ms))) (inject_Z leakThreshold).
Proof.
  intros H. unfold detectLeak.
  destruct (Nat.ltb_spec (length ms) 10) as [Hlt|_]; [lia | reflexivity].
Qed.

Definition ramp_log : list MemoryMeasurement :=
  map (fun i => sample (1000 * i) (5 * MiB + 2 * MiB * i)) (indices 10).

Definition ramp_monitor : Monitor :=
  {| log := ramp_log; isMonitoring := false; intervalId := None; startTime := 0 |}.

(** C2. With fewer than ten samples in the log no leak is reported, whatever
    the samples hold. *)
Theorem short_log_never_leaks (m : Monitor)
    (Hlen : (length (log m) < 10)%nat) :
  detectLeak (log m) = false /\ leakDetected (getReport m) = false.
Proof.
  assert (H : detectLeak (log m) = false).
  { unfold detectLeak.
    destruct (Nat.ltb_spec (length (log m)) 10) as [_|Hge]; [reflexivity | lia]. }
  split; [exact H|]. rewrite report_leak. exact H.
Qed.

Definition steep_monitor : Monitor :=
  {| log := [sample 0 0; sample 1000 (1000 * MiB); sample 2000 (5000 * MiB)];
     isMonitoring := true; intervalId := Some 1%nat; startTime := 0 |}.

Lemma short_log_never_leaks_witness :
  (length (log steep_monitor) < 10)%nat
  /\ leakDetected (getReport steep_monitor) = false.
Proof.
  assert (H : (length (log steep_monitor) < 10)%nat) by (simpl; lia).
  split; [exact H|].
  exact (proj2 (short_log_never_leaks steep_monitor H)).
Defined.

(** C10. On the empty log, of a monitor that has recorded nothing or has
    just been cleared, the report is the fixed one: baseline, current, peak
    and growth 0, no leak, growth rate 0 and efficiency 1. *)
Theorem empty_log_report :
  let fixed :=
    {| baseline := 0; current := 0; peak := 0; growth := 0; measurements := [];
       leakDetected := false; averageGrowthRate := 0%Q;
       memoryEfficiency := 1%Q |} in
  getReport newMonitor = fixed
  /\ (forall m, getReport (clear m) = fixed)
  /\ (forall m, log m = [] -> getReport m = fixed).
Proof.
  cbv zeta. split; [reflexivity|]. split.
  - intros m. reflexivity.
  - intros m H. unfold getReport. rewrite H. reflexivity.
Qed.

(** *** The efficiency score *)

(** [p] is the largest element of [xs]. *)
Definition is_maximum (p : Z) (xs : list Z) : Prop :=
  p ∈ xs /\ forall x, x ∈ xs -> x <= p.

(** [r] is [e] clamped to the interval [0,1]. *)
Definition clamped (e r : Q) : Prop :=
  ((e < 0)%Q -> (r == 0)%Q)
  /\ ((0 <= e)%Q -> (e <= 1)%Q -> (r == e)%Q)
  /\ ((1 < e)%Q -> (r == 1)%Q).

Lemma fold_max_ge (xs : list Z) (a : Z) : a <= fold_left Z.max xs a.
Proof.
  revert a; induction xs as [|x xs IH]; intros a; simpl; [lia|].
  specialize (IH (Z.max a x)). lia.
Qed.

Lemma Math_max_is_maximum (x : Z) (xs : list Z) :
  is_maximum (Math_max x xs) (x :: xs).
Proof.
  unfold Math_max, is_maximum. revert x.
  induction xs as [|y xs IH]; intros x; simpl.
  - split; [left | intros z Hz; apply list_elem_of_singleton in Hz; lia].
  - destruct (IH (Z.max x y)) as [Hin Hle]. split.
    + apply elem_of_cons in Hin as [Heq|Hin].
      * rewrite Heq. destruct (Z.max_spec x y) as [[_ ->]|[_ ->]].
        -- right; left.
        -- left.
      * right; right; exact Hin.
    + intros z Hz.
      assert (Hm : Z.max x y <= fold_left Z.max xs (Z.max x y))
        by apply fold_max_ge.
      apply elem_of_cons in Hz as [->|Hz]; [lia|].
      apply elem_of_cons in Hz as [->|Hz]; [lia|].
      apply Hle. right; exact Hz.
Qed.

Lemma Qle_bool_false (a b : Q) : Qle_bool a b = false -> (b < a)%Q.
Proof.
  intros H. apply Qnot_le_lt. intros Hle.
  apply Qle_bool_iff in Hle. congruence.
Qed.

Lemma clamp01_clamped (e : Q) : clamped e (clamp01 e).
Proof.
  unfold clamped, clamp01, Math_max2, Math_min2.
  destruct (Qle_bool 1 e) eqn:H1.
  - apply Qle_bool_iff in H1. change (Qle_bool 0 1) with true. cbv iota.
    repeat split; intros; lra.
  - apply Qle_bool_false in H1.
    destruct (Qle_bool 0 e) eqn:H0.
    + apply Qle_bool_iff in H0. repeat split; intros; lra.
    + apply Qle_bool_false in H0. repeat split; intros; lra.
Qed.

Lemma last_default {A} (d : A) (l : list A) :
  l <> [] -> last l = Some (List.last l d).
Proof.
  induction l as [|x l IH]; [contradiction|]. intros _.
  destruct l as [|y l]; [reflexivity|].
  change (last (x :: y :: l)) with (last (y :: l)).
  change (List.last (x :: y :: l) d) with (List.last (y :: l) d).
  apply IH. discriminate.
Qed.


Lemma efficiency_flat (m : Monitor) :
  peak (getReport m) = baseline (getReport m) ->
  memoryEfficiency (getReport m) = 1%Q.
Proof.
  unfold getReport. destruct (log m) as [|b rest] eqn:Hlog; simpl.
  - reflexivity.
  - intros Hpk. unfold calculateMemoryEfficiency.
    destruct rest as [|c rest]; [reflexivity|].
    change (length (b :: c :: rest) <? 2)%nat with false. cbv iota zeta.
    apply Z.eqb_eq in Hpk. rewrite Hpk. reflexivity.
Qed.

Definition sawtooth_monitor : Monitor :=
  {| log := [sample 0 (10 * MiB); sample 1000 (50 * MiB); sample 2000 (30 * MiB)];
     isMonitoring := false; intervalId := None; startTime := 0 |}.

End MemoryMonitorProofs.

(* ===================================================================== *)
(** ** Properties of the fallback watch coordinator *)
(* ===================================================================== *)

Module FileWatcherProofs.
Import FileWatcher.

(** *** What the primitives leave alone *)

Lemma foldl_frame {A B C} (f : A → B → A) (P : A → C) (l : list B) (a : A) :
  (∀ a b, P (f a b) = P a) → P (foldl f a l) = P a.
Proof.
  intros Hf. revert a; induction l as [|b l IH]; intros a; simpl; [reflexivity|].
  rewrite IH. apply Hf.
Qed.

Lemma stopPolling_fallback (w : World) :
  fallbackEnabled (state (stopPolling w)) = fallbackEnabled (state w).
Proof. unfold stopPolling. destruct (pollingInterval (state w)); reflexivity. Qed.

Lemma stopPolling_storage (w : World) :
  localStorage (stopPolling w) = localStorage w.
Proof. unfold stopPolling. destruct (pollingInterval (state w)); reflexivity. Qed.

Lemma stopPolling_disposed (w : World) :
  disposed (state (stopPolling w)) = disposed (state w).
Proof. unfold stopPolling. destruct (pollingInterval (state w)); reflexivity. Qed.

Lemma stopPolling_callbacks (w : World) :
  callbacks (state (stopPolling w)) = callbacks (state w).
Proof. unfold stopPolling. destruct (pollingInterval (state w)); reflexivity. Qed.

Lemma stopPolling_polling (w : World) :
  pollingInterval (state (stopPolling w)) = None.
Proof.
  unfold stopPolling. destruct (pollingInterval (state w)) eqn:E; [reflexivity|exact E].
Qed.

Lemma ensurePollingActive_fallback (w : World) :
  fallbackEnabled (state (ensurePollingActive w)) = fallbackEnabled (state w).
Proof.
  unfold ensurePollingActive.
  destruct (bool_decide _ || _); [reflexivity|]. cbn.
  destruct (window w); reflexivity.
Qed.

Lemma ensurePollingActive_storage (w : World) :
  localStorage (ensurePollingActive w) = localStorage w.
Proof.
  unfold ensurePollingActive.
  destruct (bool_decide _ || _); [reflexivity|]. cbn.
  destruct (window w); reflexivity.
Qed.

Lemma ensurePollingActive_disposed (w : World) :
  disposed (state (ensurePollingActive w)) = disposed (state w).
Proof.
  unfold ensurePollingActive.
  destruct (bool_decide _ || _); [reflexivity|]. cbn.
  destruct (window w); reflexivity.
Qed.

Lemma ensurePollingActive_callbacks (w : World) :
  callbacks (state (ensurePollingActive w)) = callbacks (state w).
Proof.
  unfold ensurePollingActive.
  destruct (bool_decide _ || _); [reflexivity|]. cbn.
  destruct (window w); reflexivity.
Qed.

(** On a coordinator that is not disposed the shared poll runs afterwards. *)
Lemma ensurePollingActive_polling (w : World) :
  disposed (state w) = false →
  is_Some (pollingInterval (state (ensurePollingActive w))).
Proof.
  intros Hd. unfold ensurePollingActive. rewrite Hd, orb_false_r.
  case_bool_decide as Hp; [exact Hp|]. cbn.
  destruct (window w); cbn; eauto.
Qed.

(** It schedules at most one interval and attempts nothing native. *)
Lemma ensurePollingActive_trace (w : World) :
  ∃ evs, trace (ensurePollingActive w) = trace w ++ evs
         ∧ Forall (λ e, is_native_attempt e = false) evs.
Proof.
  unfold ensurePollingActive.
  destruct (bool_decide _ || _).
  - exists []. rewrite app_nil_r. split; [reflexivity | constructor].
  - cbn. exists [EvSetInterval (nextId w)].
    split; [destruct (window w); reflexivity | repeat constructor].
Qed.

Lemma saveFallbackState_fallback (b : bool) (w : World) :
  fallbackEnabled (state (saveFallbackState b w)) = fallbackEnabled (state w).
Proof.
  unfold saveFallbackState. destruct (localStorage w) as [st|]; [|reflexivity].
  destruct (setItem_throws st); reflexivity.
Qed.

Lemma saveFallbackState_state (b : bool) (w : World) :
  state (saveFallbackState b w) = state w.
Proof.
  unfold saveFallbackState. destruct (localStorage w) as [st|]; [|reflexivity].
  destruct (setItem_throws st); reflexivity.
Qed.

Lemma saveFallbackState_disposed (b : bool) (w : World) :
  disposed (state (saveFallbackState b w)) = disposed (state w).
Proof.
  unfold saveFallbackState. destruct (localStorage w) as [st|]; [|reflexivity].
  destruct (setItem_throws st); reflexivity.
Qed.

(** What [saveFallbackState(true)] does to the storage. *)
Definition writeFlag (ls : option Storage) : option Storage :=
  match ls with
  | Some st =>
      if setItem_throws st then ls
      else Some {| items := <[FALLBACK_KEY := "true"]> (items st);
                   getItem_throws := getItem_throws st;
                   setItem_throws := setItem_throws st |}
  | None => None
  end.

Lemma saveFallbackState_storage (w : World) :
  localStorage (saveFallbackState true w) = writeFlag (localStorage w).
Proof.
  unfold saveFallbackState, writeFlag. destruct (localStorage w) as [st|] eqn:E.
  - destruct (setItem_throws st); [exact E | reflexivity].
  - exact E.
Qed.

Lemma saveFallbackState_trace (b : bool) (w : World) :
  ∃ evs, trace (saveFallbackState b w) = trace w ++ evs
         ∧ Forall (λ e, is_native_attempt e = false) evs.
Proof.
  unfold saveFallbackState. destruct (localStorage w) as [st|].
  - destruct (setItem_throws st).
    + exists []. rewrite app_nil_r. split; [reflexivity | constructor].
    + eexists [_]. split; [reflexivity | repeat constructor].
  - exists []. rewrite app_nil_r. split; [reflexivity | constructor].
Qed.

(** The host lets the coordinator read and write its flag. *)
Definition storage_usable (ls : option Storage) : Prop :=
  ∃ st, ls = Some st ∧ getItem_throws st = false ∧ setItem_throws st = false.

Lemma writeFlag_keeps (ls : option Storage) :
  tryLoadFallbackState ls = true → tryLoadFallbackState (writeFlag ls) = true.
Proof.
  destruct ls as [st|]; [|discriminate]. unfold writeFlag, tryLoadFallbackState.
  destruct (setItem_throws st); [tauto|]. cbn.
  destruct (getItem_throws st); [discriminate|]. intros _.
  apply bool_decide_eq_true. apply lookup_insert_eq.
Qed.

Lemma writeFlag_sets (ls : option Storage) :
  storage_usable ls → tryLoadFallbackState (writeFlag ls) = true.
Proof.
  intros (st & -> & Hg & Hs). unfold writeFlag, tryLoadFallbackState.
  rewrite Hs. cbn. rewrite Hg.
  apply bool_decide_eq_true. apply lookup_insert_eq.
Qed.

Lemma addCallback_fields (p : string) (cb : Callback) (s : WatcherState) :
  fallbackEnabled (addCallback p cb s) = fallbackEnabled s
  ∧ disposed (addCallback p cb s) = disposed s
  ∧ pollingInterval (addCallback p cb s) = pollingInterval s.
Proof. repeat split. Qed.

Lemma removeCallback_fields (p : string) (cb : Callback) (s : WatcherState) :
  fallbackEnabled (removeCallback p cb s) = fallbackEnabled s
  ∧ disposed (removeCallback p cb s) = disposed s
  ∧ pollingInterval (removeCallback p cb s) = pollingInterval s.
Proof.
  unfold removeCallback. destruct (callbacks s !! p); [|repeat split].
  case_bool_decide; repeat split.
Qed.

Lemma invokeUntilThrow_frame (throws : Callback → bool) (cbs : list Callback)
    (w : World) :
  state (invokeUntilThrow throws cbs w).1 = state w
  ∧ localStorage (invokeUntilThrow throws cbs w).1 = localStorage w
  ∧ openWatchers (invokeUntilThrow throws cbs w).1 = openWatchers w.
Proof.
  revert w; induction cbs as [|cb cbs IH]; intros w; simpl; [repeat split|].
  destruct (throws cb); [repeat split|].
  destruct (IH (emit (EvInvoke cb) w)) as (-> & -> & ->). repeat split.
Qed.

Lemma nativeChange_frame (throws : Callback → bool) (wid : WatcherId) (w : World) :
  state (nativeChange throws wid w).1 = state w
  ∧ localStorage (nativeChange throws wid w).1 = localStorage w.
Proof.
  unfold nativeChange. destruct (openWatchers w !! wid); [|repeat split].
  destruct (callbacks (state w) !! s); [|repeat split].
  destruct (invokeUntilThrow_frame throws l w) as (-> & -> & _). repeat split.
Qed.

Ltac frame_ops :=
  repeat first
    [ rewrite ensurePollingActive_fallback | rewrite ensurePollingActive_storage
    | rewrite ensurePollingActive_disposed
    | rewrite stopPolling_fallback | rewrite stopPolling_storage
    | rewrite stopPolling_disposed
    | rewrite saveFallbackState_fallback | rewrite saveFallbackState_storage
    | rewrite saveFallbackState_disposed
    | progress cbn ].

(** *** The flag in memory only ever goes up *)

Lemma exec_fallback (o : Op) (w : World) :
  fallbackEnabled (state w) = true → fallbackEnabled (state (exec o w)) = true.
Proof.
  intros H. destruct o as [p cb native|cb ok|h ok| |t|throws wid]; cbn [exec].
  - unfold safeWatch. destruct (disposed (state w)); [exact H|].
    cbn. rewrite H. frame_ops. exact H.
  - unfold safeWatchPaths. rewrite H. unfold pollPaths, setInterval. frame_ops.
    exact H.
  - destruct h as [p cb|wid p cb|p cb|t|i]; cbn [close].
    + cbn. rewrite (proj1 (removeCallback_fields _ _ _)). exact H.
    + destruct ok; cbn; [|exact H].
      rewrite (proj1 (removeCallback_fields _ _ _)). exact H.
    + case_bool_decide; frame_ops;
        rewrite (proj1 (removeCallback_fields _ _ _)); exact H.
    + exact H.
    + exact H.
  - unfold disposeFileWatcher. destruct (disposed (state w)); [exact H|].
    cbn.
    rewrite (foldl_frame _ (λ w, fallbackEnabled (state w))) by reflexivity.
    cbn.
    rewrite (foldl_frame _ (λ w, fallbackEnabled (state w))) by reflexivity.
    frame_ops. exact H.
  - unfold tick. destruct (activeIntervals w !! t) as [[|cb]|]; [| |exact H].
    + destruct (disposed (state w)); frame_ops; [exact H|].
      rewrite (foldl_frame _ (λ w, fallbackEnabled (state w))) by reflexivity.
      exact H.
    + destruct (disposed (state w)); exact H.
  - rewrite (proj1 (nativeChange_frame _ _ _)). exact H.
Qed.

Lemma run_fallback (ops : list Op) (w : World) :
  fallbackEnabled (state w) = true → fallbackEnabled (state (run ops w)) = true.
Proof.
  revert w; induction ops as [|o ops IH]; intros w H; [exact H|].
  apply IH, exec_fallback, H.
Qed.

(** *** No operation unsets the stored flag *)

Lemma exec_storage (o : Op) (w : World) :
  localStorage (exec o w) = localStorage w
  ∨ localStorage (exec o w) = writeFlag (localStorage w).
Proof.
  destruct o as [p cb native|cb ok|h ok| |t|throws wid]; cbn [exec].
  - unfold safeWatch, failover. destruct (disposed (state w)); [left; reflexivity|].
    cbn. destruct (fallbackEnabled (state w)); frame_ops; [left; reflexivity|].
    destruct native; frame_ops; auto.
  - unfold safeWatchPaths, pollPaths, setInterval.
    destruct (fallbackEnabled (state w)); frame_ops; [left; reflexivity|].
    destruct ok; frame_ops; auto.
  - left. destruct h as [p cb|wid p cb|p cb|t|i]; cbn [close]; try reflexivity.
    + destruct ok; reflexivity.
    + case_bool_decide; frame_ops; reflexivity.
  - left. unfold disposeFileWatcher. destruct (disposed (state w)); [reflexivity|].
    cbn. rewrite (foldl_frame _ localStorage) by reflexivity.
    cbn. rewrite (foldl_frame _ localStorage) by reflexivity.
    frame_ops. reflexivity.
  - left. unfold tick. destruct (activeIntervals w !! t) as [[|cb]|]; [| |reflexivity].
    + destruct (disposed (state w)); frame_ops; [reflexivity|].
      rewrite (foldl_frame _ localStorage) by reflexivity. reflexivity.
    + destruct (disposed (state w)); reflexivity.
  - left. apply nativeChange_frame.
Qed.

Lemma run_persisted (ops : list Op) (w : World) :
  persistedFlag w = true → persistedFlag (run ops w) = true.
Proof.
  revert w; induction ops as [|o ops IH]; intros w H; [exact H|].
  apply IH. unfold persistedFlag in *.
  destruct (exec_storage o w) as [->| ->]; [exact H | apply writeFlag_keeps, H].
Qed.

(** *** Modes *)

Lemma mode_native (w : World) :
  mode w = Native ↔ disposed (state w) = false ∧ fallbackEnabled (state w) = false.
Proof.
  unfold mode. destruct (disposed (state w)), (fallbackEnabled (state w));
    split; intros H; try discriminate; try (destruct H; discriminate); auto.
Qed.

Lemma mode_fallback (w : World) :
  mode w = Fallback ↔ disposed (state w) = false ∧ fallbackEnabled (state w) = true.
Proof.
  unfold mode. destruct (disposed (state w)), (fallbackEnabled (state w));
    split; intros H; try discriminate; try (destruct H; discriminate); auto.
Qed.

Lemma mode_disposed (w : World) :
  mode w = Disposed ↔ disposed (state w) = true.
Proof.
  unfold mode. destruct (disposed (state w)), (fallbackEnabled (state w));
    split; intros H; try discriminate; auto.
Qed.

Lemma emitted_app (w w' : World) (evs : list Event) :
  trace w' = trace w ++ evs → emitted w w' = evs.
Proof. intros H. unfold emitted. rewrite H. apply drop_app_length. Qed.

Lemma elem_of_set_add (x : nat) (s : list nat) : x ∈ set_add x s.
Proof.
  unfold set_add. case_bool_decide as H; [exact H|].
  apply elem_of_app. right. left.
Qed.

(** *** Registration in Fallback mode *)

Lemma safeWatch_in_fallback (w : World) (p : string) (cb : Callback)
    (native : NativeOutcome) :
  mode w = Fallback →
  (safeWatch p cb native w).2 = Ok (FallbackHandle p cb)
  ∧ Forall (λ e, is_native_attempt e = false) (emitted w (safeWatch p cb native w).1)
  ∧ openWatchers (safeWatch p cb native w).1 = openWatchers w
  ∧ is_Some (pollingInterval (state (safeWatch p cb native w).1))
  ∧ (∃ cbs, callbacks (state (safeWatch p cb native w).1) !! p = Some cbs ∧ cb ∈ cbs).
Proof.
  intros [Hd Hf]%mode_fallback. unfold safeWatch. rewrite Hd. cbn. rewrite Hf. cbn.
  set (w' := with_state (addCallback p cb) w).
  split; [reflexivity|]. split.
  { destruct (ensurePollingActive_trace w') as (evs & Htr & Hevs).
    rewrite (emitted_app w _ evs); [exact Hevs | exact Htr]. }
  split.
  { unfold ensurePollingActive. destruct (bool_decide _ || _); [reflexivity|].
    cbn. destruct (window w); reflexivity. }
  split.
  { apply ensurePollingActive_polling. exact Hd. }
  rewrite ensurePollingActive_callbacks. cbn.
  eexists. split; [apply lookup_insert_eq | apply elem_of_set_add].
Qed.

Lemma safeWatchPaths_in_fallback (w : World) (cb : Callback) (ok : bool) :
  fallbackEnabled (state w) = true →
  Forall (λ e, is_native_attempt e = false) (emitted w (safeWatchPaths cb ok w).1).
Proof.
  intros Hf. unfold safeWatchPaths. rewrite Hf. unfold pollPaths, setInterval. cbn.
  destruct (ensurePollingActive_trace w) as (evs & Htr & Hevs).
  erewrite emitted_app; [|cbn; rewrite Htr, <- app_assoc; reflexivity].
  apply Forall_app. split; [exact Hevs | repeat constructor].
Qed.

(** *** The transition *)

Lemma failover_result (p : string) (cb : Callback) (w : World) :
  disposed (state w) = false →
  mode (failover p cb w).1 = Fallback
  ∧ localStorage (failover p cb w).1 = writeFlag (localStorage w).
Proof.
  intros Hd. unfold failover. cbn. split.
  - apply mode_fallback. frame_ops. split; [exact Hd | reflexivity].
  - frame_ops. reflexivity.
Qed.

Lemma safeWatch_transition (w : World) (p : string) (cb : Callback)
    (native : NativeOutcome) :
  mode w = Native → native ≠ WatchOk →
  mode (safeWatch p cb native w).1 = Fallback
  ∧ localStorage (safeWatch p cb native w).1 = writeFlag (localStorage w).
Proof.
  intros [Hd Hf]%mode_native Hn. unfold safeWatch. rewrite Hd. cbn. rewrite Hf.
  destruct native; [contradiction| |]; cbn -[failover];
    match goal with
    | |- context [failover p cb ?w'] =>
        destruct (failover_result p cb w' Hd) as [Hm Hls]
    end;
    (split; [exact Hm | rewrite Hls; reflexivity]).
Qed.

Lemma boot_mode (ls : option Storage) (win : option (list (string * nat))) :
  tryLoadFallbackState ls = true → mode (boot ls win) = Fallback.
Proof. intros H. unfold mode, boot. cbn. rewrite H. reflexivity. Qed.

(** C4 (as amended). A failed native registration moves the coordinator from
    Native to Fallback and writes the flag to local storage (the stored flag
    reads as set afterwards wherever the host lets it be read and written).
    Whatever is done next, the in-memory flag stays set and the mode is never
    Native again; the stored flag stays set, so a coordinator booted from that
    storage starts in Fallback; and every later registration in Fallback
    mode, for any pattern, returns the polling handle with the shared poll
    running, without attempting the native primitive or opening a watcher. *)
Theorem fallback_is_sticky (w : World) (p : string) (cb : Callback)
    (native : NativeOutcome)
    (Hmode : mode w = Native) (Hfail : native ≠ WatchOk) :
  let w1 := (safeWatch p cb native w).1 in
  mode w1 = Fallback
  ∧ localStorage w1 = writeFlag (localStorage w)
  ∧ (storage_usable (localStorage w) → persistedFlag w1 = true)
  ∧ ∀ ops : list Op,
      let w2 := run ops w1 in
      fallbackEnabled (state w2) = true
      ∧ mode w2 ≠ Native
      ∧ (storage_usable (localStorage w) →
         persistedFlag w2 = true
         ∧ ∀ win, mode (boot (localStorage w2) win) = Fallback)
      ∧ (∀ p' cb' native',
           mode w2 = Fallback →
           let r := safeWatch p' cb' native' w2 in
           r.2 = Ok (FallbackHandle p' cb')
           ∧ Forall (λ e, is_native_attempt e = false) (emitted w2 r.1)
           ∧ openWatchers r.1 = openWatchers w2
           ∧ is_Some (pollingInterval (state r.1))
           ∧ (∃ cbs, callbacks (state r.1) !! p' = Some cbs ∧ cb' ∈ cbs))
      ∧ (∀ cb' ok,
           Forall (λ e, is_native_attempt e = false)
             (emitted w2 (safeWatchPaths cb' ok w2).1)).
Proof.
  cbv zeta.
  destruct (safeWatch_transition w p cb native Hmode Hfail) as [Hm Hls].
  set (w1 := (safeWatch p cb native w).1) in *.
  assert (Hf1 : fallbackEnabled (state w1) = true)
    by (apply mode_fallback in Hm; tauto).
  assert (Hp1 : storage_usable (localStorage w) → persistedFlag w1 = true).
  { intros Hu. unfold persistedFlag. rewrite Hls. apply writeFlag_sets, Hu. }
  split; [exact Hm|]. split; [exact Hls|]. split; [exact Hp1|].
  intros ops.
  assert (Hf2 : fallbackEnabled (state (run ops w1)) = true)
    by (apply run_fallback, Hf1).
  split; [exact Hf2|]. split.
  { intros [_ Hn]%mode_native. congruence. }
  split.
  { intros Hu.
    assert (Hp2 : persistedFlag (run ops w1) = true)
      by (apply run_persisted, Hp1, Hu).
    split; [exact Hp2|]. intros win. apply boot_mode. exact Hp2. }
  split.
  { intros p' cb' native' Hm2. apply safeWatch_in_fallback. exact Hm2. }
  intros cb' ok. apply safeWatchPaths_in_fallback. exact Hf2.
Qed.

(** A host whose local storage is empty and works. *)
Definition emptyStorage : Storage :=
  {| items := ∅; getItem_throws := false; setItem_throws := false |}.

Lemma fallback_is_sticky_witness :
  mode (boot (Some emptyStorage) None) = Native
  ∧ WatchRejects ≠ WatchOk
  ∧ mode (safeWatch "src/**" 1 WatchRejects (boot (Some emptyStorage) None)).1
    = Fallback.
Proof.
  assert (Hm : mode (boot (Some emptyStorage) None) = Native) by reflexivity.
  assert (Hn : WatchRejects ≠ WatchOk) by discriminate.
  split; [exact Hm|]. split; [exact Hn|].
  exact (proj1 (fallback_is_sticky _ "src/**" 1 WatchRejects Hm Hn)).
Defined.

(** C4 (as stated) fails where the host offers no local storage, or one that
    refuses writes: the coordinator turns to Fallback, nothing is persisted,
    and a coordinator booted afterwards starts in Native mode again. *)
Lemma fallback_not_persisted_without_storage :
  let readonly :=
    Some {| items := ∅; getItem_throws := false; setItem_throws := true |} in
  let w1 := (safeWatch "src/**" 1 WatchRejects (boot None None)).1 in
  let w1' := (safeWatch "src/**" 1 WatchRejects (boot readonly None)).1 in
  mode (boot None None) = Native
  ∧ mode w1 = Fallback
  ∧ persistedFlag w1 = false
  ∧ mode (boot (localStorage w1) None) = Native
  ∧ mode (boot readonly None) = Native
  ∧ mode w1' = Fallback
  ∧ persistedFlag w1' = false
  ∧ mode (boot (localStorage w1') None) = Native.
Proof. cbv zeta. repeat split; vm_compute; reflexivity. Qed.

(** *** Native registrations that share a pattern *)

Lemma safeWatch_native (w : World) (p : string) (cb : Callback) :
  mode w = Native →
  (safeWatch p cb WatchOk w).2 = Ok (NativeHandle (nextId w) p cb)
  ∧ mode (safeWatch p cb WatchOk w).1 = Native
  ∧ nextId (safeWatch p cb WatchOk w).1 = S (nextId w)
  ∧ callbacks (state (safeWatch p cb WatchOk w).1)
    = <[p := set_add cb (default [] (callbacks (state w) !! p))]>
        (callbacks (state w))
  ∧ openWatchers (safeWatch p cb WatchOk w).1 = <[nextId w := p]> (openWatchers w)
  ∧ watchingPaths (state (safeWatch p cb WatchOk w).1)
    = {[p]} ∪ watchingPaths (state w).
Proof.
  intros [Hd Hf]%mode_native. unfold safeWatch. rewrite Hd. cbn. rewrite Hf. cbn.
  repeat split. apply mode_native. cbn. auto.
Qed.

Lemma close_native (w : World) (wid : WatcherId) (p : string) (cb : Callback) :
  mode (close (NativeHandle wid p cb) true w) = mode w
  ∧ callbacks (state (close (NativeHandle wid p cb) true w))
    = callbacks (removeCallback p cb (state w))
  ∧ openWatchers (close (NativeHandle wid p cb) true w) = delete wid (openWatchers w)
  ∧ watchingPaths (state (close (NativeHandle wid p cb) true w))
    = watchingPaths (state w) ∖ {[p]}.
Proof.
  cbn. repeat split.
  - unfold mode. cbn.
    destruct (removeCallback_fields p cb
                (set_watchingPaths (watchingPaths (state w) ∖ {[p]}) (state w)))
      as (-> & -> & _).
    reflexivity.
  - unfold removeCallback. cbn. destruct (callbacks (state w) !! p); [|reflexivity].
    case_bool_decide; reflexivity.
  - unfold removeCallback. cbn. destruct (callbacks (state w) !! p); [|reflexivity].
    case_bool_decide; reflexivity.
Qed.

Lemma set_delete_first (a b : nat) : a ≠ b → set_delete a [a; b] = [b].
Proof.
  intros H. unfold set_delete. cbn.
  rewrite decide_False by (intros Hc; apply Hc; reflexivity).
  cbn. rewrite decide_True by (intros Hc; apply H; symmetry; exact Hc).
  reflexivity.
Qed.

Lemma set_delete_second (a b : nat) : a ≠ b → set_delete b [a; b] = [a].
Proof.
  intros H. unfold set_delete. cbn.
  rewrite decide_True by exact H.
  cbn. rewrite decide_False by (intros Hc; apply Hc; reflexivity).
  reflexivity.
Qed.

Lemma set_delete_only (a : nat) : set_delete a [a] = [].
Proof.
  unfold set_delete. cbn.
  rewrite decide_False by (intros Hc; apply Hc; reflexivity). reflexivity.
Qed.

Lemma set_add_second (a b : nat) : a ≠ b → set_add b [a] = [a; b].
Proof.
  intros H. unfold set_add. rewrite bool_decide_eq_false_2; [reflexivity|].
  intros Hin. apply list_elem_of_singleton in Hin. congruence.
Qed.

(** A change on an open watcher whose pattern has the single callback [cb]
    invokes [cb], whether or not it throws. *)
Lemma nativeChange_single (throws : Callback → bool) (w : World)
    (wid : WatcherId) (p : string) (cb : Callback) :
  openWatchers w !! wid = Some p →
  callbacks (state w) !! p = Some [cb] →
  emitted w (nativeChange throws wid w).1 = [EvInvoke cb].
Proof.
  intros Hw Hc. unfold nativeChange. rewrite Hw, Hc. cbn.
  apply emitted_app. destruct (throws cb); reflexivity.
Qed.

(** The callbacks of [p] after two registrations on a pattern that had none. *)
Lemma callbacks_after_two (w : World) (p : string) (cb1 cb2 : Callback) :
  mode w = Native → callbacks (state w) !! p = None → cb1 ≠ cb2 →
  callbacks (state (safeWatch p cb2 WatchOk (safeWatch p cb1 WatchOk w).1).1) !! p
  = Some [cb1; cb2].
Proof.
  intros Hm Hfresh Hne.
  destruct (safeWatch_native w p cb1 Hm) as (_ & Hm1 & _ & Hc1 & _).
  destruct (safeWatch_native _ p cb2 Hm1) as (_ & _ & _ & Hc2 & _).
  rewrite Hc2, Hc1, !lookup_insert_eq, Hfresh.
  change (set_add cb1 (default [] None)) with [cb1].
  change (default [] (Some [cb1])) with [cb1].
  rewrite set_add_second by exact Hne. reflexivity.
Qed.

Lemma removeCallback_lookup (p : string) (cb : Callback) (s : WatcherState)
    (cbs : list Callback) :
  callbacks s !! p = Some cbs →
  callbacks (removeCallback p cb s) !! p
  = if bool_decide (length (set_delete cb cbs) = 0) then None
    else Some (set_delete cb cbs).
Proof.
  intros H. unfold removeCallback. rewrite H.
  case_bool_decide; cbn; [apply lookup_delete_eq | apply lookup_insert_eq].
Qed.

(** C6 (as amended). In Native mode, on a pattern without callbacks, two
    registrations of different callbacks open one native watcher each.  After
    either registration is closed, the other callback is the pattern's only
    one, its own watcher is still open, and a change reported by that watcher
    invokes it.  The closed registration's watcher is released at once, and
    the pattern leaves [watchingPaths], while the pattern's callback set is
    still non-empty; the pattern's entry in the callback map goes only when the
    second registration is closed too. *)
Theorem remaining_callback_still_notified (w : World) (p : string)
    (cb1 cb2 : Callback) (throws : Callback → bool)
    (Hmode : mode w = Native)
    (Hfresh : callbacks (state w) !! p = None)
    (Hne : cb1 ≠ cb2) :
  let r1 := safeWatch p cb1 WatchOk w in
  let r2 := safeWatch p cb2 WatchOk r1.1 in
  let h1 := NativeHandle (nextId w) p cb1 in
  let h2 := NativeHandle (S (nextId w)) p cb2 in
  let after1 := close h1 true r2.1 in
  let after2 := close h2 true r2.1 in
  r1.2 = Ok h1 ∧ r2.2 = Ok h2
  ∧ (callbacks (state after1) !! p = Some [cb2]
     ∧ openWatchers after1 !! S (nextId w) = Some p
     ∧ emitted after1 (nativeChange throws (S (nextId w)) after1).1 = [EvInvoke cb2])
  ∧ (callbacks (state after2) !! p = Some [cb1]
     ∧ openWatchers after2 !! nextId w = Some p
     ∧ emitted after2 (nativeChange throws (nextId w) after2).1 = [EvInvoke cb1])
  ∧ (openWatchers after1 !! nextId w = None
     ∧ p ∉ watchingPaths (state after1))
  ∧ (callbacks (state (close h2 true after1)) !! p = None
     ∧ openWatchers (close h2 true after1) !! S (nextId w) = None).
Proof.
  cbv zeta.
  destruct (safeWatch_native w p cb1 Hmode) as (Hh1 & Hm1 & Hn1 & Hc1 & Ho1 & _).
  destruct (safeWatch_native _ p cb2 Hm1) as (Hh2 & _ & _ & _ & Ho2 & _).
  pose proof (callbacks_after_two w p cb1 cb2 Hmode Hfresh Hne) as Hboth.
  set (w2 := (safeWatch p cb2 WatchOk (safeWatch p cb1 WatchOk w).1).1) in *.
  rewrite Hn1 in Hh2, Ho2. rewrite Ho1 in Ho2.
  assert (Hneq : nextId w ≠ S (nextId w)) by lia.
  (* closing the first registration *)
  destruct (close_native w2 (nextId w) p cb1) as (_ & Hca & Hoa & Hwa).
  assert (Ha : callbacks (state (close (NativeHandle (nextId w) p cb1) true w2)) !! p
               = Some [cb2]).
  { rewrite Hca, (removeCallback_lookup _ _ _ _ Hboth).
    rewrite set_delete_first by exact Hne. reflexivity. }
  assert (Hwa2 : openWatchers (close (NativeHandle (nextId w) p cb1) true w2)
                 !! S (nextId w) = Some p).
  { rewrite Hoa, lookup_delete_ne by exact Hneq. rewrite Ho2.
    apply lookup_insert_eq. }
  (* closing the second registration instead *)
  destruct (close_native w2 (S (nextId w)) p cb2) as (_ & Hcb & Hob & _).
  assert (Hb : callbacks (state (close (NativeHandle (S (nextId w)) p cb2) true w2))
               !! p = Some [cb1]).
  { rewrite Hcb, (removeCallback_lookup _ _ _ _ Hboth).
    rewrite set_delete_second by exact Hne. reflexivity. }
  assert (Hwb : openWatchers (close (NativeHandle (S (nextId w)) p cb2) true w2)
                !! nextId w = Some p).
  { rewrite Hob, lookup_delete_ne by (intros Hc; apply Hneq; symmetry; exact Hc).
    rewrite Ho2, lookup_insert_ne by (intros Hc; apply Hneq; symmetry; exact Hc).
    apply lookup_insert_eq. }
  split; [exact Hh1|]. split; [exact Hh2|].
  split.
  { split; [exact Ha|]. split; [exact Hwa2|].
    apply (nativeChange_single throws _ _ p); assumption. }
  split.
  { split; [exact Hb|]. split; [exact Hwb|].
    apply (nativeChange_single throws _ _ p); assumption. }
  split.
  { split; [rewrite Hoa; apply lookup_delete_eq|].
    rewrite Hwa. intros [_ Hin]%elem_of_difference.
    apply Hin, elem_of_singleton. reflexivity. }
  set (w3 := close (NativeHandle (nextId w) p cb1) true w2) in *.
  destruct (close_native w3 (S (nextId w)) p cb2) as (_ & Hcc & Hoc & _).
  split.
  - rewrite Hcc, (removeCallback_lookup _ _ _ _ Ha), set_delete_only. reflexivity.
  - rewrite Hoc. apply lookup_delete_eq.
Qed.

Lemma remaining_callback_still_notified_witness :
  let w := boot None None in
  mode w = Native
  ∧ callbacks (state w) !! "src/**" = None
  ∧ 1 ≠ 2
  ∧ emitted
      (close (NativeHandle 0 "src/**" 1) true
         (safeWatch "src/**" 2 WatchOk (safeWatch "src/**" 1 WatchOk w).1).1)
      (nativeChange (λ _, false) 1
         (close (NativeHandle 0 "src/**" 1) true
            (safeWatch "src/**" 2 WatchOk (safeWatch "src/**" 1 WatchOk w).1).1)).1
    = [EvInvoke 2].
Proof.
  cbv zeta.
  assert (Hm : mode (boot None None) = Native) by reflexivity.
  assert (Hf : callbacks (state (boot None None)) !! "src/**" = None)
    by reflexivity.
  assert (Hne : 1 ≠ 2) by lia.
  split; [exact Hm|]. split; [exact Hf|]. split; [exact Hne|].
  exact (proj2 (proj2 (proj1 (proj2 (proj2
    (remaining_callback_still_notified (boot None None) "src/**" 1 2
       (λ _, false) Hm Hf Hne)))))).
Defined.

(** C6 (as stated) fails: closing the first of two registrations on "src/**"
    releases a native watcher of that pattern, and drops the pattern from
    [watchingPaths], although the pattern's callback set still holds the
    second callback. *)
Lemma native_handle_released_while_callbacks_remain :
  let w2 :=
    (safeWatch "src/**" 2 WatchOk
       (safeWatch "src/**" 1 WatchOk (boot None None)).1).1 in
  let w3 := close (NativeHandle 0 "src/**" 1) true w2 in
  mode w2 = Native
  ∧ openWatchers w2 !! 0 = Some "src/**"
  ∧ openWatchers w3 !! 0 = None
  ∧ emitted w2 w3 = [EvWatcherClose 0 true]
  ∧ bool_decide ("src/**" ∈ watchingPaths (state w2)) = true
  ∧ bool_decide ("src/**" ∈ watchingPaths (state w3)) = false
  ∧ callbacks (state w3) !! "src/**" = Some [2].
Proof. cbv zeta. repeat split; vm_compute; reflexivity. Qed.

(** *** The shared poll timer against the callback map *)

(** The close handle of a registration made in Fallback mode never touches
    the shared poll timer. *)
Lemma fallback_close_keeps_timer (w : World) (p : string) (cb : Callback)
    (ok : bool) :
  pollingInterval (state (close (FallbackHandle p cb) ok w))
  = pollingInterval (state w)
  ∧ activeIntervals (close (FallbackHandle p cb) ok w) = activeIntervals w
  ∧ emitted w (close (FallbackHandle p cb) ok w) = [].
Proof.
  cbn. split; [apply removeCallback_fields|]. split; [reflexivity|].
  apply emitted_app. rewrite app_nil_r. reflexivity.
Qed.

(** The close handle of the registration that failed over does stop it once
    the callback map is empty. *)
Lemma failover_close_stops_timer (w : World) (p : string) (cb : Callback)
    (ok : bool) :
  callbacks (state (close (FailoverHandle p cb) ok w)) = ∅ →
  pollingInterval (state (close (FailoverHandle p cb) ok w)) = None.
Proof.
  cbn [close]. case_bool_decide as Hsize.
  - intros _. apply stopPolling_polling.
  - intros Hempty. exfalso. apply Hsize. rewrite Hempty. apply map_size_empty.
Qed.

(** A host whose storage already holds the fallback flag. *)
Definition flaggedStorage : Storage :=
  {| items := {[FALLBACK_KEY := "true"]};
     getItem_throws := false; setItem_throws := false |}.

(** C5, evaluated on the code. A coordinator booted with the stored flag
    registers one callback and closes the handle it got: the invariant holds
    before and after the registration, and after the close the callback map
    is empty while the shared poll timer is still set and still scheduled,
    so the invariant is broken. *)
Theorem fallback_close_leaves_poll_running :
  let w0 := boot (Some flaggedStorage) None in
  let r := safeWatch "src/**" 1 WatchOk w0 in
  let w2 := close (FallbackHandle "src/**" 1) true r.1 in
  mode w0 = Fallback
  ∧ poll_invariant w0
  ∧ r.2 = Ok (FallbackHandle "src/**" 1)
  ∧ poll_invariant r.1
  ∧ mode w2 = Fallback
  ∧ callbacks (state w2) = ∅
  ∧ pollingInterval (state w2) = Some 0
  ∧ activeIntervals w2 !! 0 = Some SharedPoll
  ∧ ¬ poll_invariant w2.
Proof.
  cbv zeta.
  assert (Hcb1 : callbacks (state (safeWatch "src/**" 1 WatchOk
                   (boot (Some flaggedStorage) None)).1) !! "src/**" = Some [1])
    by (vm_compute; reflexivity).
  assert (Hcb2 : callbacks (state (close (FallbackHandle "src/**" 1) true
                   (safeWatch "src/**" 1 WatchOk
                      (boot (Some flaggedStorage) None)).1)) = ∅)
    by (vm_compute; reflexivity).
  assert (Hp2 : pollingInterval (state (close (FallbackHandle "src/**" 1) true
                   (safeWatch "src/**" 1 WatchOk
                      (boot (Some flaggedStorage) None)).1)) = Some 0)
    by (vm_compute; reflexivity).
  split; [reflexivity|]. split.
  { unfold poll_invariant. split.
    - intros [t Ht]. discriminate Ht.
    - intros [_ Hne]. exfalso. apply Hne. reflexivity. }
  split; [reflexivity|]. split.
  { unfold poll_invariant. split.
    - intros _. split; [vm_compute; reflexivity|].
      intros Hempty. rewrite Hempty in Hcb1. discriminate Hcb1.
    - intros _. exists 0. vm_compute. reflexivity. }
  split; [vm_compute; reflexivity|].
  split; [exact Hcb2|]. split; [exact Hp2|].
  split; [vm_compute; reflexivity|].
  unfold poll_invariant. intros [Hto _].
  destruct Hto as [_ Hne]; [rewrite Hp2; eauto|].
  apply Hne. exact Hcb2.
Qed.

(** *** Registration after disposal *)

Lemma safeWatch_disposed (w : World) (p : string) (cb : Callback)
    (native : NativeOutcome) :
  mode w = Disposed →
  safeWatch p cb native w
  = (w, Throw "Cannot watch files with disposed file watcher").
Proof. intros Hd%mode_disposed. unfold safeWatch. rewrite Hd. reflexivity. Qed.

(** C9, evaluated on the code. [safeWatch] refuses a disposed coordinator,
    but [safeWatchPaths] never fails, in any state: on a disposed coordinator
    in Native mode it subscribes natively and hands out the native handle,
    and with the fallback flag set it schedules a new interval and records it
    in [individualIntervals] after [disposeFileWatcher] has emptied that
    set. *)
Theorem safeWatchPaths_ignores_disposed :
  (∀ (w : World) (cb : Callback) (native_ok : bool),
     ∃ h, (safeWatchPaths cb native_ok w).2 = Ok h)
  ∧ (let w := disposeFileWatcher (boot None None) in
     mode w = Disposed
     ∧ safeWatch "src/**" 1 WatchOk w
       = (w, Throw "Cannot watch files with disposed file watcher")
     ∧ (safeWatchPaths 1 true w).2 = Ok (NativePathsHandle 0)
     ∧ emitted w (safeWatchPaths 1 true w).1 = [EvNativeWatchPaths true])
  ∧ (let w := disposeFileWatcher (boot (Some flaggedStorage) None) in
     mode w = Disposed
     ∧ individualIntervals (state w) = []
     ∧ (safeWatchPaths 1 true w).2 = Ok (PathsPollHandle 0)
     ∧ emitted w (safeWatchPaths 1 true w).1 = [EvSetInterval 0]
     ∧ individualIntervals (state (safeWatchPaths 1 true w).1) = [0]
     ∧ activeIntervals (safeWatchPaths 1 true w).1 !! 0 = Some (PathsPoll 1)).
Proof.
  split.
  { intros w cb native_ok. unfold safeWatchPaths, pollPaths, setInterval.
    destruct (fallbackEnabled (state w)); [cbn; eauto|].
    destruct native_ok; cbn; eauto. }
  split; cbv zeta; repeat split; vm_compute; reflexivity.
Qed.

(** *** Disposal *)

Lemma disposeFileWatcher_disposed (w : World) :
  disposed (state (disposeFileWatcher w)) = true.
Proof.
  unfold disposeFileWatcher. destruct (disposed (state w)) eqn:Hd; [exact Hd|].
  cbn. rewrite (foldl_frame _ (λ w, disposed (state w))) by reflexivity.
  cbn. rewrite (foldl_frame _ (λ w, disposed (state w))) by reflexivity.
  rewrite stopPolling_disposed. reflexivity.
Qed.

Lemma disposeFileWatcher_again (w : World) :
  disposed (state w) = true → disposeFileWatcher w = w.
Proof. intros Hd. unfold disposeFileWatcher. rewrite Hd. reflexivity. Qed.

(** What the first call leaves behind: nothing a second call could release. *)
Lemma disposeFileWatcher_clears (w : World) :
  disposed (state w) = false →
  pollingInterval (state (disposeFileWatcher w)) = None
  ∧ individualIntervals (state (disposeFileWatcher w)) = []
  ∧ callbacks (state (disposeFileWatcher w)) = ∅
  ∧ watchingPaths (state (disposeFileWatcher w)) = ∅
  ∧ cleanupListeners (state (disposeFileWatcher w)) = [].
Proof.
  intros Hd. unfold disposeFileWatcher. rewrite Hd. cbn.
  rewrite (foldl_frame _ state) by reflexivity. cbn.
  split; [|repeat split; reflexivity].
  rewrite (foldl_frame _ state) by reflexivity.
  apply stopPolling_polling.
Qed.

Lemma exec_disposed (o : Op) (w : World) :
  disposed (state w) = true → disposed (state (exec o w)) = true.
Proof.
  intros H. destruct o as [p cb native|cb ok|h ok| |t|throws wid]; cbn [exec].
  - unfold safeWatch. rewrite H. exact H.
  - unfold safeWatchPaths, pollPaths, setInterval.
    destruct (fallbackEnabled (state w)); frame_ops; [exact H|].
    destruct ok; frame_ops; exact H.
  - destruct h as [p cb|wid p cb|p cb|t|i]; cbn [close].
    + cbn. rewrite (proj1 (proj2 (removeCallback_fields _ _ _))). exact H.
    + destruct ok; cbn; [|exact H].
      rewrite (proj1 (proj2 (removeCallback_fields _ _ _))). exact H.
    + case_bool_decide; frame_ops;
        rewrite (proj1 (proj2 (removeCallback_fields _ _ _))); exact H.
    + exact H.
    + exact H.
  - rewrite disposeFileWatcher_again by exact H. exact H.
  - unfold tick. destruct (activeIntervals w !! t) as [[|cb]|]; [| |exact H].
    + rewrite H. frame_ops. exact H.
    + rewrite H. exact H.
  - rewrite (proj1 (nativeChange_frame _ _ _)). exact H.
Qed.

Lemma run_disposed (ops : list Op) (w : World) :
  disposed (state w) = true → disposed (state (run ops w)) = true.
Proof.
  revert w; induction ops as [|o ops IH]; intros w H; [exact H|].
  apply IH, exec_disposed, H.
Qed.

(** No later registration through [safeWatch] succeeds. *)
Lemma safeWatch_after_dispose (ops : list Op) (w : World) (p : string)
    (cb : Callback) (native : NativeOutcome) :
  mode w = Disposed →
  (safeWatch p cb native (run ops w)).2
  = Throw "Cannot watch files with disposed file watcher".
Proof.
  intros Hd%mode_disposed.
  rewrite safeWatch_disposed; [reflexivity|].
  apply mode_disposed, run_disposed, Hd.
Qed.

(** *** Where the timer invariant does hold *)

Lemma safeWatch_keeps_invariant (w : World) (p : string) (cb : Callback)
    (native : NativeOutcome) :
  poll_invariant w → poll_invariant (safeWatch p cb native w).1.
Proof.
  intros Hinv. destruct (mode w) eqn:Hm.
  - (* Native *)
    assert (Hnone : pollingInterval (state w) = None).
    { destruct (pollingInterval (state w)) eqn:E; [|reflexivity].
      destruct Hinv as [Hto _]. destruct Hto as [Hbad _]; [eauto|].
      rewrite Hm in Hbad. discriminate. }
    assert (Hcase : native = WatchOk ∨ native ≠ WatchOk)
      by (destruct native; [left; reflexivity | right; discriminate ..]).
    destruct Hcase as [->|Hfail].
    + destruct (safeWatch_native w p cb Hm) as (_ & Hm1 & _).
      unfold poll_invariant. rewrite Hm1. split.
      * intros Hs. exfalso. revert Hs.
        apply mode_native in Hm as [Hd Hf].
        unfold safeWatch. rewrite Hd. cbn. rewrite Hf. cbn. rewrite Hnone.
        intros [t Ht]. discriminate.
      * intros [Hbad _]. discriminate.
    + destruct (safeWatch_transition w p cb native Hm Hfail) as [Hm1 _].
      unfold poll_invariant. rewrite Hm1.
      apply mode_native in Hm as [Hd Hf].
      unfold safeWatch, failover in *. rewrite Hd in *. cbn in *. rewrite Hf in *.
      destruct native; [contradiction| |]; cbn in *.
      * split.
        -- intros _. split; [reflexivity|].
           rewrite ensurePollingActive_callbacks, saveFallbackState_state.
           cbn. apply insert_non_empty.
        -- intros _. apply ensurePollingActive_polling. frame_ops. exact Hd.
      * split.
        -- intros _. split; [reflexivity|].
           rewrite ensurePollingActive_callbacks, saveFallbackState_state.
           cbn. apply insert_non_empty.
        -- intros _. apply ensurePollingActive_polling. frame_ops. exact Hd.
  - (* Fallback *)
    destruct (safeWatch_in_fallback w p cb native Hm) as (_ & _ & _ & Hs & Hc).
    unfold poll_invariant. split.
    + intros _. split.
      * apply mode_fallback in Hm as [Hd Hf]. apply mode_fallback.
        unfold safeWatch. rewrite Hd. cbn. rewrite Hf. frame_ops. auto.
      * destruct Hc as (cbs & Hl & _). intros Hempty.
        rewrite Hempty, lookup_empty in Hl. discriminate.
    + intros _. exact Hs.
  - (* Disposed *)
    rewrite safeWatch_disposed by exact Hm. exact Hinv.
Qed.

Lemma removeCallback_nonempty (p : string) (cb : Callback) (s : WatcherState) :
  callbacks (removeCallback p cb s) ≠ ∅ → callbacks s ≠ ∅.
Proof.
  unfold removeCallback. destruct (callbacks s !! p) as [cbs|] eqn:E; [|auto].
  intros _ Hempty. rewrite Hempty, lookup_empty in E. discriminate.
Qed.

(** The close handle of the failover path keeps the invariant. *)
Lemma failover_close_keeps_invariant (w : World) (p : string) (cb : Callback)
    (ok : bool) :
  poll_invariant w → poll_invariant (close (FailoverHandle p cb) ok w).
Proof.
  intros [Hto Hfrom]. unfold poll_invariant, mode in *. cbn [close].
  destruct (removeCallback_fields p cb (state w)) as (Hf & Hd & Hp).
  case_bool_decide as Hsize.
  - rewrite stopPolling_polling, stopPolling_disposed, stopPolling_fallback,
      stopPolling_callbacks.
    apply map_size_empty_iff in Hsize. split.
    + intros [t Ht]. discriminate.
    + intros [_ Hne]. contradiction.
  - cbn. rewrite Hf, Hd, Hp. split.
    + intros Hs. split; [apply Hto, Hs|].
      intros Hempty. apply Hsize. cbn in *. rewrite Hempty.
      apply map_size_empty.
    + intros [Hm Hne]. apply Hfrom. split; [exact Hm|].
      apply (removeCallback_nonempty p cb). exact Hne.
Qed.

End FileWatcherProofs.

(* ===================================================================== *)
(** ** Properties of the terminal-process registry *)
(* ===================================================================== *)

Module TerminalStoreProofs.
Import TerminalStore.

Lemma detachAllTerminals_disposed (s : Store) :
  disposed (detachAllTerminals s).1.1 = disposed s.
Proof.
  unfold detachAllTerminals. destruct (allSettled _); reflexivity.
Qed.

Lemma dispose_disposed (s : Store) : disposed (dispose s).1.1 = true.
Proof.
  unfold dispose. destruct (disposed s) eqn:Hd; [exact Hd|].
  pose proof (detachAllTerminals_disposed (set_disposed true s)) as H.
  destruct (detachAllTerminals (set_disposed true s)) as [[s' evs] c].
  cbn in H. destruct c; [|exact H|exact H].
  destruct (has_dispose (boltTerminal s')); [|exact H].
  destruct (bolt_dispose (boltTerminal s')); exact H.
Qed.

Lemma dispose_again (s : Store) :
  disposed s = true → dispose s = (s, [], Completed).
Proof. intros Hd. unfold dispose. rewrite Hd. reflexivity. Qed.

(** *** Bulk teardown *)

Lemma requested_kills (l : list Entry) :
  List.filter is_kill (concat (requestKill <$> l))
  = (λ e, EvKill (pid (process e))) <$> List.filter live l.
Proof.
  induction l as [|e l IH]; [reflexivity|].
  cbn. rewrite List.filter_app, IH. unfold requestKill, live.
  destruct (killed (process e)); [reflexivity|].
  destruct (kill (process e)); reflexivity.
Qed.

Lemma settled_no_kills (l : list Entry) :
  List.filter is_kill (concat (snd <$> (settleKill <$> l))) = [].
Proof.
  induction l as [|e l IH]; [reflexivity|].
  cbn. rewrite List.filter_app, IH. unfold settleKill.
  destruct (killed (process e)); [reflexivity|].
  destruct (kill (process e)); reflexivity.
Qed.

(** Every record's kill settles unless the record is already killed. *)
Definition kills_settle (l : list Entry) : Prop :=
  ∀ e, e ∈ l → killed (process e) = false → kill (process e) ≠ NeverSettles.

Lemma allSettled_completed (l : list Entry) :
  kills_settle l → allSettled (fst <$> (settleKill <$> l)) = Completed.
Proof.
  intros H. unfold allSettled.
  replace (forallb is_settled (fst <$> (settleKill <$> l))) with true;
    [reflexivity|].
  symmetry. induction l as [|e l IH]; [reflexivity|].
  cbn. rewrite IH by (intros e' He'; apply H; right; exact He').
  rewrite andb_true_r. unfold settleKill.
  destruct (killed (process e)) eqn:Hk; [reflexivity|].
  specialize (H e (list_elem_of_here _ _) Hk).
  destruct (kill (process e)); try reflexivity. contradiction.
Qed.

Lemma allSettled_pending (l : list Entry) (e : Entry) :
  e ∈ l → killed (process e) = false → kill (process e) = NeverSettles →
  allSettled (fst <$> (settleKill <$> l)) = Pending.
Proof.
  intros Hin Hk Hhang. unfold allSettled.
  replace (forallb is_settled (fst <$> (settleKill <$> l))) with false;
    [reflexivity|].
  symmetry. induction l as [|x l IH]; [apply elem_of_nil in Hin; contradiction|].
  cbn. apply elem_of_cons in Hin as [<-|Hin].
  - unfold settleKill. rewrite Hk, Hhang. reflexivity.
  - rewrite IH by exact Hin. apply andb_false_r.
Qed.

Lemma allSettled_never_rejects (cs : list Completion) : allSettled cs ≠ Rejected.
Proof. unfold allSettled. destruct (forallb is_settled cs); discriminate. Qed.

(** Either every kill settles or one of them hangs. *)
Lemma settle_or_hang (l : list Entry) :
  kills_settle l
  ∨ ∃ e, e ∈ l ∧ killed (process e) = false ∧ kill (process e) = NeverSettles.
Proof.
  induction l as [|x l [IH|(e & He & Hk & Hh)]].
  - left. intros e He. apply elem_of_nil in He. contradiction.
  - destruct (killed (process x)) eqn:Hk.
    + left. intros e He Hke. apply elem_of_cons in He as [->|He];
        [congruence | exact (IH e He Hke)].
    + destruct (kill (process x)) eqn:Hx;
        try (left; intros e He Hke; apply elem_of_cons in He as [->|He];
             [rewrite Hx; discriminate | exact (IH e He Hke)]).
      right. exists x. split; [left|]. split; assumption.
  - right. exists e. split; [right; exact He|]. split; assumption.
Qed.

(** One warning for each kill that fails, none otherwise. *)
Lemma warnings_count (l : list Entry) :
  length (List.filter is_warn
            (concat (requestKill <$> l) ++ concat (snd <$> (settleKill <$> l))))
  = length (List.filter fails l).
Proof.
  rewrite List.filter_app, length_app.
  induction l as [|e l IH]; [reflexivity|].
  cbn [fmap list_fmap concat List.filter].
  rewrite !List.filter_app, !length_app.
  assert (He : (length (List.filter is_warn (requestKill e))
                + length (List.filter is_warn (settleKill e).2))%nat
               = if fails e then 1%nat else 0%nat).
  { unfold requestKill, settleKill, fails, live.
    destruct (killed (process e)); [reflexivity|].
    destruct (kill (process e)); reflexivity. }
  destruct (fails e); cbn [length]; lia.
Qed.

(** Three live terminals; killing the second one throws. *)
Definition threeTerminals : Store :=
  {| terminals :=
       [ {| terminal := 1; process := {| pid := 11; killed := false; kill := Resolves |} |};
         {| terminal := 2; process := {| pid := 12; killed := false; kill := Rejects |} |};
         {| terminal := 3; process := {| pid := 13; killed := false; kill := Resolves |} |} ];
     boltTerminal := {| has_dispose := true; bolt_dispose := Resolves |};
     disposed := false |}.

(** The same three, with a second kill that throws at the call. *)
Definition throwingTerminals : Store :=
  {| terminals :=
       [ {| terminal := 1; process := {| pid := 11; killed := false; kill := Resolves |} |};
         {| terminal := 2; process := {| pid := 12; killed := false; kill := Throws |} |};
         {| terminal := 3; process := {| pid := 13; killed := false; kill := Resolves |} |} ];
     boltTerminal := {| has_dispose := true; bolt_dispose := Resolves |};
     disposed := false |}.

(** C8. On any registry [detachAllTerminals] calls the kill of every record
    that is not already killed, each once and in registry order, whatever
    the other kills do.  It waits for them: the call completes exactly when
    every one of these kills has settled, by resolving, rejecting or
    throwing, and is pending as long as one has not; it never rejects.  The
    registry is emptied when the call completes, failing records included,
    and is untouched while it is pending.  Each failing kill leaves one
    warning.  With three live records of which the second fails, by
    rejecting when awaited or by throwing at the call, all three are killed,
    one warning is logged, the registry is empty and the call completes. *)
Theorem detachAll_settles_and_clears (s : Store) :
  let r := detachAllTerminals s in
  List.filter is_kill r.1.2
  = (λ e, EvKill (pid (process e))) <$> List.filter live (terminals s)
  ∧ (r.2 = Completed ↔ kills_settle (terminals s))
  ∧ (r.2 = Pending
     ↔ ∃ e, e ∈ terminals s ∧ killed (process e) = false
            ∧ kill (process e) = NeverSettles)
  ∧ r.2 ≠ Rejected
  ∧ (r.2 = Completed →
     terminals r.1.1 = [] ∧ getActiveTerminalCount r.1.1 = 0)
  ∧ (r.2 = Pending → terminals r.1.1 = terminals s)
  ∧ length (List.filter is_warn r.1.2) = length (List.filter fails (terminals s))
  ∧ detachAllTerminals threeTerminals
    = (set_terminals [] threeTerminals,
       [EvKill 11; EvKill 12; EvKill 13; EvWarn "Error killing terminal process:"],
       Completed)
  ∧ detachAllTerminals throwingTerminals
    = (set_terminals [] throwingTerminals,
       [EvKill 11; EvKill 12; EvWarn "Error killing terminal process:"; EvKill 13],
       Completed).
Proof.
  cbv zeta.
  assert (Hkills : List.filter is_kill (detachAllTerminals s).1.2
            = (λ e, EvKill (pid (process e))) <$> List.filter live (terminals s)).
  { unfold detachAllTerminals.
    destruct (allSettled _); cbn [fst snd];
      rewrite List.filter_app, requested_kills, settled_no_kills;
      apply app_nil_r. }
  assert (Hwarn : length (List.filter is_warn (detachAllTerminals s).1.2)
                  = length (List.filter fails (terminals s))).
  { unfold detachAllTerminals.
    destruct (allSettled _); cbn [fst snd]; apply warnings_count. }
  split; [exact Hkills|].
  destruct (settle_or_hang (terminals s)) as [Hall|(e & He & Hk & Hh)].
  - assert (Hr : detachAllTerminals s
                 = (set_terminals [] s, (detachAllTerminals s).1.2, Completed)).
    { unfold detachAllTerminals. rewrite (allSettled_completed _ Hall).
      reflexivity. }
    rewrite Hr in *. cbn [fst snd].
    split; [split; [intros _; exact Hall | reflexivity]|].
    split.
    { split; [intros H; discriminate H|].
      intros (x & Hx & Hkx & Hhx). exfalso. exact (Hall x Hx Hkx Hhx). }
    split; [discriminate|].
    split; [intros _; split; reflexivity|].
    split; [intros H; discriminate H|].
    split; [exact Hwarn | split; reflexivity].
  - assert (Hr : detachAllTerminals s = (s, (detachAllTerminals s).1.2, Pending)).
    { unfold detachAllTerminals. rewrite (allSettled_pending _ e He Hk Hh).
      reflexivity. }
    rewrite Hr in *. cbn [fst snd].
    split.
    { split; [intros H; discriminate H|].
      intros Hall. exfalso. exact (Hall e He Hk Hh). }
    split; [split; [intros _; eauto | reflexivity]|].
    split; [discriminate|].
    split; [intros H; discriminate H|].
    split; [reflexivity|].
    split; [exact Hwarn | split; reflexivity].
Qed.

End TerminalStoreProofs.

(* ===================================================================== *)
(** ** Idempotent disposal, for both registries *)
(* ===================================================================== *)

Module DisposalProofs.

(** C7. For the watch coordinator and for the terminal store alike, the first
    [dispose] sets the disposed flag (in the store even when its teardown never
    finishes), and a second call right after it returns normally, changes
    nothing and does nothing to the environment: no timer is cleared, no
    watcher closed, no process killed, no bolt terminal disposed again. *)
Theorem dispose_twice_is_noop :
  (∀ w : FileWatcher.World,
     let w1 := FileWatcher.disposeFileWatcher w in
     FileWatcher.disposed (FileWatcher.state w1) = true
     ∧ FileWatcher.disposeFileWatcher w1 = w1
     ∧ FileWatcher.emitted w1 (FileWatcher.disposeFileWatcher w1) = [])
  ∧ (∀ s : TerminalStore.Store,
       let s1 := (TerminalStore.dispose s).1.1 in
       TerminalStore.disposed s1 = true
       ∧ TerminalStore.dispose s1 = (s1, [], TerminalStore.Completed)).
Proof.
  split.
  - intros w. cbv zeta.
    pose proof (FileWatcherProofs.disposeFileWatcher_disposed w) as Hd.
    split; [exact Hd|].
    rewrite (FileWatcherProofs.disposeFileWatcher_again _ Hd).
    split; [reflexivity|]. unfold FileWatcher.emitted. apply drop_all.
  - intros s. cbv zeta.
    pose proof (TerminalStoreProofs.dispose_disposed s) as Hd.
    split; [exact Hd|]. apply TerminalStoreProofs.dispose_again, Hd.
Qed.

End DisposalProofs.

(* ===================================================================== *)
(** ** More on the trend analyser and the report *)
(* ===================================================================== *)

Module TrendProofs.
Import MemoryMonitor MemoryMonitorProofs.

Local Open Scope Z_scope.

(** *** The regression denominator *)

(** For n samples the denominator n·Σx² − (Σx)² is n²(n−1)(n+1)/12. *)
Lemma denominator_closed_form (n : nat) :
  12 * (Z.of_nat n * sigma (map (fun x => x * x) (indices n))
        - sigma (indices n) * sigma (indices n))
  = Z.of_nat n * Z.of_nat n * (Z.of_nat n - 1) * (Z.of_nat n + 1).
Proof.
  pose proof (sigma_indices n) as Hx. pose proof (sigma_squares n) as Hxx.
  set (N := Z.of_nat n) in *.
  set (Sx := sigma (indices n)) in *.
  set (Sxx := sigma (map (fun x => x * x) (indices n))) in *.
  replace (12 * (N * Sxx - Sx * Sx))
    with (2 * N * (6 * Sxx) - 3 * ((2 * Sx) * (2 * Sx))) by ring.
  rewrite Hx, Hxx. ring.
Qed.

Lemma denominator_positive (n : nat) :
  (2 <= n)%nat ->
  0 < Z.of_nat n * sigma (map (fun x => x * x) (indices n))
      - sigma (indices n) * sigma (indices n).
Proof.
  intros Hn. pose proof (denominator_closed_form n) as H.
  assert (0 < Z.of_nat n * Z.of_nat n * (Z.of_nat n - 1) * (Z.of_nat n + 1))
    by (repeat apply Z.mul_pos_pos; lia).
  lia.
Qed.

(** *** Sums over shifted and linear values *)

Lemma sigma_map_linear (b d : Z) (xs : list Z) :
  sigma (map (fun i => b + d * i) xs) = Z.of_nat (length xs) * b + d * sigma xs.
Proof.
  induction xs as [|x xs IH]; [simpl; lia|].
  change (sigma (map (fun i => b + d * i) (x :: xs)))
    with (b + d * x + sigma (map (fun i => b + d * i) xs)).
  change (sigma (x :: xs)) with (x + sigma xs).
  rewrite IH. cbn [length]. lia.
Qed.

Lemma sigma_zip_linear (b d : Z) (xs : list Z) :
  sigma (zip_with Z.mul xs (map (fun i => b + d * i) xs))
  = b * sigma xs + d * sigma (map (fun x => x * x) xs).
Proof.
  induction xs as [|x xs IH]; [simpl; lia|].
  change (sigma (zip_with Z.mul (x :: xs) (map (fun i => b + d * i) (x :: xs))))
    with (x * (b + d * x)
          + sigma (zip_with Z.mul xs (map (fun i => b + d * i) xs))).
  change (sigma (x :: xs)) with (x + sigma xs).
  change (sigma (map (fun x => x * x) (x :: xs)))
    with (x * x + sigma (map (fun x => x * x) xs)).
  rewrite IH. lia.
Qed.

Lemma sigma_map_shift (c : Z) (ys : list Z) :
  sigma (map (Z.add c) ys) = sigma ys + Z.of_nat (length ys) * c.
Proof.
  induction ys as [|y ys IH]; [simpl; lia|].
  change (sigma (map (Z.add c) (y :: ys))) with (c + y + sigma (map (Z.add c) ys)).
  change (sigma (y :: ys)) with (y + sigma ys).
  rewrite IH. cbn [length]. lia.
Qed.

Lemma sigma_zip_shift (c : Z) (xs ys : list Z) :
  length xs = length ys ->
  sigma (zip_with Z.mul xs (map (Z.add c) ys))
  = sigma (zip_with Z.mul xs ys) + c * sigma xs.
Proof.
  revert ys; induction xs as [|x xs IH]; intros [|y ys] Hlen;
    try discriminate; [simpl; lia|].
  change (sigma (zip_with Z.mul (x :: xs) (map (Z.add c) (y :: ys))))
    with (x * (c + y) + sigma (zip_with Z.mul xs (map (Z.add c) ys))).
  change (sigma (zip_with Z.mul (x :: xs) (y :: ys)))
    with (x * y + sigma (zip_with Z.mul xs ys)).
  change (sigma (x :: xs)) with (x + sigma xs).
  rewrite IH by (simpl in Hlen; lia). lia.
Qed.

Lemma length_indices (n : nat) : length (indices n) = n.
Proof. unfold indices. rewrite length_map. apply length_seq. Qed.

(** [n] readings that start at [b] and grow by [d] per sample. *)
Definition progression (b d : Z) (n : nat) : list Z :=
  map (fun i => b + d * i) (indices n).

(** Without rounding, the fitted trend of an arithmetic progression of two
    or more readings is its step, whatever the start and the length: the
    guard for a zero denominator is never the branch taken there. *)
Lemma exact_trend_of_progression (b d : Z) (n : nat) (Hn : (2 <= n)%nat) :
  (calculateTrend (progression b d n) == inject_Z d)%Q
  /\ (calculateTrend (progression b 0 n) == 0)%Q.
Proof.
  assert (Hgen : forall d', (calculateTrend (progression b d' n) == inject_Z d')%Q).
  { intros d'. rewrite trend_refines. unfold slope_spec, progression.
    rewrite length_map, length_indices, sigma_map_linear, sigma_zip_linear.
    rewrite length_indices.
    pose proof (denominator_positive n Hn) as Hpos.
    set (N := Z.of_nat n) in *.
    set (Sx := sigma (indices n)) in *.
    set (Sxx := sigma (map (fun x => x * x) (indices n))) in *.
    destruct (Z.eqb_spec (N * Sxx - Sx * Sx) 0) as [H0|Hne]; [lia|].
    replace (N * (b * Sx + d' * Sxx) - Sx * (N * b + d' * Sx))
      with (d' * (N * Sxx - Sx * Sx)) by ring.
    rewrite inject_Z_mult. field.
    intros Hz. apply (proj1 (inject_Z_zero_iff _)) in Hz. contradiction. }
  split; [apply Hgen | apply (Hgen 0)].
Qed.

Lemma slope_spec_shift (c : Z) (ys : list Z) :
  slope_spec (map (Z.add c) ys) = slope_spec ys.
Proof.
  unfold slope_spec. rewrite length_map, sigma_map_shift.
  rewrite sigma_zip_shift by apply length_indices.
  set (N := Z.of_nat (length ys)).
  set (Sx := sigma (indices (length ys))).
  set (Sxx := sigma (map (fun x => x * x) (indices (length ys)))).
  replace (N * (sigma (zip_with Z.mul (indices (length ys)) ys) + c * Sx)
           - Sx * (sigma ys + N * c))
    with (N * sigma (zip_with Z.mul (indices (length ys)) ys) - Sx * sigma ys)
    by ring.
  reflexivity.
Qed.

(** Without rounding, the verdict depends on the heap readings only through
    their differences. *)
Lemma exact_verdict_ignores_offset (c : Z) (ms ms' : list MemoryMeasurement)
    (Hshift : map heapUsed ms' = map (Z.add c) (map heapUsed ms)) :
  detectLeak ms' = detectLeak ms.
Proof.
  assert (Hlen : length ms' = length ms).
  { rewrite <- (length_map heapUsed ms'), Hshift, !length_map. reflexivity. }
  unfold detectLeak. rewrite Hlen.
  destruct (length ms <? 10)%nat; [reflexivity|].
  assert (Hrecent : map heapUsed (slice_last 10 ms')
                    = map (Z.add c) (map heapUsed (slice_last 10 ms))).
  { unfold slice_last. rewrite Hlen, <- !skipn_map, Hshift, skipn_map.
    reflexivity. }
  rewrite Hrecent.
  apply Qgtb_proper. rewrite !trend_refines, slope_spec_shift. reflexivity.
Qed.

(** *** The verdict on a window, by its steps *)

(** The differences between consecutive readings. *)
Definition steps (l : list Z) : list Z := zip_with Z.sub (tail l) l.

(** On ten readings the verdict compares 825 MiB with the readings weighted
    by 10·i − 45. *)
Lemma detectLeak_window (ms : list MemoryMeasurement)
    (y0 y1 y2 y3 y4 y5 y6 y7 y8 y9 : Z) :
  (10 <= length ms)%nat ->
  map heapUsed (slice_last 10 ms) = [y0; y1; y2; y3; y4; y5; y6; y7; y8; y9] ->
  detectLeak ms = true
  <-> 825 * MiB
      < 45 * (y9 - y0) + 35 * (y8 - y1) + 25 * (y7 - y2) + 15 * (y6 - y3)
        + 5 * (y5 - y4).
Proof.
  intros Hlen Hwin. rewrite detectLeak_long by exact Hlen. rewrite Hwin.
  rewrite (Qgtb_proper _ _ _ (trend_refines _)), Qgtb_true.
  unfold slope_spec. cbn [length].
  change (indices 10) with [0; 1; 2; 3; 4; 5; 6; 7; 8; 9].
  change (sigma [0; 1; 2; 3; 4; 5; 6; 7; 8; 9]) with 45.
  change (sigma (map (fun x => x * x) [0; 1; 2; 3; 4; 5; 6; 7; 8; 9])) with 285.
  change (Z.of_nat 10 * 285 - 45 * 45) with 825.
  change (825 =? 0) with false. cbv iota.
  unfold sigma. cbn [zip_with fold_right].
  unfold Qlt, Qdiv, Qmult, Qinv, inject_Z, leakThreshold, MiB.
  cbn [Qnum Qden]. change (Z.of_nat 10) with 10.
  cbn [Z.mul Pos.mul]. lia.
Qed.

Lemma window_of_ten (ms : list MemoryMeasurement) :
  (10 <= length ms)%nat ->
  exists y0 y1 y2 y3 y4 y5 y6 y7 y8 y9,
    map heapUsed (slice_last 10 ms) = [y0; y1; y2; y3; y4; y5; y6; y7; y8; y9].
Proof.
  intros Hlen.
  assert (H : length (map heapUsed (slice_last 10 ms)) = 10%nat)
    by (rewrite length_map; apply slice_last_length, Hlen).
  destruct (map heapUsed (slice_last 10 ms))
    as [|y0 [|y1 [|y2 [|y3 [|y4 [|y5 [|y6 [|y7 [|y8 [|y9 [|z l]]]]]]]]]]];
    try discriminate.
  eauto 11.
Qed.

(** Without rounding, steps of at most 1 MiB in the last ten readings give
    no leak. *)
Lemma exact_slow_growth_is_no_leak (ms : list MemoryMeasurement)
    (Hlen : (10 <= length ms)%nat)
    (Hslow : Forall (fun d => d <= MiB) (steps (map heapUsed (slice_last 10 ms)))) :
  detectLeak ms = false.
Proof.
  destruct (window_of_ten ms Hlen)
    as (y0 & y1 & y2 & y3 & y4 & y5 & y6 & y7 & y8 & y9 & Hwin).
  rewrite Hwin in Hslow. unfold steps in Hslow. cbn [tail zip_with] in Hslow.
  repeat match goal with
         | H : Forall _ (_ :: _) |- _ => apply Forall_cons in H as [? H]
         end.
  apply not_true_is_false. intros Hleak.
  apply (detectLeak_window ms _ _ _ _ _ _ _ _ _ _ Hlen Hwin) in Hleak.
  unfold MiB in *. lia.
Qed.

(** Without rounding, steps above 1 MiB in the last ten readings give a
    leak. *)
Lemma exact_steady_growth_is_a_leak (ms : list MemoryMeasurement)
    (Hlen : (10 <= length ms)%nat)
    (Hfast : Forall (fun d => MiB < d) (steps (map heapUsed (slice_last 10 ms)))) :
  detectLeak ms = true.
Proof.
  destruct (window_of_ten ms Hlen)
    as (y0 & y1 & y2 & y3 & y4 & y5 & y6 & y7 & y8 & y9 & Hwin).
  rewrite Hwin in Hfast. unfold steps in Hfast. cbn [tail zip_with] in Hfast.
  repeat match goal with
         | H : Forall _ (_ :: _) |- _ => apply Forall_cons in H as [? H]
         end.
  apply (detectLeak_window ms _ _ _ _ _ _ _ _ _ _ Hlen Hwin).
  unfold MiB in *. lia.
Qed.

Definition falling_log : list MemoryMeasurement :=
  map (fun i => sample (1000 * i) (4096 * MiB - 300 * MiB * i)) (indices 12).

(** *** The report as a whole *)

Lemma last_of_elem {A} (d : A) (l : list A) : last_of d (d :: l) ∈ d :: l.
Proof.
  unfold last_of. revert d. induction l as [|x l IH]; intros d; [left|].
  right. change (List.last (d :: x :: l) d) with (List.last (x :: l) d).
  destruct l as [|y l]; [left|].
  specialize (IH x).
  change (List.last (x :: y :: l) x) with (List.last (y :: l) x) in IH.
  change (List.last (x :: y :: l) d) with (List.last (y :: l) d).
  assert (E : forall a b : A, List.last (y :: l) a = List.last (y :: l) b).
  { clear. revert y. induction l as [|z l IHl]; intros y a b; [reflexivity|].
    change (List.last (y :: z :: l) a) with (List.last (z :: l) a).
    change (List.last (y :: z :: l) b) with (List.last (z :: l) b).
    apply IHl. }
  rewrite (E d x). exact IH.
Qed.

Lemma peak_bounds (m : Monitor) :
  baseline (getReport m) <= peak (getReport m)
  /\ current (getReport m) <= peak (getReport m).
Proof.
  unfold getReport. destruct (log m) as [|b rest] eqn:Hlog.
  - cbn. lia.
  - cbn [current baseline peak].
    destruct (Math_max_is_maximum (heapUsed b) (map heapUsed rest)) as [_ Hmax].
    split.
    + apply Hmax. left.
    + apply Hmax. change (heapUsed b :: map heapUsed rest)
        with (map heapUsed (b :: rest)).
      apply list_elem_of_fmap_2. apply last_of_elem.
Qed.

(** X5. In every report growth is current minus baseline, and the peak is
    neither below the baseline nor below the current reading. *)
Theorem report_is_consistent (m : Monitor) :
  growth (getReport m) = current (getReport m) - baseline (getReport m)
  /\ baseline (getReport m) <= peak (getReport m)
  /\ current (getReport m) <= peak (getReport m)
  /\ measurements (getReport m) = log m.
Proof.
  destruct (peak_bounds m) as [Hb Hc].
  split; [|split; [exact Hb|split; [exact Hc|]]].
  - unfold getReport. destruct (log m); cbn; lia.
  - unfold getReport. destruct (log m) eqn:E; cbn; congruence.
Qed.

Lemma ratio_nonpositive (g k : Z) :
  0 < k -> ((inject_Z g / inject_Z k <= 0)%Q <-> g <= 0).
Proof.
  intros Hk. destruct k as [|k|k]; try lia.
  unfold Qle, Qdiv, Qmult, Qinv, inject_Z. cbn. nia.
Qed.



(** Milliseconds between the first and the last sample of a log. *)
Definition elapsedMs (ms : list MemoryMeasurement) : Z :=
  match ms with
  | [] => 0
  | b :: _ => timestamp (last_of b ms) - timestamp b
  end.

Lemma recordMeasurement_log (snap : MemoryMeasurement) (m : Monitor) :
  log (recordMeasurement snap m) = log m ++ [snap].
Proof. reflexivity. Qed.

Lemma fold_max_app (xs : list Z) (a y : Z) :
  fold_left Z.max (xs ++ [y]) a = Z.max (fold_left Z.max xs a) y.
Proof. rewrite fold_left_app. reflexivity. Qed.

(** X8. Recording one more sample on a non-empty log keeps the baseline,
    makes the new reading the current one and raises the peak to the larger
    of the old peak and the new reading; the earlier samples stay in place. *)
Theorem recording_extends_report (snap : MemoryMeasurement) (m : Monitor)
    (Hne : log m <> []) :
  let r := getReport m in
  let r' := getReport (recordMeasurement snap m) in
  baseline r' = baseline r
  /\ current r' = heapUsed snap
  /\ peak r' = Z.max (peak r) (heapUsed snap)
  /\ measurements r' = measurements r ++ [snap].
Proof.
  cbv zeta. unfold getReport. rewrite recordMeasurement_log.
  destruct (log m) as [|b rest] eqn:Hlog; [contradiction|].
  cbn [app baseline current peak measurements].
  repeat split.
  - unfold last_of. change (b :: rest ++ [snap]) with ((b :: rest) ++ [snap]).
    rewrite last_last. reflexivity.
  - unfold Math_max. rewrite map_app. apply fold_max_app.
Qed.

Lemma recording_extends_report_witness :
  log sawtooth_monitor <> []
  /\ peak (getReport (recordMeasurement (sample 3000 (70 * MiB)) sawtooth_monitor))
     = 70 * MiB.
Proof.
  assert (H : log sawtooth_monitor <> []) by discriminate.
  split; [exact H|].
  exact (proj1 (proj2 (proj2
    (recording_extends_report (sample 3000 (70 * MiB)) sawtooth_monitor H)))).
Defined.

End TrendProofs.

(* ===================================================================== *)
(** ** Properties of the rounding *)
(* ===================================================================== *)

Module Binary64Proofs.
Import Binary64.

Local Open Scope Q_scope.

(** *** Rounding to the nearest integer *)

Lemma nearest_even_error (s : Q) :
  Qabs (inject_Z (nearest_even s) - s) <= 1 # 2.
Proof.
  unfold nearest_even.
  pose proof (Qfloor_le s) as Hlo. pose proof (Qlt_floor s) as Hhi.
  rewrite inject_Z_plus in Hhi.
  apply Qabs_Qle_condition.
  destruct (Qcompare_spec (s - inject_Z (Qfloor s)) (1 # 2)) as [He|Hl|Hg].
  - destruct (Z.even (Qfloor s)); [|rewrite inject_Z_plus];
      change (inject_Z 1) with 1 in *; lra.
  - change (inject_Z 1) with 1 in *; lra.
  - rewrite inject_Z_plus. change (inject_Z 1) with 1 in *; lra.
Qed.

#[global] Instance nearest_even_comp : Proper (Qeq ==> eq) nearest_even.
Proof.
  intros s t Hst. unfold nearest_even.
  rewrite (Qfloor_comp _ _ Hst).
  assert (Hc : (s - inject_Z (Qfloor t) ?= 1 # 2) = (t - inject_Z (Qfloor t) ?= 1 # 2)).
  { apply Qcompare_comp; [rewrite Hst|]; reflexivity. }
  rewrite Hc. reflexivity.
Qed.

Lemma nearest_even_Z (z : Z) : nearest_even (inject_Z z) = z.
Proof.
  unfold nearest_even. rewrite Qfloor_Z.
  destruct (Qcompare_spec (inject_Z z - inject_Z z) (1 # 2)) as [He|Hl|Hg];
    [lra | reflexivity | lra].
Qed.

(** *** The binade of a number *)

Lemma pow2_pos (k : Z) : 0 < 2 ^ k.
Proof. apply Qpower_0_lt. reflexivity. Qed.

Lemma pow2_succ (k : Z) : 2 ^ (k + 1) == 2 * 2 ^ k.
Proof. rewrite Qpower_plus by discriminate. change (2 ^ 1) with 2. ring. Qed.

Lemma pow2_pred (k : Z) : 2 * 2 ^ (k - 1) == 2 ^ k.
Proof. rewrite <- pow2_succ. replace (k - 1 + 1)%Z with k by ring. reflexivity. Qed.

Lemma pow2_inject (k : Z) : (0 <= k)%Z -> inject_Z (2 ^ k) == 2 ^ k.
Proof. intros Hk. rewrite Zpower_Qpower by exact Hk. reflexivity. Qed.

Lemma log2_bracket (n : Z) :
  (0 < n)%Z ->
  2 ^ Z.log2 n <= inject_Z n /\ inject_Z n < 2 * 2 ^ Z.log2 n.
Proof.
  intros Hn. destruct (Z.log2_spec n Hn) as [Hlo Hhi].
  pose proof (Z.log2_nonneg n) as H0.
  split.
  - rewrite <- pow2_inject by exact H0. rewrite <- Zle_Qle. exact Hlo.
  - rewrite <- pow2_succ, <- pow2_inject by lia. rewrite <- Zlt_Qlt.
    exact Hhi.
Qed.

Lemma div_le_div (a b c d : Q) :
  0 < b -> 0 < d -> a * d <= c * b -> a / b <= c / d.
Proof.
  intros Hb Hd H.
  apply Qle_shift_div_r; [exact Hb|].
  assert (E : c / d * b == (c * b) / d) by (field; lra).
  rewrite E. apply Qle_shift_div_l; [exact Hd|exact H].
Qed.

Lemma div_lt_div (a b c d : Q) :
  0 < b -> 0 < d -> a * d < c * b -> a / b < c / d.
Proof.
  intros Hb Hd H.
  apply Qlt_shift_div_r; [exact Hb|].
  assert (E : c / d * b == (c * b) / d) by (field; lra).
  rewrite E. apply Qlt_shift_div_l; [exact Hd|exact H].
Qed.

Lemma ilog2_spec (a : Q) :
  0 < a -> 2 ^ ilog2 a <= a /\ a < 2 * 2 ^ ilog2 a.
Proof.
  intros Ha. unfold ilog2.
  destruct a as [n d]. cbn [Qnum Qden].
  assert (Hn : (0 < n)%Z).
  { unfold Qlt in Ha. cbn in Ha. lia. }
  destruct (log2_bracket n Hn) as [Hn1 Hn2].
  destruct (log2_bracket (Zpos d) eq_refl) as [Hd1 Hd2].
  set (k := (Z.log2 n - Z.log2 (Zpos d))%Z).
  assert (Hk : 2 ^ k == 2 ^ Z.log2 n / 2 ^ Z.log2 (Zpos d)).
  { unfold k. rewrite Qpower_minus by discriminate. reflexivity. }
  assert (Hk1 : 2 ^ (k - 1) == 2 ^ Z.log2 n / (2 * 2 ^ Z.log2 (Zpos d))).
  { pose proof (pow2_pred k) as Hp. rewrite Hk in Hp.
    pose proof (pow2_pos (Z.log2 (Zpos d))) as HB.
    apply (Qmult_inj_l _ _ 2); [discriminate|]. rewrite Hp. field. lra. }
  pose proof (pow2_pos (Z.log2 n)) as HA.
  pose proof (pow2_pos (Z.log2 (Zpos d))) as HB.
  assert (Hq : n # d == inject_Z n / inject_Z (Zpos d)) by apply Qmake_Qdiv.
  assert (HD : 0 < inject_Z (Zpos d)) by reflexivity.
  set (A := 2 ^ Z.log2 n) in *. set (B := 2 ^ Z.log2 (Zpos d)) in *.
  set (N := inject_Z n) in *. set (D := inject_Z (Zpos d)) in *.
  destruct (Qle_bool (2 ^ k) (n # d)) eqn:Hle.
  - apply Qle_bool_iff in Hle. split; [exact Hle|].
    rewrite Hk, Hq.
    assert (E : 2 * (A / B) == (2 * A) / B) by (field; lra).
    rewrite E. apply div_lt_div; [exact HD|exact HB|].
    clearbody A B N D. clear - Hn1 Hn2 Hd1 Hd2 HA HB HD. nra.
  - assert (Hlt : n # d < 2 ^ k).
    { apply Qnot_le_lt. intros H. apply Qle_bool_iff in H. congruence. }
    split.
    + rewrite Hk1, Hq. apply div_le_div; [lra|exact HD|].
      clearbody A B N D. clear - Hn1 Hn2 Hd1 Hd2 HA HB HD. nra.
    + rewrite pow2_pred. exact Hlt.
Qed.


Lemma ilog2_unique (a : Q) (k : Z) :
  2 ^ k <= a -> a < 2 * 2 ^ k -> ilog2 a = k.
Proof.
  intros Hlo Hhi.
  assert (Ha : 0 < a) by (pose proof (pow2_pos k); lra).
  destruct (ilog2_spec a Ha) as [Llo Lhi].
  rewrite <- pow2_succ in Hhi, Lhi.
  assert (H1 : (k < ilog2 a + 1)%Z).
  { apply (Qpower_lt_compat_l_inv 2); [|reflexivity].
    eapply Qle_lt_trans; eassumption. }
  assert (H2 : (ilog2 a < k + 1)%Z).
  { apply (Qpower_lt_compat_l_inv 2); [|reflexivity].
    eapply Qle_lt_trans; eassumption. }
  lia.
Qed.

Lemma ilog2_comp (a b : Q) : 0 < a -> a == b -> ilog2 a = ilog2 b.
Proof.
  intros Ha Hab. symmetry. apply ilog2_unique.
  - rewrite <- Hab. apply ilog2_spec, Ha.
  - rewrite <- Hab. apply ilog2_spec, Ha.
Qed.

(** *** One rounding *)

Lemma Qabs_pos_lt (q : Q) : ~ q == 0 -> 0 < Qabs q.
Proof.
  intros Hq. apply Qabs_case; intros H.
  - apply Qle_lteq in H. destruct H as [H|H]; [exact H|]. symmetry in H. tauto.
  - apply Qle_lteq in H. destruct H as [H|H]; [lra|tauto].
Qed.

(** For [q] other than zero, [fl q] is the integer nearest to
    [q / 2^e] scaled back by [2^e]. *)
Lemma fl_nonzero (q : Q) :
  ~ q == 0 ->
  fl q == inject_Z (nearest_even (q / 2 ^ ulp_exponent q)) * 2 ^ ulp_exponent q.
Proof.
  intros Hq. unfold fl.
  destruct (Qeq_bool q 0) eqn:E.
  - apply Qeq_bool_iff in E. tauto.
  - cbv zeta. apply Qred_correct.
Qed.

Lemma fl_zero (q : Q) : q == 0 -> fl q == 0.
Proof.
  intros Hq. unfold fl. apply Qeq_bool_iff in Hq. rewrite Hq. reflexivity.
Qed.

Lemma ulp_exponent_bracket (q : Q) :
  ~ q == 0 ->
  4503599627370496 * 2 ^ ulp_exponent q <= Qabs q.
Proof.
  intros Hq. destruct (ilog2_spec (Qabs q) (Qabs_pos_lt q Hq)) as [Hlo _].
  unfold ulp_exponent.
  assert (E : 2 ^ ilog2 (Qabs q) == 2 ^ 52 * 2 ^ (ilog2 (Qabs q) - 52)).
  { rewrite <- Qpower_plus by discriminate.
    replace (52 + (ilog2 (Qabs q) - 52))%Z with (ilog2 (Qabs q)) by ring.
    reflexivity. }
  rewrite E in Hlo. exact Hlo.
Qed.

(** The relative error of one rounding is at most 2^-53. *)
Lemma fl_error (q : Q) : Qabs (fl q - q) <= unit_roundoff * Qabs q.
Proof.
  destruct (Qeq_dec q 0) as [Hz|Hnz].
  - rewrite (fl_zero q Hz), Hz. discriminate.
  - rewrite (fl_nonzero q Hnz).
    pose proof (ulp_exponent_bracket q Hnz) as Hb.
    pose proof (pow2_pos (ulp_exponent q)) as Hp.
    pose proof (nearest_even_error (q / 2 ^ ulp_exponent q)) as Hr.
    set (p := 2 ^ ulp_exponent q) in *.
    set (m := inject_Z (nearest_even (q / p))) in *.
    assert (E : m * p - q == (m - q / p) * p) by (field; lra).
    rewrite E, Qabs_Qmult, (Qabs_pos p) by lra.
    unfold unit_roundoff.
    set (A := Qabs q) in *. set (R := Qabs (m - q / p)) in *.
    clearbody A R p. clear - Hb Hp Hr. nra.
Qed.

Lemma fl_exact (z : Z) :
  (Z.abs z < 2 ^ 53)%Z -> fl (inject_Z z) == inject_Z z.
Proof.
  intros Hz.
  destruct (Z.eq_dec z 0%Z) as [->|Hnz]; [reflexivity|].
  assert (Hq : ~ inject_Z z == 0).
  { intros H. apply Hnz. unfold Qeq in H. cbn in H. lia. }
  rewrite (fl_nonzero _ Hq).
  pose proof (ulp_exponent_bracket _ Hq) as Hb.
  set (e := ulp_exponent (inject_Z z)) in *.
  assert (He : (e <= 0)%Z).
  { assert (Habs : Qabs (inject_Z z) < 2 ^ 53).
    { change (Qabs (inject_Z z)) with (inject_Z (Z.abs z)).
      change (2 ^ 53) with (inject_Z (2 ^ 53)). rewrite <- Zlt_Qlt. exact Hz. }
    assert (H2 : 2 ^ (e + 52) < 2 ^ 53).
    { eapply Qle_lt_trans; [|exact Habs].
      rewrite Qpower_plus by discriminate.
      change (2 ^ 52) with 4503599627370496. lra. }
    apply Qpower_lt_compat_l_inv in H2; [lia|reflexivity]. }
  assert (Hp : 2 ^ e == / inject_Z (2 ^ (- e))).
  { rewrite pow2_inject by lia. rewrite <- Qpower_opp.
    replace (- - e)%Z with e by ring. reflexivity. }
  assert (Hpos : 0 < inject_Z (2 ^ (- e))).
  { rewrite pow2_inject by lia. apply pow2_pos. }
  assert (Hs : inject_Z z / 2 ^ e == inject_Z (z * 2 ^ (- e))).
  { rewrite Hp, inject_Z_mult. field. lra. }
  rewrite Hs, nearest_even_Z, Hp, inject_Z_mult. field. lra.
Qed.

#[global] Instance fl_comp : Proper (Qeq ==> Qeq) fl.
Proof.
  intros q r Hqr.
  destruct (Qeq_dec q 0) as [Hz|Hnz].
  - rewrite (fl_zero q Hz), (fl_zero r) by (rewrite <- Hqr; exact Hz).
    reflexivity.
  - assert (Hr : ~ r == 0) by (rewrite <- Hqr; exact Hnz).
    rewrite (fl_nonzero q Hnz), (fl_nonzero r Hr).
    assert (He : ulp_exponent q = ulp_exponent r).
    { unfold ulp_exponent. f_equal. apply ilog2_comp.
      - apply Qabs_pos_lt, Hnz.
      - rewrite Hqr. reflexivity. }
    rewrite He. rewrite Hqr. reflexivity.
Qed.

(** *** What the error bound gives *)

(** One rounding moves a number by at most its 2^-53rd part, and not across
    zero. *)
Lemma fl_between (q : Q) :
  (0 <= q -> (1 - unit_roundoff) * q <= fl q /\ fl q <= (1 + unit_roundoff) * q)
  /\ (q <= 0 -> (1 + unit_roundoff) * q <= fl q /\ fl q <= (1 - unit_roundoff) * q).
Proof.
  pose proof (fl_error q) as He.
  split; intros Hq.
  - rewrite (Qabs_pos q Hq) in He. apply Qabs_Qle_condition in He.
    unfold unit_roundoff in *. lra.
  - rewrite (Qabs_neg q Hq) in He. apply Qabs_Qle_condition in He.
    unfold unit_roundoff in *. lra.
Qed.

Lemma fl_pos (q : Q) : 0 < q -> 0 < fl q.
Proof.
  intros Hq. destruct (proj1 (fl_between q) (Qlt_le_weak _ _ Hq)) as [H _].
  unfold unit_roundoff in *. lra.
Qed.

Lemma fl_nonpos (q : Q) : q <= 0 -> fl q <= 0.
Proof.
  intros Hq. destruct (proj2 (fl_between q) Hq) as [_ H].
  unfold unit_roundoff in *. lra.
Qed.

Lemma fl_nonneg (q : Q) : 0 <= q -> 0 <= fl q.
Proof.
  intros Hq. destruct (proj1 (fl_between q) Hq) as [H _].
  unfold unit_roundoff in *. lra.
Qed.

Lemma fl_exact_eq (q : Q) (z : Z) :
  q == inject_Z z -> (Z.abs z < 2 ^ 53)%Z -> fl q == inject_Z z.
Proof. intros Hq Hz. rewrite Hq. apply fl_exact, Hz. Qed.

(** [fl] gives fractions in lowest terms, so a rounded integer is that
    integer itself. *)
Lemma fl_canonical (q : Q) : Qred (fl q) = fl q.
Proof.
  unfold fl. destruct (Qeq_bool q 0); [reflexivity|].
  cbv zeta. apply Qred_complete, Qred_correct.
Qed.

Lemma fl_integer (q : Q) (z : Z) :
  q == inject_Z z -> (Z.abs z < 2 ^ 53)%Z -> fl q = inject_Z z.
Proof.
  intros Hq Hz. rewrite <- fl_canonical.
  rewrite (Qred_complete _ _ (fl_exact_eq q z Hq Hz)).
  apply Qcanon.Qred_identity. cbn. apply Z.gcd_1_r.
Qed.

#[global] Instance add_comp : Proper (Qeq ==> Qeq ==> Qeq) add.
Proof. intros a a' Ha b b' Hb. unfold add. rewrite Ha, Hb. reflexivity. Qed.

#[global] Instance subtract_comp : Proper (Qeq ==> Qeq ==> Qeq) subtract.
Proof. intros a a' Ha b b' Hb. unfold subtract. rewrite Ha, Hb. reflexivity. Qed.

#[global] Instance multiply_comp : Proper (Qeq ==> Qeq ==> Qeq) multiply.
Proof. intros a a' Ha b b' Hb. unfold multiply. rewrite Ha, Hb. reflexivity. Qed.

#[global] Instance divide_comp : Proper (Qeq ==> Qeq ==> Qeq) divide.
Proof. intros a a' Ha b b' Hb. unfold divide. rewrite Ha, Hb. reflexivity. Qed.

End Binary64Proofs.

(* ===================================================================== *)
(** ** The rounding against the kernel's binary64 numbers *)
(* ===================================================================== *)

Module Binary64Check.
Import MemoryMonitor Binary64.

(** The rational a number of the kernel stands for; none for an infinity or
    a NaN. *)
Definition exact_value (x : PrimFloat.float) : option Q :=
  match FloatOps.Prim2SF x with
  | SpecFloat.S754_zero _ => Some 0%Q
  | SpecFloat.S754_finite s m e =>
      Some (Qred ((if s then -1 else 1) * inject_Z (Zpos m) * 2 ^ e))%Q
  | _ => None
  end.

(** A whole number below 2^63 as the kernel's nearest number. *)
Definition number (z : Z) : PrimFloat.float :=
  PrimFloat.of_uint63 (Uint63.of_Z z).

(** [calculateTrend(values)] on the kernel's numbers. *)
Fixpoint kernel_indexed (x : PrimFloat.float) (values : list Z)
    (sum : PrimFloat.float) : PrimFloat.float :=
  match values with
  | [] => sum
  | y :: rest =>
      kernel_indexed (PrimFloat.add x (number 1)) rest
        (PrimFloat.add sum (PrimFloat.mul x (number y)))
  end.

Definition kernel_trend (values : list Z) : PrimFloat.float :=
  let n := number (Z.of_nat (length values)) in
  if (length values <? 2)%nat then number 0
  else
    let sumX :=
      PrimFloat.div (PrimFloat.mul n (PrimFloat.sub n (number 1))) (number 2) in
    let sumY :=
      fold_left (fun a b => PrimFloat.add a (number b)) values (number 0) in
    let sumXY := kernel_indexed (number 0) values (number 0) in
    let sumX2 :=
      PrimFloat.div
        (PrimFloat.mul (PrimFloat.mul n (PrimFloat.sub n (number 1)))
           (PrimFloat.sub (PrimFloat.mul (number 2) n) (number 1)))
        (number 6) in
    let denominator :=
      PrimFloat.sub (PrimFloat.mul n sumX2) (PrimFloat.mul sumX sumX) in
    if PrimFloat.eqb denominator (number 0) then number 0
    else
      PrimFloat.div
        (PrimFloat.sub (PrimFloat.mul n sumXY) (PrimFloat.mul sumX sumY))
        denominator.

(** On these inputs [fl] and the operations built on it give the numbers the
    kernel's binary64 arithmetic gives: single operations with an inexact
    result, a whole number past 2^53, and the trend of ten readings whose
    sums are rounded. *)
Lemma rounding_agrees_with_kernel :
  exact_value (PrimFloat.div (number 2) (number 3)) = Some (divide 2 3)
  /\ exact_value (PrimFloat.sub (number 1) (PrimFloat.div (number 1) (number 3)))
     = Some (subtract 1 (divide 1 3))
  /\ exact_value
       (PrimFloat.div (number 9437184) (PrimFloat.div (number 9) (number 1000)))
     = Some (divide 9437184 (divide 9 1000))
  /\ exact_value
       (PrimFloat.add (PrimFloat.div (number 1) (number 10))
          (PrimFloat.div (number 2) (number 10)))
     = Some (add (divide 1 10) (divide 2 10))
  /\ exact_value (number 9007199254740993) = Some (fl 9007199254740993)
  /\ exact_value (PrimFloat.mul (number 9007199254740995) (number 3))
     = Some (multiply (fl 9007199254740995) 3)
  /\ exact_value
       (kernel_trend (map (fun i => 2 ^ 48 + 7 + MiB * i)%Z (indices 10)))
     = Some (MemoryMonitor64.calculateTrend
               (map (fun i => 2 ^ 48 + 7 + MiB * i)%Z (indices 10)))
  /\ exact_value
       (kernel_trend (map (fun i => 8829091002394262 + 1048577 * i)%Z (indices 10)))
     = Some (MemoryMonitor64.calculateTrend
               (map (fun i => 8829091002394262 + 1048577 * i)%Z (indices 10)))
  /\ exact_value
       (kernel_trend (map (fun i => 5 * MiB + 2 * MiB * i)%Z (indices 10)))
     = Some (MemoryMonitor64.calculateTrend
               (map (fun i => 5 * MiB + 2 * MiB * i)%Z (indices 10))).
Proof. vm_compute. repeat split. Qed.

End Binary64Check.

(* ===================================================================== *)
(** ** The trend, the efficiency and the growth rate as computed *)
(* ===================================================================== *)

Module MemoryMonitor64Proofs.
Import MemoryMonitor MemoryMonitorProofs TrendProofs.
Import Binary64 Binary64Proofs.

Local Open Scope Z_scope.

(** *** Sums of byte counts are exact *)

Lemma sigma_nonneg (l : list Z) : Forall (fun y => 0 <= y) l -> 0 <= sigma l.
Proof.
  induction 1 as [|y l Hy _ IH]; [reflexivity|].
  change (sigma (y :: l)) with (y + sigma l). lia.
Qed.

Lemma reduce_sum_exact (l : list Z) (q : Q) (a : Z) :
  (q == inject_Z a)%Q -> 0 <= a -> Forall (fun y => 0 <= y) l ->
  a + sigma l < 2 ^ 53 ->
  (fold_left (fun a b => add a (inject_Z b)) l q == inject_Z (a + sigma l))%Q.
Proof.
  intros Hq Ha Hl. revert q a Hq Ha.
  induction Hl as [|y l Hy Hl IH]; intros q a Hq Ha Hb.
  - cbn. rewrite Hq, Z.add_0_r. reflexivity.
  - change (sigma (y :: l)) with (y + sigma l) in *.
    pose proof (sigma_nonneg l Hl) as Hs.
    cbn [fold_left].
    rewrite (IH (add q (inject_Z y)) (a + y)).
    + replace (a + y + sigma l) with (a + (y + sigma l)) by ring. reflexivity.
    + unfold add. apply fl_exact_eq; [|lia].
      rewrite Hq, inject_Z_plus. reflexivity.
    + lia.
    + lia.
Qed.

Lemma reduce_indexed_ge (l : list Z) (x acc : Z) :
  0 <= x -> Forall (fun y => 0 <= y) l ->
  acc <= MemoryMonitor.reduce_indexed x l acc.
Proof.
  intros Hx Hl. revert x acc Hx.
  induction Hl as [|y l Hy _ IH]; intros x acc Hx; cbn; [lia|].
  specialize (IH (x + 1) (acc + x * y) ltac:(lia)). nia.
Qed.

Lemma reduce_indexed_exact (l : list Z) (x : Z) (q : Q) (acc : Z) :
  (q == inject_Z acc)%Q -> 0 <= acc -> 0 <= x ->
  Forall (fun y => 0 <= y) l ->
  MemoryMonitor.reduce_indexed x l acc < 2 ^ 53 ->
  (MemoryMonitor64.reduce_indexed x l q
   == inject_Z (MemoryMonitor.reduce_indexed x l acc))%Q.
Proof.
  intros Hq Hacc Hx Hl. revert x q acc Hq Hacc Hx.
  induction Hl as [|y l Hy Hl IH]; intros x q acc Hq Hacc Hx Hb.
  - cbn. exact Hq.
  - cbn [MemoryMonitor64.reduce_indexed MemoryMonitor.reduce_indexed] in *.
    pose proof (reduce_indexed_ge l (x + 1) (acc + x * y) ltac:(lia) Hl) as Hge.
    assert (Hxy : 0 <= x * y) by nia.
    apply IH; try lia.
    unfold add, multiply.
    assert (E : (fl (inject_Z x * inject_Z y) == inject_Z (x * y))%Q).
    { apply fl_exact_eq; [rewrite inject_Z_mult; reflexivity | lia]. }
    apply fl_exact_eq; [|lia].
    rewrite E, Hq, inject_Z_plus. reflexivity.
Qed.

(** *** The trend on the window of ten *)

(** Byte counts below 2^44, that is 16 TiB: on ten of them every sum and
    product of the regression is an integer below 2^53. *)
Definition in_range (y : Z) : Prop := 0 <= y < 2 ^ 44.

Lemma ten_elements {A} (l : list A) :
  length l = 10%nat ->
  exists y0 y1 y2 y3 y4 y5 y6 y7 y8 y9,
    l = [y0; y1; y2; y3; y4; y5; y6; y7; y8; y9].
Proof.
  intros H.
  destruct l as [|y0 [|y1 [|y2 [|y3 [|y4 [|y5 [|y6 [|y7 [|y8 [|y9 [|z l]]]]]]]]]]];
    try discriminate.
  eauto 11.
Qed.

Lemma trend_constants :
  let n := inject_Z (Z.of_nat 10) in
  divide (multiply n (subtract n 1)) 2 = 45%Q
  /\ divide (multiply (multiply n (subtract n 1)) (subtract (multiply 2 n) 1)) 6
     = 285%Q
  /\ subtract (multiply n 285) (multiply 45 45) = 825%Q
  /\ MemoryMonitor64.leakThreshold = 1048576%Q.
Proof. vm_compute. repeat split. Qed.

(** On ten byte counts in range the code's trend is the exact quotient
    (10·Σxy − 45·Σy) / 825 rounded once. *)
Lemma trend_on_window (ys : list Z) :
  length ys = 10%nat -> Forall in_range ys ->
  (MemoryMonitor64.calculateTrend ys
   == fl (inject_Z (10 * MemoryMonitor.reduce_indexed 0 ys 0
                    - 45 * MemoryMonitor.reduce_sum ys) / 825))%Q
  /\ Z.abs (10 * MemoryMonitor.reduce_indexed 0 ys 0
            - 45 * MemoryMonitor.reduce_sum ys) < 2 ^ 53.
Proof.
  intros Hlen Hr.
  destruct (ten_elements ys Hlen)
    as (y0 & y1 & y2 & y3 & y4 & y5 & y6 & y7 & y8 & y9 & ->).
  assert (Hnn : Forall (fun y => 0 <= y) [y0; y1; y2; y3; y4; y5; y6; y7; y8; y9]).
  { eapply Forall_impl; [exact Hr|]. intros y Hy. apply Hy. }
  unfold in_range in Hr.
  repeat match goal with
         | H : Forall _ (_ :: _) |- _ =>
             lazymatch type of H with
             | Forall (fun y => 0 <= y < _) _ => apply Forall_cons in H as [? H]
             end
         end.
  set (ys := [y0; y1; y2; y3; y4; y5; y6; y7; y8; y9]) in *.
  assert (Hsy : MemoryMonitor.reduce_sum ys
                = y0 + y1 + y2 + y3 + y4 + y5 + y6 + y7 + y8 + y9)
    by (unfold ys; cbn; lia).
  assert (Hsxy : MemoryMonitor.reduce_indexed 0 ys 0
                 = y1 + 2 * y2 + 3 * y3 + 4 * y4 + 5 * y5 + 6 * y6 + 7 * y7
                   + 8 * y8 + 9 * y9)
    by (unfold ys; cbn; lia).
  change (2 ^ 44) with 17592186044416 in *.
  change (2 ^ 53) with 9007199254740992 in *.
  split; [|lia].
  assert (Ey : (MemoryMonitor64.reduce_sum ys
                == inject_Z (MemoryMonitor.reduce_sum ys))%Q).
  { unfold MemoryMonitor64.reduce_sum.
    assert (Hb : 0 + sigma ys < 2 ^ 53).
    { rewrite <- reduce_sum_sigma, Hsy.
      change (2 ^ 53) with 9007199254740992. lia. }
    rewrite (reduce_sum_exact ys 0%Q 0 ltac:(reflexivity) ltac:(reflexivity)
               Hnn Hb).
    rewrite reduce_sum_sigma. reflexivity. }
  assert (Exy : (MemoryMonitor64.reduce_indexed 0 ys 0
                 == inject_Z (MemoryMonitor.reduce_indexed 0 ys 0))%Q).
  { apply reduce_indexed_exact; try reflexivity; try exact Hnn.
    rewrite Hsxy. change (2 ^ 53) with 9007199254740992. lia. }
  destruct trend_constants as (E1 & E2 & E3 & _). cbv zeta in E1, E2, E3.
  unfold MemoryMonitor64.calculateTrend.
  change (length ys) with 10%nat. change (10 <? 2)%nat with false.
  cbv iota zeta. rewrite E1, E2, E3.
  change (negb (Qeq_bool 825 0)) with true. cbv iota.
  unfold divide, subtract, multiply.
  rewrite Ey, Exy.
  assert (Ea : (fl (inject_Z (Z.of_nat 10) * inject_Z (MemoryMonitor.reduce_indexed 0 ys 0))
                == inject_Z (10 * MemoryMonitor.reduce_indexed 0 ys 0))%Q).
  { apply fl_exact_eq; [rewrite inject_Z_mult; reflexivity|].
    rewrite Hsxy. change (2 ^ 53) with 9007199254740992. lia. }
  assert (Eb : (fl (45 * inject_Z (MemoryMonitor.reduce_sum ys))
                == inject_Z (45 * MemoryMonitor.reduce_sum ys))%Q).
  { apply fl_exact_eq; [rewrite inject_Z_mult; reflexivity|].
    rewrite Hsy. change (2 ^ 53) with 9007199254740992. lia. }
  rewrite Ea, Eb.
  assert (Ec : (fl (inject_Z (10 * MemoryMonitor.reduce_indexed 0 ys 0)
                    - inject_Z (45 * MemoryMonitor.reduce_sum ys))
                == inject_Z (10 * MemoryMonitor.reduce_indexed 0 ys 0
                             - 45 * MemoryMonitor.reduce_sum ys))%Q).
  { apply fl_exact_eq; [rewrite inject_Z_minus; reflexivity|].
    rewrite Hsy, Hsxy. change (2 ^ 53) with 9007199254740992. lia. }
  rewrite Ec. reflexivity.
Qed.

(** *** The verdict on the window *)

(** The rounded quotient is above 1 MiB exactly when the exact one is: the
    nearest quotients on either side of 1 MiB are 1/825 away, far more than
    one rounding moves them. *)
Lemma verdict_of_rounded_quotient (N : Z) :
  Z.abs N < 2 ^ 53 ->
  Qgtb (fl (inject_Z N / 825)) 1048576 = true <-> 825 * 1048576 < N.
Proof.
  intros HN. rewrite Qgtb_true.
  assert (Hq : (inject_Z N / 825 == inject_Z N * (1 # 825))%Q) by reflexivity.
  set (q := (inject_Z N / 825)%Q) in *.
  destruct (fl_between q) as [Hpos Hneg]. unfold unit_roundoff in *.
  split.
  - intros Hgt. apply Z.nle_gt. intros Hle.
    destruct (Z.eq_dec N (825 * 1048576)) as [->|Hne].
    + assert (E : (q == inject_Z 1048576)%Q) by (unfold q; reflexivity).
      rewrite (fl_exact_eq q 1048576 E) in Hgt by (cbn; lia).
      revert Hgt. apply Qlt_irrefl.
    + assert (HNq : (inject_Z N <= 865075199)%Q).
      { change 865075199%Q with (inject_Z 865075199). rewrite <- Zle_Qle. lia. }
      destruct (Qlt_le_dec q 0) as [Hq0|Hq0].
      * destruct (Hneg (Qlt_le_weak _ _ Hq0)) as [_ H]. lra.
      * destruct (Hpos Hq0) as [_ H]. lra.
  - intros Hlt.
    assert (HNq : (865075201 <= inject_Z N)%Q).
    { change 865075201%Q with (inject_Z 865075201). rewrite <- Zle_Qle. lia. }
    assert (Hq0 : (0 <= q)%Q) by lra.
    destruct (Hpos Hq0) as [H _]. lra.
Qed.

Lemma slice_last_app {A} (older recent : list A) :
  slice_last (length recent) (older ++ recent) = recent.
Proof.
  unfold slice_last. rewrite length_app.
  replace (length older + length recent - length recent)%nat
    with (length older) by lia.
  apply drop_app_length.
Qed.

(** The regression of the formula on ten readings. *)
Lemma slope_on_window (ys : list Z) :
  length ys = 10%nat ->
  (slope_spec ys
   == inject_Z (10 * MemoryMonitor.reduce_indexed 0 ys 0
                - 45 * MemoryMonitor.reduce_sum ys) / 825)%Q.
Proof.
  intros Hlen. unfold slope_spec.
  rewrite reduce_sum_sigma, reduce_indexed_sigma, Hlen.
  change (sigma (indices 10)) with 45.
  change (sigma (map (fun x => x * x) (indices 10))) with 285.
  change (Z.of_nat 10 * 285 - 45 * 45) with 825.
  change (825 =? 0) with false. cbv iota.
  change (Z.of_nat 10) with 10. reflexivity.
Qed.

Lemma report_leak64 (m : Monitor) :
  leakDetected (MemoryMonitor64.getReport m) = MemoryMonitor64.detectLeak (log m).
Proof. unfold MemoryMonitor64.getReport. destruct (log m); reflexivity. Qed.

Lemma detectLeak64_window (older recent : list MemoryMeasurement) :
  length recent = 10%nat ->
  MemoryMonitor64.detectLeak (older ++ recent)
  = Qgtb (MemoryMonitor64.calculateTrend (map heapUsed recent)) 1048576.
Proof.
  intros Hlen. unfold MemoryMonitor64.detectLeak.
  destruct (Nat.ltb_spec (length (older ++ recent)) 10) as [Hlt|_].
  { rewrite length_app in Hlt. lia. }
  assert (Hw : slice_last 10 (older ++ recent) = recent)
    by (rewrite <- Hlen; apply slice_last_app).
  cbv zeta. rewrite Hw, (proj2 (proj2 (proj2 trend_constants))). reflexivity.
Qed.

(** On a window of ten byte counts in range the code's verdict is the
    verdict of the exact regression. *)
Lemma verdict_on_window (older recent : list MemoryMeasurement) :
  length recent = 10%nat -> Forall in_range (map heapUsed recent) ->
  MemoryMonitor64.detectLeak (older ++ recent) = true
  <-> (inject_Z 1048576 < slope_spec (map heapUsed recent))%Q.
Proof.
  intros Hlen Hr.
  assert (Hlen' : length (map heapUsed recent) = 10%nat)
    by (rewrite length_map; exact Hlen).
  destruct (trend_on_window _ Hlen' Hr) as [Ht Hb].
  rewrite (detectLeak64_window older recent Hlen).
  rewrite (Qgtb_proper _ _ _ Ht), (verdict_of_rounded_quotient _ Hb).
  rewrite (slope_on_window _ Hlen').
  set (N := 10 * MemoryMonitor.reduce_indexed 0 (map heapUsed recent) 0
            - 45 * MemoryMonitor.reduce_sum (map heapUsed recent)).
  unfold Qlt, Qdiv, Qmult, Qinv, inject_Z. cbn [Qnum Qden]. lia.
Qed.

Lemma detectLeak_exact_window (older recent : list MemoryMeasurement) :
  length recent = 10%nat -> Forall in_range (map heapUsed recent) ->
  MemoryMonitor64.detectLeak (older ++ recent)
  = MemoryMonitor.detectLeak (older ++ recent).
Proof.
  intros Hlen Hr. apply eq_true_iff_eq.
  rewrite (verdict_on_window older recent Hlen Hr).
  rewrite detectLeak_long by (rewrite length_app; lia).
  assert (Hw : slice_last 10 (older ++ recent) = recent)
    by (rewrite <- Hlen; apply slice_last_app).
  rewrite Hw.
  rewrite (Qgtb_proper _ _ _ (trend_refines _)), Qgtb_true. reflexivity.
Qed.

(** C1. For a log whose last ten samples hold byte counts below 2^44
    (16 TiB), whatever stands before them, the report flags a leak exactly
    when the least-squares slope of heapUsed over those ten samples, taken
    against the indices 0..9 by the formula
    (n·Σxy − Σx·Σy) / (n·Σx² − (Σx)²) with zero for a zero denominator,
    is strictly above 1 MiB = 1048576 bytes: on such readings every sum and
    product of the code is exact, and the one rounding of the quotient does
    not cross the threshold.  Ten such samples that grow by 2 MiB each have
    slope 2 MiB, the code computes exactly that, and they are flagged. *)
Theorem leak_iff_slope_above_threshold (m : Monitor)
    (older recent : list MemoryMeasurement)
    (Hlog : log m = older ++ recent)
    (Hten : length recent = 10%nat)
    (Hrange : Forall in_range (map heapUsed recent)) :
  (leakDetected (MemoryMonitor64.getReport m) = true
   <-> (inject_Z 1048576 < slope_spec (map heapUsed recent))%Q)
  /\ (forall b : Z,
        map heapUsed recent = ramp b (2 * MiB) ->
        (slope_spec (map heapUsed recent) == inject_Z (2 * MiB))%Q
        /\ (MemoryMonitor64.calculateTrend (map heapUsed recent)
            == inject_Z (2 * MiB))%Q
        /\ leakDetected (MemoryMonitor64.getReport m) = true).
Proof.
  assert (Hiff : leakDetected (MemoryMonitor64.getReport m) = true
     <-> (inject_Z 1048576 < slope_spec (map heapUsed recent))%Q).
  { rewrite report_leak64, Hlog. apply verdict_on_window; assumption. }
  split; [exact Hiff|].
  intros b Hramp.
  assert (Hslope : (slope_spec (map heapUsed recent) == inject_Z (2 * MiB))%Q)
    by (rewrite Hramp; apply slope_ramp).
  split; [exact Hslope|]. split.
  - assert (Hlen' : length (map heapUsed recent) = 10%nat)
      by (rewrite length_map; exact Hten).
    destruct (trend_on_window _ Hlen' Hrange) as [Ht _].
    rewrite Ht, <- (slope_on_window _ Hlen'), Hslope.
    apply fl_exact. reflexivity.
  - apply Hiff. rewrite Hslope. reflexivity.
Qed.

Lemma leak_iff_slope_above_threshold_witness :
  log ramp_monitor = [] ++ ramp_log
  /\ length ramp_log = 10%nat
  /\ Forall in_range (map heapUsed ramp_log)
  /\ leakDetected (MemoryMonitor64.getReport ramp_monitor) = true.
Proof.
  assert (Hlog : log ramp_monitor = [] ++ ramp_log) by reflexivity.
  assert (Hten : length ramp_log = 10%nat) by reflexivity.
  assert (Hr : Forall in_range (map heapUsed ramp_log)).
  { cbn. unfold in_range, MiB. repeat (constructor; [lia|]). constructor. }
  split; [exact Hlog|]. split; [exact Hten|]. split; [exact Hr|].
  apply (proj2 (leak_iff_slope_above_threshold ramp_monitor [] ramp_log
                  Hlog Hten Hr) (5 * MiB)).
  reflexivity.
Defined.

(** Ten readings one MiB apart, near 256 TiB. *)
Definition high_ramp_monitor : Monitor :=
  {| log := map (fun i => sample (1000 * i) (2 ^ 48 + 7 + MiB * i)) (indices 10);
     isMonitoring := false; intervalId := None; startTime := 0 |}.

(** Ten readings exactly one MiB apart, near 2^48: their slope is 1 MiB and
    not above it, yet the sums of the code are rounded there, its trend
    comes out above 1 MiB and a leak is reported. *)
Lemma leak_verdict_is_rounded :
  (10 <= length (log high_ramp_monitor))%nat
  /\ leakDetected (MemoryMonitor64.getReport high_ramp_monitor) = true
  /\ ~ (inject_Z 1048576
        < slope_spec (map heapUsed (slice_last 10 (log high_ramp_monitor))))%Q.
Proof.
  split; [cbn; lia|]. split; [vm_compute; reflexivity|].
  vm_compute. discriminate.
Qed.

(** *** The verdict on any log *)

Lemma slice_last_split {A} (k : nat) (l : list A) :
  l = take (length l - k) l ++ slice_last k l.
Proof. unfold slice_last. symmetry. apply take_drop. Qed.

(** Where the last ten readings are byte counts in range, the code's verdict
    is the one computed without rounding. *)
Lemma detectLeak_agrees (ms : list MemoryMeasurement) :
  Forall in_range (map heapUsed (slice_last 10 ms)) ->
  MemoryMonitor64.detectLeak ms = MemoryMonitor.detectLeak ms.
Proof.
  intros Hr.
  destruct (Nat.ltb_spec (length ms) 10) as [Hlt|Hge].
  - unfold MemoryMonitor64.detectLeak, MemoryMonitor.detectLeak.
    destruct (Nat.ltb_spec (length ms) 10) as [_|Hge]; [reflexivity | lia].
  - pose proof (detectLeak_exact_window (take (length ms - 10) ms)
                  (slice_last 10 ms) (slice_last_length 10 ms Hge) Hr) as H.
    rewrite <- (slice_last_split 10 ms) in H. exact H.
Qed.

(** X1. On ten byte counts in range that form an arithmetic progression
    the code computes their step, exactly, as the trend; on ten equal
    readings it computes zero. *)
Theorem trend_of_progression (b d : Z)
    (Hrange : Forall in_range (progression b d 10)) :
  (MemoryMonitor64.calculateTrend (progression b d 10) == inject_Z d)%Q
  /\ (MemoryMonitor64.calculateTrend (progression b 0 10) == 0)%Q.
Proof.
  assert (Hb : in_range b /\ in_range (b + d * 9)).
  { unfold progression in Hrange. cbn in Hrange.
    repeat match goal with
           | H : Forall _ (_ :: _) |- _ => apply Forall_cons in H as [? H]
           end.
    split; [replace b with (b + d * 0) by lia; assumption | assumption]. }
  destruct Hb as [Hb0 Hb9]. unfold in_range in Hb0, Hb9.
  change (2 ^ 44) with 17592186044416 in *.
  assert (Hgen : forall d', Forall in_range (progression b d' 10) ->
                 Z.abs d' < 2 ^ 53 ->
                 (MemoryMonitor64.calculateTrend (progression b d' 10)
                  == inject_Z d')%Q).
  { intros d' Hr Hd'.
    assert (Hlen : length (progression b d' 10) = 10%nat) by reflexivity.
    destruct (trend_on_window _ Hlen Hr) as [Ht _].
    rewrite Ht, <- (slope_on_window _ Hlen), <- trend_refines.
    rewrite (proj1 (exact_trend_of_progression b d' 10 ltac:(lia))).
    apply fl_exact, Hd'. }
  split.
  - apply Hgen; [exact Hrange|]. change (2 ^ 53) with 9007199254740992. lia.
  - apply (Hgen 0); [|reflexivity].
    unfold progression. cbn. unfold in_range.
    change (2 ^ 44) with 17592186044416.
    repeat (constructor; [lia|]). constructor.
Qed.

Lemma trend_of_progression_witness :
  Forall in_range (progression 7 3 10)
  /\ (MemoryMonitor64.calculateTrend (progression 7 3 10) == inject_Z 3)%Q.
Proof.
  assert (H : Forall in_range (progression 7 3 10)).
  { cbn. unfold in_range. repeat (constructor; [lia|]). constructor. }
  split; [exact H|]. exact (proj1 (trend_of_progression 7 3 H)).
Defined.

(** X2. As long as the last ten readings are byte counts in range, the
    leak verdict depends on the heap readings only through their
    differences: two logs whose readings differ by one constant get the same
    verdict. *)
Theorem leak_verdict_ignores_offset (c : Z) (ms ms' : list MemoryMeasurement)
    (Hshift : map heapUsed ms' = map (Z.add c) (map heapUsed ms))
    (Hrange : Forall in_range (map heapUsed (slice_last 10 ms)))
    (Hrange' : Forall in_range (map heapUsed (slice_last 10 ms'))) :
  MemoryMonitor64.detectLeak ms' = MemoryMonitor64.detectLeak ms.
Proof.
  rewrite (detectLeak_agrees ms Hrange), (detectLeak_agrees ms' Hrange').
  apply (exact_verdict_ignores_offset c), Hshift.
Qed.

Lemma leak_verdict_ignores_offset_witness :
  let ms := map (fun i => sample 0 (5 * MiB * i)) (indices 10) in
  let ms' := map (fun i => sample 0 (100 + 5 * MiB * i)) (indices 10) in
  map heapUsed ms' = map (Z.add 100) (map heapUsed ms)
  /\ Forall in_range (map heapUsed (slice_last 10 ms))
  /\ Forall in_range (map heapUsed (slice_last 10 ms'))
  /\ MemoryMonitor64.detectLeak ms' = MemoryMonitor64.detectLeak ms.
Proof.
  cbv zeta.
  assert (H : map heapUsed (map (fun i => sample 0 (100 + 5 * MiB * i)) (indices 10))
              = map (Z.add 100)
                  (map heapUsed (map (fun i => sample 0 (5 * MiB * i)) (indices 10))))
    by reflexivity.
  assert (Hr : Forall in_range
                 (map heapUsed
                    (slice_last 10 (map (fun i => sample 0 (5 * MiB * i)) (indices 10))))).
  { cbn. unfold in_range, MiB. repeat (constructor; [lia|]). constructor. }
  assert (Hr' : Forall in_range
                  (map heapUsed
                     (slice_last 10
                        (map (fun i => sample 0 (100 + 5 * MiB * i)) (indices 10))))).
  { cbn. unfold in_range, MiB. repeat (constructor; [lia|]). constructor. }
  split; [exact H|]. split; [exact Hr|]. split; [exact Hr'|].
  exact (leak_verdict_ignores_offset 100 _ _ H Hr Hr').
Defined.

(** X3. When the last ten readings are byte counts in range and no step
    between consecutive ones exceeds 1 MiB, no leak is reported: in
    particular never on a window whose readings do not increase. *)
Theorem slow_growth_is_no_leak (ms : list MemoryMeasurement)
    (Hlen : (10 <= length ms)%nat)
    (Hrange : Forall in_range (map heapUsed (slice_last 10 ms)))
    (Hslow : Forall (fun d => d <= MiB) (steps (map heapUsed (slice_last 10 ms)))) :
  MemoryMonitor64.detectLeak ms = false.
Proof.
  rewrite (detectLeak_agrees ms Hrange).
  apply exact_slow_growth_is_no_leak; assumption.
Qed.

(** X4. When the last ten readings are byte counts in range and every step
    between consecutive ones is above 1 MiB, a leak is reported. *)
Theorem steady_growth_is_a_leak (ms : list MemoryMeasurement)
    (Hlen : (10 <= length ms)%nat)
    (Hrange : Forall in_range (map heapUsed (slice_last 10 ms)))
    (Hfast : Forall (fun d => MiB < d) (steps (map heapUsed (slice_last 10 ms)))) :
  MemoryMonitor64.detectLeak ms = true.
Proof.
  rewrite (detectLeak_agrees ms Hrange).
  apply exact_steady_growth_is_a_leak; assumption.
Qed.

Lemma slow_growth_is_no_leak_witness :
  (10 <= length falling_log)%nat
  /\ Forall in_range (map heapUsed (slice_last 10 falling_log))
  /\ Forall (fun d => d <= MiB) (steps (map heapUsed (slice_last 10 falling_log)))
  /\ MemoryMonitor64.detectLeak falling_log = false.
Proof.
  assert (Hlen : (10 <= length falling_log)%nat) by (simpl; lia).
  assert (Hr : Forall in_range (map heapUsed (slice_last 10 falling_log))).
  { cbn. unfold in_range, MiB. repeat (constructor; [lia|]). constructor. }
  assert (Hs : Forall (fun d => d <= MiB)
                 (steps (map heapUsed (slice_last 10 falling_log)))).
  { unfold steps. cbn. repeat (constructor; [unfold MiB; lia|]). constructor. }
  split; [exact Hlen|]. split; [exact Hr|]. split; [exact Hs|].
  exact (slow_growth_is_no_leak falling_log Hlen Hr Hs).
Defined.

Lemma steady_growth_is_a_leak_witness :
  (10 <= length ramp_log)%nat
  /\ Forall in_range (map heapUsed (slice_last 10 ramp_log))
  /\ Forall (fun d => MiB < d) (steps (map heapUsed (slice_last 10 ramp_log)))
  /\ MemoryMonitor64.detectLeak ramp_log = true.
Proof.
  assert (Hlen : (10 <= length ramp_log)%nat) by (simpl; lia).
  assert (Hr : Forall in_range (map heapUsed (slice_last 10 ramp_log))).
  { cbn. unfold in_range, MiB. repeat (constructor; [lia|]). constructor. }
  assert (Hs : Forall (fun d => MiB < d)
                 (steps (map heapUsed (slice_last 10 ramp_log)))).
  { unfold steps. cbn. repeat (constructor; [unfold MiB; lia|]). constructor. }
  split; [exact Hlen|]. split; [exact Hr|]. split; [exact Hs|].
  exact (steady_growth_is_a_leak ramp_log Hlen Hr Hs).
Defined.

(** *** The efficiency score *)

(** Byte counts a number holds exactly. *)
Definition byte_count (y : Z) : Prop := 0 <= y < 2 ^ 53.

Lemma subtract_exact (x y : Z) :
  byte_count x -> byte_count y ->
  subtract (inject_Z x) (inject_Z y) = inject_Z (x - y).
Proof.
  unfold byte_count. intros Hx Hy. unfold subtract.
  apply fl_integer; [rewrite inject_Z_minus; reflexivity | lia].
Qed.

Lemma report_fields (m : Monitor) :
  baseline (MemoryMonitor64.getReport m) = baseline (MemoryMonitor.getReport m)
  /\ current (MemoryMonitor64.getReport m) = current (MemoryMonitor.getReport m)
  /\ peak (MemoryMonitor64.getReport m) = peak (MemoryMonitor.getReport m)
  /\ growth (MemoryMonitor64.getReport m) = growth (MemoryMonitor.getReport m)
  /\ measurements (MemoryMonitor64.getReport m)
     = measurements (MemoryMonitor.getReport m).
Proof.
  unfold MemoryMonitor64.getReport, MemoryMonitor.getReport.
  destruct (log m); repeat split.
Qed.

Lemma efficiency64_unfold (m : Monitor) :
  peak (MemoryMonitor64.getReport m) <> baseline (MemoryMonitor64.getReport m) ->
  let r := MemoryMonitor64.getReport m in
  memoryEfficiency r
  = clamp01
      (subtract 1
         (divide (subtract (inject_Z (current r)) (inject_Z (baseline r)))
                 (subtract (inject_Z (peak r)) (inject_Z (baseline r))))).
Proof.
  unfold MemoryMonitor64.getReport. destruct (log m) as [|b rest] eqn:Hlog; simpl.
  - intros H; contradiction.
  - intros Hpk. unfold MemoryMonitor64.calculateMemoryEfficiency.
    destruct rest as [|c rest]; [simpl in Hpk; contradiction|].
    change (length (b :: c :: rest) <? 2)%nat with false. cbv iota zeta.
    apply Z.eqb_neq in Hpk. rewrite Hpk. reflexivity.
Qed.

Lemma efficiency64_flat (m : Monitor) :
  peak (MemoryMonitor64.getReport m) = baseline (MemoryMonitor64.getReport m) ->
  memoryEfficiency (MemoryMonitor64.getReport m) = 1%Q.
Proof.
  unfold MemoryMonitor64.getReport. destruct (log m) as [|b rest] eqn:Hlog; simpl.
  - reflexivity.
  - intros Hpk. unfold MemoryMonitor64.calculateMemoryEfficiency.
    destruct rest as [|c rest]; [reflexivity|].
    change (length (b :: c :: rest) <? 2)%nat with false. cbv iota zeta.
    apply Z.eqb_eq in Hpk. rewrite Hpk. reflexivity.
Qed.

Lemma report_in_range (m : Monitor) :
  log m <> [] -> Forall (fun s => byte_count (heapUsed s)) (log m) ->
  byte_count (baseline (MemoryMonitor.getReport m))
  /\ byte_count (current (MemoryMonitor.getReport m))
  /\ byte_count (peak (MemoryMonitor.getReport m)).
Proof.
  intros Hne Hr.
  assert (Hall : forall x, x ∈ map heapUsed (log m) -> byte_count x).
  { intros x Hx. apply list_elem_of_fmap in Hx as (s & -> & Hs).
    rewrite Forall_forall in Hr. apply Hr, Hs. }
  unfold MemoryMonitor.getReport. destruct (log m) as [|b rest] eqn:E;
    [contradiction|].
  cbn [baseline current peak]. split; [|split].
  - apply Hall. left.
  - apply Hall. apply list_elem_of_fmap_2. apply last_of_elem.
  - apply Hall. apply (Math_max_is_maximum (heapUsed b) (map heapUsed rest)).
Qed.

Lemma clamp01_close (a b d : Q) :
  (Qabs (a - b) <= d)%Q -> (Qabs (clamp01 a - clamp01 b) <= d)%Q.
Proof.
  intros H. apply Qabs_Qle_condition in H. apply Qabs_Qle_condition.
  destruct (clamp01_clamped a) as (Ha1 & Ha2 & Ha3).
  destruct (clamp01_clamped b) as (Hb1 & Hb2 & Hb3).
  destruct (Qlt_le_dec a 0) as [Ha|Ha];
    [rewrite (Ha1 Ha)
    |destruct (Qlt_le_dec 1 a) as [Ha'|Ha'];
       [rewrite (Ha3 Ha') | rewrite (Ha2 Ha Ha')]];
    (destruct (Qlt_le_dec b 0) as [Hb|Hb];
       [rewrite (Hb1 Hb)
       |destruct (Qlt_le_dec 1 b) as [Hb'|Hb'];
          [rewrite (Hb3 Hb') | rewrite (Hb2 Hb Hb')]]);
    lra.
Qed.

Lemma clamp01_range (a : Q) : (0 <= clamp01 a <= 1)%Q.
Proof.
  destruct (clamp01_clamped a) as (Ha1 & Ha2 & Ha3).
  destruct (Qlt_le_dec a 0) as [Ha|Ha];
    [rewrite (Ha1 Ha)
    |destruct (Qlt_le_dec 1 a) as [Ha'|Ha'];
       [rewrite (Ha3 Ha') | rewrite (Ha2 Ha Ha')]]; lra.
Qed.

#[global] Instance clamp01_comp : Proper (Qeq ==> Qeq) clamp01.
Proof.
  intros a b Hab.
  assert (H : (Qabs (a - b) <= 0)%Q).
  { apply Qabs_Qle_condition. lra. }
  apply clamp01_close in H. apply Qabs_Qle_condition in H. lra.
Qed.

(** The quotient and the difference rounded, against the exact ones. *)
Lemma rounded_efficiency_close (g k : Z) :
  0 < k -> g <= k ->
  (Qabs (clamp01 (fl (1 - fl (inject_Z g / inject_Z k)))
         - clamp01 (1 - inject_Z g / inject_Z k))
   <= 2 * unit_roundoff)%Q.
Proof.
  intros Hk Hgk.
  pose proof (ratio_nonpositive g k Hk) as Hlow.
  assert (Hone : (inject_Z g / inject_Z k <= 1)%Q).
  { apply Qle_shift_div_r; [change 0%Q with (inject_Z 0); rewrite <- Zlt_Qlt; exact Hk|].
    rewrite Qmult_1_l, <- Zle_Qle. exact Hgk. }
  set (x := (inject_Z g / inject_Z k)%Q) in *.
  destruct (fl_between x) as [Hxp Hxn].
  set (fx := fl x) in *.
  destruct (fl_between (1 - fx)) as [Hyp Hyn].
  set (fy := fl (1 - fx)) in *.
  unfold unit_roundoff in *.
  destruct (Qlt_le_dec 0 x) as [Hx|Hx].
  - apply clamp01_close. apply Qabs_Qle_condition.
    destruct (Hxp (Qlt_le_weak _ _ Hx)) as [Hx1 Hx2].
    destruct (Qlt_le_dec (1 - fx) 0) as [Hy|Hy].
    + destruct (Hyn (Qlt_le_weak _ _ Hy)) as [Hy1 Hy2]. lra.
    + destruct (Hyp Hy) as [Hy1 Hy2]. lra.
  - destruct (Hxn Hx) as [Hx1 Hx2].
    assert (Hy : (0 <= 1 - fx)%Q) by lra.
    destruct (Hyp Hy) as [Hy1 Hy2].
    destruct (clamp01_clamped (1 - x)) as (_ & Hm & Hh).
    assert (E : (clamp01 (1 - x) == 1)%Q).
    { destruct (Qlt_le_dec 1 (1 - x)) as [H1|H1];
        [apply Hh, H1 | rewrite Hm; lra]. }
    rewrite E. pose proof (clamp01_range fy) as Hr.
    destruct (clamp01_clamped fy) as (Hf1 & Hf2 & Hf3).
    apply Qabs_Qle_condition.
    destruct (Qlt_le_dec 1 fy) as [H1|H1].
    + rewrite (Hf3 H1). lra.
    + rewrite Hf2 by lra. lra.
Qed.

(** Three samples with readings 0, 3 and 1. *)
Definition thirds_monitor : Monitor :=
  {| log := [sample 0 0; sample 1000 3; sample 2000 1];
     isMonitoring := false; intervalId := None; startTime := 0 |}.

(** C3. On a non-empty log of byte counts below 2^53 the report takes
    baseline from the first sample, current from the last and peak as the
    maximum heapUsed; the efficiency is 1 when peak equals baseline and
    otherwise 1 − (current − baseline) / (peak − baseline) with the quotient
    and then the difference each rounded to the nearest number, clamped to
    [0,1]; that is within 2^-52 of the formula evaluated exactly; with
    baseline 10 MiB and peak 50 MiB, current 10, 50 and 30 MiB give exactly
    1, 0 and 1/2. *)
Theorem efficiency_formula (m : Monitor) (Hne : log m <> [])
    (Hrange : Forall (fun s => byte_count (heapUsed s)) (log m)) :
  let r := MemoryMonitor64.getReport m in
  (heapUsed <$> head (log m) = Some (baseline r)
   /\ heapUsed <$> last (log m) = Some (current r)
   /\ is_maximum (peak r) (map heapUsed (log m)))
  /\ (peak r = baseline r -> memoryEfficiency r = 1%Q)
  /\ (peak r <> baseline r ->
      let quotient := (inject_Z (current r - baseline r)
                       / inject_Z (peak r - baseline r))%Q in
      clamped (fl (1 - fl quotient)) (memoryEfficiency r)
      /\ (Qabs (memoryEfficiency r - clamp01 (1 - quotient))
          <= 2 * unit_roundoff)%Q)
  /\ (baseline r = 10 * MiB -> peak r = 50 * MiB ->
      (current r = 10 * MiB -> (memoryEfficiency r == 1)%Q)
      /\ (current r = 50 * MiB -> (memoryEfficiency r == 0)%Q)
      /\ (current r = 30 * MiB -> (memoryEfficiency r == 1 # 2)%Q)).
Proof.
  intros r; subst r.
  destruct (report_fields m) as (Fb & Fc & Fp & _).
  destruct (report_in_range m Hne Hrange) as (Rb & Rc & Rp).
  rewrite <- Fb in Rb. rewrite <- Fc in Rc. rewrite <- Fp in Rp.
  split.
  { unfold MemoryMonitor64.getReport.
    destruct (log m) as [|b rest] eqn:E; [contradiction|].
    cbn [baseline current peak]. split; [reflexivity|]. split.
    - unfold last_of. rewrite (last_default b) by discriminate. reflexivity.
    - apply (Math_max_is_maximum (heapUsed b) (map heapUsed rest)). }
  split; [apply efficiency64_flat|].
  split.
  { intros Hpk. cbv zeta.
    pose proof (efficiency64_unfold m Hpk) as Hu. cbv zeta in Hu.
    assert (E : (memoryEfficiency (MemoryMonitor64.getReport m)
                 == clamp01 (fl (1 - fl
                      (inject_Z (current (MemoryMonitor64.getReport m)
                                 - baseline (MemoryMonitor64.getReport m))
                       / inject_Z (peak (MemoryMonitor64.getReport m)
                                   - baseline (MemoryMonitor64.getReport m))))))%Q).
    { rewrite Hu.
      rewrite (subtract_exact _ _ Rc Rb), (subtract_exact _ _ Rp Rb).
      reflexivity. }
    destruct (peak_bounds m) as [Hbp Hcp]. rewrite <- Fb, <- Fp in Hbp.
    rewrite <- Fc, <- Fp in Hcp.
    split.
    - destruct (clamp01_clamped
                  (fl (1 - fl
                     (inject_Z (current (MemoryMonitor64.getReport m)
                                - baseline (MemoryMonitor64.getReport m))
                      / inject_Z (peak (MemoryMonitor64.getReport m)
                                  - baseline (MemoryMonitor64.getReport m))))))
        as (H1 & H2 & H3).
      unfold clamped. rewrite E. repeat split; assumption.
    - rewrite E. apply rounded_efficiency_close; lia. }
  intros Hb Hp.
  assert (Hpk : peak (MemoryMonitor64.getReport m)
                <> baseline (MemoryMonitor64.getReport m))
    by (rewrite Hb, Hp; discriminate).
  pose proof (efficiency64_unfold m Hpk) as Hu. cbv zeta in Hu.
  rewrite Hu, Hb, Hp.
  repeat split; intros ->; vm_compute; reflexivity.
Qed.

Lemma efficiency_formula_witness :
  log sawtooth_monitor <> []
  /\ Forall (fun s => byte_count (heapUsed s)) (log sawtooth_monitor)
  /\ (memoryEfficiency (MemoryMonitor64.getReport sawtooth_monitor) == 1 # 2)%Q.
Proof.
  assert (H : log sawtooth_monitor <> []) by discriminate.
  assert (Hr : Forall (fun s => byte_count (heapUsed s)) (log sawtooth_monitor)).
  { cbn. unfold byte_count, MiB. repeat (constructor; [cbn; lia|]). constructor. }
  split; [exact H|]. split; [exact Hr|].
  apply (proj2 (proj2 (proj2 (efficiency_formula sawtooth_monitor H Hr))));
    reflexivity.
Defined.

(** With readings 0, 3 and 1 the formula gives 2/3, which no number holds:
    the efficiency reported is what the two roundings leave and differs
    from 2/3. *)
Lemma efficiency_is_rounded :
  let r := MemoryMonitor64.getReport thirds_monitor in
  log thirds_monitor <> []
  /\ peak r <> baseline r
  /\ ~ (memoryEfficiency r
        == clamp01 (1 - inject_Z (current r - baseline r)
                        / inject_Z (peak r - baseline r)))%Q.
Proof.
  cbv zeta. split; [discriminate|]. split; [discriminate|].
  vm_compute. discriminate.
Qed.

(** *** The growth rate *)

(** A quotient by a rounded divisor, rounded: [G / T] with [T] rounded first
    is off by at most three roundings. *)
Lemma rounded_rate_close (G T : Q) :
  (0 < T)%Q ->
  (0 < fl T)%Q
  /\ (Qabs (fl (G / fl T) * T - G) <= 3 * unit_roundoff * Qabs G)%Q
  /\ ((0 < G)%Q <-> (0 < fl (G / fl T))%Q)
  /\ ((G < 0)%Q <-> (fl (G / fl T) < 0)%Q).
Proof.
  intros HT.
  pose proof (fl_pos T HT) as Ht.
  destruct (proj1 (fl_between T) (Qlt_le_weak _ _ HT)) as [Ht1 Ht2].
  set (t := fl T) in *.
  set (rho := (G / t)%Q).
  assert (Hrho : (rho * t == G)%Q) by (unfold rho; field; lra).
  destruct (fl_between rho) as [Hp Hn].
  set (r := fl rho) in *.
  set (P := (rho * T)%Q).
  unfold unit_roundoff in *.
  split; [exact Ht|].
  destruct (Qlt_le_dec rho 0) as [Hneg|Hpos].
  - destruct (Hn (Qlt_le_weak _ _ Hneg)) as [Hr1 Hr2].
    assert (HG : (G < 0)%Q) by nra.
    assert (HP1 : ((1 + (1 # 9007199254740992)) * P <= r * T)%Q)
      by (unfold P; nra).
    assert (HP2 : (r * T <= (1 - (1 # 9007199254740992)) * P)%Q)
      by (unfold P; nra).
    assert (HP3 : ((1 + (1 # 9007199254740992)) * P <= G)%Q)
      by (unfold P; nra).
    assert (HP4 : (G <= (1 - (1 # 9007199254740992)) * P)%Q)
      by (unfold P; nra).
    clearbody P r.
    split.
    + rewrite (Qabs_neg G) by lra. apply Qabs_Qle_condition. lra.
    + split; split; intros H; lra.
  - destruct (Hp Hpos) as [Hr1 Hr2].
    assert (HG : (0 <= G)%Q) by nra.
    assert (HP1 : ((1 - (1 # 9007199254740992)) * P <= r * T)%Q)
      by (unfold P; nra).
    assert (HP2 : (r * T <= (1 + (1 # 9007199254740992)) * P)%Q)
      by (unfold P; nra).
    assert (HP3 : ((1 - (1 # 9007199254740992)) * P <= G)%Q)
      by (unfold P; nra).
    assert (HP4 : (G <= (1 + (1 # 9007199254740992)) * P)%Q)
      by (unfold P; nra).
    assert (Hrpos : (0 < G -> 0 < r)%Q).
    { intros HG'. assert (0 < rho)%Q by nra. lra. }
    assert (Hr0 : (0 < r -> 0 < G)%Q).
    { intros Hr'. assert (0 < rho)%Q by lra. nra. }
    clearbody P r.
    split.
    + rewrite (Qabs_pos G) by lra. apply Qabs_Qle_condition. lra.
    + split; split; intros H; try lra; auto.
Qed.

Definition stamped (s : MemoryMeasurement) : Prop :=
  byte_count (heapUsed s) /\ byte_count (timestamp s).

Lemma rate64_unfold (b c : MemoryMeasurement) (rest : list MemoryMeasurement) :
  let l := last_of b (b :: c :: rest) in
  MemoryMonitor64.calculateAverageGrowthRate (b :: c :: rest)
  = let timeDiff :=
      divide (subtract (inject_Z (timestamp l)) (inject_Z (timestamp b))) 1000 in
    let memoryDiff := subtract (inject_Z (heapUsed l)) (inject_Z (heapUsed b)) in
    if Qgtb timeDiff 0 then divide memoryDiff timeDiff else 0%Q.
Proof. reflexivity. Qed.

(** X7. On samples whose byte counts and timestamps are below 2^53 the
    average growth rate is growth per second of elapsed time up to rounding:
    multiplied by the elapsed milliseconds it is within three parts in 2^53
    of 1000 times the growth, and it has the sign of the growth; it is zero
    when the last timestamp is not after the first, which covers the empty
    and the one-sample log. *)
Theorem growth_rate_per_second (m : Monitor)
    (Hrange : Forall stamped (log m)) :
  let r := MemoryMonitor64.getReport m in
  (elapsedMs (log m) <= 0 -> (averageGrowthRate r == 0)%Q)
  /\ (0 < elapsedMs (log m) ->
      (Qabs (averageGrowthRate r * inject_Z (elapsedMs (log m))
             - inject_Z (1000 * growth r))
       <= 3 * unit_roundoff * Qabs (inject_Z (1000 * growth r)))%Q
      /\ (0 < growth r <-> (0 < averageGrowthRate r)%Q)
      /\ (growth r < 0 <-> (averageGrowthRate r < 0)%Q)).
Proof.
  cbv zeta. unfold MemoryMonitor64.getReport, elapsedMs.
  destruct (log m) as [|b rest] eqn:Hlog.
  - cbn. split; [reflexivity | lia].
  - cbn [averageGrowthRate growth current baseline].
    destruct rest as [|c rest].
    + cbn. split; [reflexivity | lia].
    + rewrite rate64_unfold. cbv zeta.
      assert (Hb : stamped b).
      { rewrite Forall_forall in Hrange. apply Hrange. left. }
      assert (Hl : stamped (last_of b (b :: c :: rest))).
      { rewrite Forall_forall in Hrange. apply Hrange. apply last_of_elem. }
      set (l := last_of b (b :: c :: rest)) in *.
      destruct Hb as [Hbh Hbt]. destruct Hl as [Hlh Hlt].
      rewrite (subtract_exact _ _ Hlt Hbt), (subtract_exact _ _ Hlh Hbh).
      set (dt := timestamp l - timestamp b).
      set (g := heapUsed l - heapUsed b).
      unfold divide.
      assert (HT : (inject_Z dt / 1000 == inject_Z dt * (1 # 1000))%Q)
        by reflexivity.
      split.
      * intros Hle.
        assert (Hn : (fl (inject_Z dt / 1000) <= 0)%Q).
        { apply fl_nonpos. rewrite HT.
          assert (inject_Z dt <= 0)%Q
            by (change 0%Q with (inject_Z 0); rewrite <- Zle_Qle; exact Hle).
          lra. }
        destruct (Qgtb (fl (inject_Z dt / 1000)) 0) eqn:E; [|reflexivity].
        apply Qgtb_true in E. lra.
      * intros Hpos.
        assert (HTpos : (0 < inject_Z dt / 1000)%Q).
        { rewrite HT.
          assert (0 < inject_Z dt)%Q
            by (change 0%Q with (inject_Z 0); rewrite <- Zlt_Qlt; exact Hpos).
          lra. }
        destruct (rounded_rate_close (inject_Z g) _ HTpos) as (Ht & He & Hs1 & Hs2).
        rewrite (proj2 (Qgtb_true _ _) Ht).
        set (rate := fl (inject_Z g / fl (inject_Z dt / 1000))) in *.
        split; [|split].
        -- rewrite inject_Z_mult.
           assert (E1 : (rate * inject_Z dt - inject_Z 1000 * inject_Z g
                         == 1000 * (rate * (inject_Z dt / 1000) - inject_Z g))%Q)
             by (field).
           rewrite E1, !Qabs_Qmult.
           change (Qabs 1000) with 1000%Q. change (Qabs (inject_Z 1000)) with 1000%Q.
           unfold unit_roundoff in *.
           set (A := Qabs (rate * (inject_Z dt / 1000) - inject_Z g)) in *.
           set (B := Qabs (inject_Z g)) in *. lra.
        -- rewrite <- Hs1. change 0%Q with (inject_Z 0). rewrite <- Zlt_Qlt.
           reflexivity.
        -- rewrite <- Hs2. change 0%Q with (inject_Z 0). rewrite <- Zlt_Qlt.
           reflexivity.
Qed.

(** Two samples nine milliseconds and nine MiB apart. *)
Definition burst_monitor : Monitor :=
  {| log := [sample 0 0; sample 9 (9 * MiB)];
     isMonitoring := false; intervalId := None; startTime := 0 |}.

Lemma growth_rate_per_second_witness :
  Forall stamped (log burst_monitor)
  /\ (0 < averageGrowthRate (MemoryMonitor64.getReport burst_monitor))%Q.
Proof.
  assert (H : Forall stamped (log burst_monitor)).
  { cbn. unfold stamped, byte_count, MiB.
    repeat (constructor; [cbn; lia|]). constructor. }
  split; [exact H|].
  apply (proj1 (proj2 (proj2 (growth_rate_per_second burst_monitor H)
                              ltac:(reflexivity)))).
  reflexivity.
Defined.

End MemoryMonitor64Proofs.

(* ===================================================================== *)
(** ** The sampler: the rest of the memory monitor class *)
(* ===================================================================== *)

Module Sampler.
Import MemoryMonitor.

Local Open Scope Z_scope.

(** [private thresholds] *)
Record Thresholds := {
  warningGrowth : Z;
  criticalGrowth : Z;
  maxBaseline : Z
}.

Definition initialThresholds : Thresholds :=
  {| warningGrowth := 50 * 1024 * 1024;
     criticalGrowth := 100 * 1024 * 1024;
     maxBaseline := 100 * 1024 * 1024 |}.

(** The argument of [setThresholds]: any key may be missing. *)
Record ThresholdsArg := {
  given_warningGrowth : option Z;
  given_criticalGrowth : option Z;
  given_maxBaseline : option Z
}.

Record Options := {
  intervalMs : Z;
  enableWarnings : bool;
  trackComponents : bool
}.

(** The argument of the constructor: any key may be missing. *)
Record OptionsArg := {
  given_intervalMs : option Z;
  given_enableWarnings : option bool;
  given_trackComponents : option bool
}.

Definition noOptions : OptionsArg :=
  {| given_intervalMs := None; given_enableWarnings := None;
     given_trackComponents := None |}.

(** [{ intervalMs: 1000, enableWarnings: true, trackComponents: true,
       ...options }] *)
Definition mergeOptions (arg : OptionsArg) : Options :=
  {| intervalMs := default 1000 (given_intervalMs arg);
     enableWarnings := default true (given_enableWarnings arg);
     trackComponents := default true (given_trackComponents arg) |}.

(** [process.memoryUsage()] *)
Record NodeMemory := {
  node_heapUsed : Z;
  node_heapTotal : Z;
  node_external : Z;
  node_arrayBuffers : Z
}.

(** [window.performance.memory] *)
Record BrowserMemory := {
  browser_usedJSHeapSize : Z;
  browser_totalJSHeapSize : Z;
  browser_jsHeapSizeLimit : Z
}.

(** The lengths of the four [document.querySelectorAll] results. *)
Record DomCounts := {
  reactElements : nat;
  terminalElements : nat;
  elementsWithListeners : nat;
  fileElements : nat
}.

(** What the host answers at one sampling instant: [Date.now()], and the
    memory interfaces and the document where the host has them. *)
Record Reading := {
  clock : Z;
  nodeMemory : option NodeMemory;
  browserMemory : option BrowserMemory;
  document : option DomCounts
}.

(** [getComponentCounts()] *)
Record ComponentCounts := {
  cc_componentCount : Z;
  cc_terminalCount : Z;
  cc_listenerCount : Q;
  cc_fileWatcherCount : Z;
  cc_streamReaderCount : Z
}.

Definition getComponentCounts (r : Reading) : ComponentCounts :=
  match document r with
  | None =>
      {| cc_componentCount := 0; cc_terminalCount := 0; cc_listenerCount := 0%Q;
         cc_fileWatcherCount := 0; cc_streamReaderCount := 0 |}
  | Some d =>
      {| cc_componentCount := Z.of_nat (reactElements d);
         cc_terminalCount := Z.of_nat (terminalElements d);
         cc_listenerCount :=
           (inject_Z (Z.of_nat (elementsWithListeners d)) * (5 # 2))%Q;
         cc_fileWatcherCount := Z.of_nat (fileElements d) / 10;
         cc_streamReaderCount := 0 |}
  end.

(** [{ timestamp: Date.now(), testPhase, ...this.getMemoryUsage(),
       ...(trackComponents ? this.getComponentCounts() : {}) }]:
    Node's counters when [process.memoryUsage] exists, else the browser's,
    else zeros. *)
Definition measure (phase : string) (track : bool) (r : Reading)
    : MemoryMeasurement :=
  let counts := if track then Some (getComponentCounts r) else None in
  let with_usage (used total ext buffers : Z) (limit jsUsed jsTotal : option Z) :=
    {| timestamp := clock r; heapUsed := used; heapTotal := total;
       external := ext; arrayBuffers := buffers;
       jsHeapSizeLimit := limit; usedJSHeapSize := jsUsed;
       totalJSHeapSize := jsTotal; testPhase := phase;
       componentCount := cc_componentCount <$> counts;
       terminalCount := cc_terminalCount <$> counts;
       listenerCount := cc_listenerCount <$> counts;
       fileWatcherCount := cc_fileWatcherCount <$> counts;
       streamReaderCount := cc_streamReaderCount <$> counts |} in
  match nodeMemory r, browserMemory r with
  | Some n, _ =>
      with_usage (node_heapUsed n) (node_heapTotal n) (node_external n)
        (node_arrayBuffers n) None None None
  | None, Some b =>
      with_usage (browser_usedJSHeapSize b) (browser_totalJSHeapSize b) 0 0
        (Some (browser_jsHeapSizeLimit b)) (Some (browser_usedJSHeapSize b))
        (Some (browser_totalJSHeapSize b))
  | None, None => with_usage 0 0 0 0 None None None
  end.

(** What the monitor prints; the byte counts stand for their formatted text. *)
Inductive Diagnostic :=
| AlreadyStarted
| Started
| Stopped
| Critical (growth : Z)
| Warning (used : Z)
| HighAbsolute (used : Z).

(** A monitor object with the intervals it has set and not cleared. *)
Record State := {
  monitor : Monitor;
  options : Options;
  thresholds : Thresholds;
  scheduled : gset nat;
  nextTimer : nat;
  console : list Diagnostic
}.

Definition with_monitor (f : Monitor -> Monitor) (s : State) : State :=
  {| monitor := f (monitor s); options := options s; thresholds := thresholds s;
     scheduled := scheduled s; nextTimer := nextTimer s; console := console s |}.

Definition print (ds : list Diagnostic) (s : State) : State :=
  {| monitor := monitor s; options := options s; thresholds := thresholds s;
     scheduled := scheduled s; nextTimer := nextTimer s;
     console := console s ++ ds |}.

(** [new MemoryMonitor(options)] *)
Definition create (arg : OptionsArg) : State :=
  {| monitor := newMonitor; options := mergeOptions arg;
     thresholds := initialThresholds; scheduled := ∅; nextTimer := 0;
     console := [] |}.

(** [checkThresholds(measurement)], on the log that already holds it. *)
Definition checkThresholds (t : Thresholds) (ms : list MemoryMeasurement)
    (m : MemoryMeasurement) : list Diagnostic :=
  match ms with
  | b :: _ :: _ =>
      let g := heapUsed m - heapUsed b in
      (if criticalGrowth t <? g then [Critical g]
       else if warningGrowth t <? g then [Warning (heapUsed m)]
       else [])
      ++ (if maxBaseline t <? heapUsed m then [HighAbsolute (heapUsed m)] else [])
  | _ => []
  end.

(** [recordMeasurement(testPhase)] *)
Definition recordMeasurement (phase : string) (r : Reading) (s : State) : State :=
  let m := measure phase (trackComponents (options s)) r in
  let s := with_monitor (MemoryMonitor.recordMeasurement m) s in
  if enableWarnings (options s)
  then print (checkThresholds (thresholds s) (log (monitor s)) m) s
  else s.

(** [startMonitoring(testPhase)]; [startNow] is the [Date.now()] stored as
    start time, [r] the reading of the first measurement. *)
Definition startMonitoring (phase : string) (startNow : Z) (r : Reading)
    (s : State) : State :=
  if isMonitoring (monitor s) then print [AlreadyStarted] s
  else
    let s :=
      with_monitor
        (fun m => {| log := []; isMonitoring := true;
                     intervalId := intervalId m; startTime := startNow |}) s in
    let s := recordMeasurement phase r s in
    let t := nextTimer s in
    let s :=
      {| monitor := {| log := log (monitor s); isMonitoring := true;
                       intervalId := Some t; startTime := startTime (monitor s) |};
         options := options s; thresholds := thresholds s;
         scheduled := {[t]} ∪ scheduled s; nextTimer := S t;
         console := console s |} in
    if enableWarnings (options s) then print [Started] s else s.

(** [stopMonitoring()] *)
Definition stopMonitoring (s : State) : State :=
  let s :=
    match intervalId (monitor s) with
    | Some t =>
        {| monitor := {| log := log (monitor s);
                         isMonitoring := isMonitoring (monitor s);
                         intervalId := None;
                         startTime := startTime (monitor s) |};
           options := options s; thresholds := thresholds s;
           scheduled := scheduled s ∖ {[t]}; nextTimer := nextTimer s;
           console := console s |}
    | None => s
    end in
  let s :=
    with_monitor
      (fun m => {| log := log m; isMonitoring := false;
                   intervalId := intervalId m; startTime := startTime m |}) s in
  if enableWarnings (options s) then print [Stopped] s else s.

(** One firing of the interval [t]: [this.recordMeasurement('monitoring')],
    nothing once the interval has been cleared. *)
Definition tick (t : nat) (r : Reading) (s : State) : State :=
  if bool_decide (t ∈ scheduled s) then recordMeasurement "monitoring" r s else s.

(** [takeSnapshot(label)] *)
Definition takeSnapshot (label : string) (r : Reading) (s : State)
    : MemoryMeasurement * State :=
  let m := measure ("snapshot-" ++ label) (trackComponents (options s)) r in
  (m, with_monitor (MemoryMonitor.recordMeasurement m) s).

(** [clear()] *)
Definition clear (s : State) : State := with_monitor MemoryMonitor.clear s.

(** [setThresholds(thresholds)] *)
Definition setThresholds (arg : ThresholdsArg) (s : State) : State :=
  {| monitor := monitor s; options := options s;
     thresholds :=
       {| warningGrowth :=
            default (warningGrowth (thresholds s)) (given_warningGrowth arg);
          criticalGrowth :=
            default (criticalGrowth (thresholds s)) (given_criticalGrowth arg);
          maxBaseline :=
            default (maxBaseline (thresholds s)) (given_maxBaseline arg) |};
     scheduled := scheduled s; nextTimer := nextTimer s; console := console s |}.

(** [withMemoryMonitoring(testFn, testName)]: [ticks] are the readings of
    the interval firings while the test is awaited; the test resolves at the
    reading [Some r] or rejects ([None]).  The report is there when the test
    resolved; the monitor is returned as the [finally] block leaves it. *)
Definition withMemoryMonitoring (testName : string) (startNow : Z)
    (startReading : Reading) (ticks : list Reading) (outcome : option Reading)
    : option MemoryReport * State :=
  let s := create noOptions in
  let s := startMonitoring ("start-" ++ testName) startNow startReading s in
  let s :=
    foldl (fun s r =>
             match intervalId (monitor s) with
             | Some t => tick t r s
             | None => s
             end) s ticks in
  match outcome with
  | Some r =>
      let s := recordMeasurement ("end-" ++ testName) r s in
      (Some (getReport (monitor s)), stopMonitoring s)
  | None => (None, stopMonitoring s)
  end.

(** What a client can do to a monitor. *)
Inductive Op :=
| OpStart (phase : string) (startNow : Z) (r : Reading)
| OpStop
| OpRecord (phase : string) (r : Reading)
| OpTick (t : nat) (r : Reading)
| OpSnapshot (label : string) (r : Reading)
| OpClear
| OpSetThresholds (arg : ThresholdsArg).

Definition exec (o : Op) (s : State) : State :=
  match o with
  | OpStart phase startNow r => startMonitoring phase startNow r s
  | OpStop => stopMonitoring s
  | OpRecord phase r => recordMeasurement phase r s
  | OpTick t r => tick t r s
  | OpSnapshot label r => (takeSnapshot label r s).2
  | OpClear => clear s
  | OpSetThresholds arg => setThresholds arg s
  end.

Definition run (ops : list Op) (s : State) : State := foldl (fun s o => exec o s) s ops.

(** The reading an operation takes, if it takes one. *)
Definition reading_of (o : Op) : option Reading :=
  match o with
  | OpStart _ _ r | OpRecord _ r | OpTick _ r | OpSnapshot _ r => Some r
  | _ => None
  end.

(** A host with neither [process.memoryUsage] nor [performance.memory]. *)
Definition no_memory_api (r : Reading) : Prop :=
  nodeMemory r = None /\ browserMemory r = None.

End Sampler.

(* ===================================================================== *)
(** ** Properties of the sampler *)
(* ===================================================================== *)

Module SamplerProofs.
Import MemoryMonitor MemoryMonitorProofs Sampler.

Local Open Scope Z_scope.

(** *** What recording changes *)

Lemma recordMeasurement_fields (phase : string) (r : Reading) (s : State) :
  log (monitor (recordMeasurement phase r s))
  = log (monitor s) ++ [measure phase (trackComponents (options s)) r]
  /\ isMonitoring (monitor (recordMeasurement phase r s)) = isMonitoring (monitor s)
  /\ intervalId (monitor (recordMeasurement phase r s)) = intervalId (monitor s)
  /\ startTime (monitor (recordMeasurement phase r s)) = startTime (monitor s)
  /\ scheduled (recordMeasurement phase r s) = scheduled s
  /\ nextTimer (recordMeasurement phase r s) = nextTimer s
  /\ options (recordMeasurement phase r s) = options s
  /\ thresholds (recordMeasurement phase r s) = thresholds s.
Proof.
  unfold recordMeasurement. cbn.
  destruct (enableWarnings (options s)); cbn; repeat split.
Qed.

Lemma startMonitoring_fields (phase : string) (startNow : Z) (r : Reading)
    (s : State) :
  isMonitoring (monitor s) = false ->
  monitor (startMonitoring phase startNow r s)
  = {| log := [measure phase (trackComponents (options s)) r];
       isMonitoring := true; intervalId := Some (nextTimer s);
       startTime := startNow |}
  /\ scheduled (startMonitoring phase startNow r s) = {[nextTimer s]} ∪ scheduled s
  /\ nextTimer (startMonitoring phase startNow r s) = S (nextTimer s)
  /\ options (startMonitoring phase startNow r s) = options s
  /\ thresholds (startMonitoring phase startNow r s) = thresholds s.
Proof.
  intros Hmon. unfold startMonitoring, recordMeasurement. rewrite Hmon. cbn.
  destruct (enableWarnings (options s)) eqn:E; cbn; rewrite ?E; cbn;
    repeat split.
Qed.

(** *** The interval the monitor owns *)

(** The monitor is monitoring exactly while it holds an interval, and the
    intervals it has set and not cleared are that one interval. *)
Definition timer_discipline (s : State) : Prop :=
  (isMonitoring (monitor s) = true <-> is_Some (intervalId (monitor s)))
  /\ scheduled s
     = match intervalId (monitor s) with Some t => {[t]} | None => ∅ end.

Lemma exec_timer_discipline (o : Op) (s : State) :
  timer_discipline s -> timer_discipline (exec o s).
Proof.
  intros [Hiff Hsched]. unfold timer_discipline.
  destruct o as [phase startNow r| |phase r|t r|label r| |arg]; cbn [exec].
  - unfold startMonitoring.
    destruct (isMonitoring (monitor s)) eqn:Hmon;
      [cbn; rewrite Hmon; split; assumption|].
    assert (Hnone : intervalId (monitor s) = None).
    { destruct (intervalId (monitor s)) eqn:E; [|reflexivity].
      destruct Hiff as [_ Hback]. discriminate Hback. eauto. }
    rewrite Hnone in Hsched.
    match goal with
    | |- context [recordMeasurement phase r ?s0] =>
        destruct (recordMeasurement_fields phase r s0)
          as (_ & _ & _ & _ & Hs & _ & Ho & _)
    end.
    cbn in Hs, Ho.
    destruct (enableWarnings (options _)); cbn; rewrite Hs, Hsched;
      (split; [split; eauto | apply union_empty_r_L]).
  - unfold stopMonitoring.
    destruct (intervalId (monitor s)) as [t|] eqn:E.
    + destruct (enableWarnings _); cbn; rewrite Hsched;
        (split; [split; [discriminate | intros [? ?]; discriminate]
                | apply difference_diag_L]).
    + destruct (enableWarnings _); cbn; rewrite E;
        (split; [split; [discriminate | intros [? ?]; discriminate]
                | exact Hsched]).
  - destruct (recordMeasurement_fields phase r s)
      as (_ & -> & -> & _ & -> & _). split; assumption.
  - unfold tick. case_bool_decide; [|split; assumption].
    destruct (recordMeasurement_fields "monitoring" r s)
      as (_ & -> & -> & _ & -> & _). split; assumption.
  - cbn. split; assumption.
  - cbn. split; assumption.
  - cbn. split; assumption.
Qed.

(** X9. However a monitor is driven, it is monitoring exactly while it
    holds an interval handle, the intervals it has set and not yet cleared
    are that one handle (or none), and after [stopMonitoring] none is left
    scheduled. *)
Theorem sampler_owns_one_interval (arg : OptionsArg) (ops : list Op) :
  let s := run ops (create arg) in
  timer_discipline s
  /\ (size (scheduled s) <= 1)%nat
  /\ scheduled (stopMonitoring s) = ∅
  /\ isMonitoring (monitor (stopMonitoring s)) = false.
Proof.
  cbv zeta.
  assert (Hinv : timer_discipline (run ops (create arg))).
  { unfold run.
    assert (Hgen : forall s, timer_discipline s ->
                     timer_discipline (foldl (fun s o => exec o s) s ops)).
    { induction ops as [|o ops IH]; intros s Hs; [exact Hs|].
      apply IH, exec_timer_discipline, Hs. }
    apply Hgen. split; [|reflexivity].
    split; [discriminate | intros [? ?]; discriminate]. }
  split; [exact Hinv|].
  set (s := run ops (create arg)) in *.
  split.
  { destruct Hinv as [_ ->]. destruct (intervalId (monitor s)).
    - rewrite size_singleton. lia.
    - rewrite size_empty. lia. }
  destruct (exec_timer_discipline OpStop s Hinv) as [_ Hsched].
  cbn [exec] in Hsched. split.
  - rewrite Hsched. unfold stopMonitoring.
    destruct (intervalId (monitor s)) eqn:E; destruct (enableWarnings _);
      cbn; rewrite ?E; reflexivity.
  - unfold stopMonitoring.
    destruct (intervalId (monitor s)); destruct (enableWarnings _); reflexivity.
Qed.

(** *** Diagnostics are advisory *)

Definition same_sampling (s s' : State) : Prop :=
  monitor s = monitor s'
  /\ scheduled s = scheduled s'
  /\ nextTimer s = nextTimer s'
  /\ trackComponents (options s) = trackComponents (options s').

Lemma recordMeasurement_same (phase : string) (r : Reading) (s s' : State) :
  same_sampling s s' ->
  same_sampling (recordMeasurement phase r s) (recordMeasurement phase r s').
Proof.
  intros (Hm & Hs & Hn & Ht). unfold same_sampling, recordMeasurement. cbn.
  destruct (enableWarnings (options s)), (enableWarnings (options s')); cbn;
    rewrite Hm, Ht; auto.
Qed.

Lemma exec_same (o : Op) (s s' : State) :
  same_sampling s s' -> same_sampling (exec o s) (exec o s').
Proof.
  intros H. pose proof H as (Hm & Hs & Hn & Ht).
  destruct o as [phase startNow r| |phase r|t r|label r| |arg]; cbn [exec].
  - destruct (isMonitoring (monitor s)) eqn:Hmon.
    + unfold startMonitoring. rewrite <- Hm, Hmon. exact H.
    + assert (Hmon' : isMonitoring (monitor s') = false) by (rewrite <- Hm; exact Hmon).
      destruct (startMonitoring_fields phase startNow r s Hmon)
        as (Ha & Hb & Hc & Hd & _).
      destruct (startMonitoring_fields phase startNow r s' Hmon')
        as (Ha' & Hb' & Hc' & Hd' & _).
      unfold same_sampling. rewrite Ha, Ha', Hb, Hb', Hc, Hc', Hd, Hd'.
      rewrite Hs, Hn, Ht. auto.
  - unfold stopMonitoring. rewrite <- Hm.
    destruct (intervalId (monitor s));
      destruct (enableWarnings (options _));
      destruct (enableWarnings (options _));
      unfold same_sampling; cbn; rewrite <- ?Hm, ?Hs; auto.
  - apply recordMeasurement_same, H.
  - unfold tick. rewrite <- Hs. case_bool_decide; [|exact H].
    apply recordMeasurement_same, H.
  - unfold same_sampling. cbn. rewrite Hm, Ht. auto.
  - unfold same_sampling. cbn. rewrite Hm. auto.
  - unfold same_sampling. cbn. auto.
Qed.

(** X10. Warnings and thresholds are advisory: two monitors created with
    the same [trackComponents] choice and driven by the same operations,
    where any threshold settings of one are replaced by others in the other,
    end with the same log, flags and interval, so with the same report,
    whatever [enableWarnings] is for each. *)
Theorem diagnostics_do_not_change_the_log (arg arg' : OptionsArg)
    (ops ops' : list Op)
    (Htrack : default true (given_trackComponents arg)
              = default true (given_trackComponents arg'))
    (Hops : Forall2 (fun o o' =>
                       o = o' \/ exists a a', o = OpSetThresholds a
                                              /\ o' = OpSetThresholds a')
              ops ops') :
  monitor (run ops (create arg)) = monitor (run ops' (create arg'))
  /\ getReport (monitor (run ops (create arg)))
     = getReport (monitor (run ops' (create arg'))).
Proof.
  assert (Hgen : forall s s', same_sampling s s' ->
                   same_sampling (run ops s) (run ops' s')).
  { unfold run. induction Hops as [|o o' ops ops' Ho _ IH]; intros s s' Hs;
      [exact Hs|].
    cbn. apply IH. destruct Ho as [->|(a & a' & -> & ->)].
    - apply exec_same, Hs.
    - destruct Hs as (Hm & Hsc & Hn & Ht). unfold same_sampling. cbn. auto. }
  assert (H0 : same_sampling (create arg) (create arg')).
  { unfold same_sampling. cbn. auto. }
  destruct (Hgen _ _ H0) as (Hm & _). split; [exact Hm | rewrite Hm; reflexivity].
Qed.

Definition quietOptions : OptionsArg :=
  {| given_intervalMs := Some 250; given_enableWarnings := Some false;
     given_trackComponents := None |}.

Definition nodeReading (t used : Z) : Reading :=
  {| clock := t;
     nodeMemory := Some {| node_heapUsed := used; node_heapTotal := 2 * used;
                           node_external := 0; node_arrayBuffers := 0 |};
     browserMemory := None; document := None |}.

Definition loosen : ThresholdsArg :=
  {| given_warningGrowth := Some 1; given_criticalGrowth := None;
     given_maxBaseline := Some 1 |}.

Definition tighten : ThresholdsArg :=
  {| given_warningGrowth := None; given_criticalGrowth := Some 2;
     given_maxBaseline := None |}.

Lemma diagnostics_do_not_change_the_log_witness :
  let ops := [OpSetThresholds loosen; OpStart "run" 0 (nodeReading 0 (10 * MiB));
              OpTick 0 (nodeReading 1000 (300 * MiB)); OpStop] in
  let ops' := [OpSetThresholds tighten; OpStart "run" 0 (nodeReading 0 (10 * MiB));
               OpTick 0 (nodeReading 1000 (300 * MiB)); OpStop] in
  console (run ops (create noOptions)) <> console (run ops' (create quietOptions))
  /\ monitor (run ops (create noOptions)) = monitor (run ops' (create quietOptions)).
Proof.
  cbv zeta. split; [vm_compute; discriminate|].
  refine (proj1 (diagnostics_do_not_change_the_log noOptions quietOptions _ _ _ _)).
  - reflexivity.
  - constructor; [right; eauto|].
    repeat (constructor; [left; reflexivity|]). constructor.
Defined.

(** *** A host without memory interfaces *)

Lemma measure_without_api (phase : string) (track : bool) (r : Reading) :
  no_memory_api r -> heapUsed (measure phase track r) = 0.
Proof. intros [Hn Hb]. unfold measure. rewrite Hn, Hb. reflexivity. Qed.

Lemma exec_zero_log (o : Op) (s : State) :
  (forall r, reading_of o = Some r -> no_memory_api r) ->
  Forall (fun m => heapUsed m = 0) (log (monitor s)) ->
  Forall (fun m => heapUsed m = 0) (log (monitor (exec o s))).
Proof.
  intros Hr Hlog.
  assert (Hrec : forall phase r, no_memory_api r ->
            Forall (fun m => heapUsed m = 0)
              (log (monitor (recordMeasurement phase r s)))).
  { intros phase r Hno.
    destruct (recordMeasurement_fields phase r s) as (-> & _).
    apply Forall_app. split; [exact Hlog|].
    repeat constructor. apply measure_without_api, Hno. }
  destruct o as [phase startNow r| |phase r|t r|label r| |arg]; cbn [exec].
  - destruct (isMonitoring (monitor s)) eqn:Hmon.
    + unfold startMonitoring. rewrite Hmon. exact Hlog.
    + destruct (startMonitoring_fields phase startNow r s Hmon) as (-> & _).
      cbn. repeat constructor. apply measure_without_api, Hr. reflexivity.
  - unfold stopMonitoring.
    destruct (intervalId (monitor s)); destruct (enableWarnings _); exact Hlog.
  - apply Hrec, Hr. reflexivity.
  - unfold tick. case_bool_decide; [|exact Hlog]. apply Hrec, Hr. reflexivity.
  - cbn. apply Forall_app. split; [exact Hlog|].
    repeat constructor. apply measure_without_api, Hr. reflexivity.
  - cbn. constructor.
  - exact Hlog.
Qed.

Lemma fold_max_zeros (xs : list Z) :
  Forall (fun x => x = 0) xs -> fold_left Z.max xs 0 = 0.
Proof.
  induction 1 as [|x xs Hx _ IH]; [reflexivity|]. cbn. rewrite Hx. exact IH.
Qed.

Lemma zero_log_report (m : Monitor) :
  Forall (fun x => heapUsed x = 0) (log m) ->
  baseline (getReport m) = 0 /\ current (getReport m) = 0
  /\ peak (getReport m) = 0 /\ growth (getReport m) = 0
  /\ leakDetected (getReport m) = false
  /\ memoryEfficiency (getReport m) = 1%Q.
Proof.
  intros Hzero.
  assert (Hb : baseline (getReport m) = 0).
  { unfold getReport. destruct (log m) as [|b rest]; [reflexivity|].
    cbn. apply Forall_cons in Hzero as [Hb0 _]. exact Hb0. }
  assert (Hp : peak (getReport m) = 0).
  { unfold getReport. destruct (log m) as [|b rest]; [reflexivity|].
    cbn. apply Forall_cons in Hzero as [Hb0 Hrest]. rewrite Hb0.
    apply fold_max_zeros. apply Forall_fmap. exact Hrest. }
  assert (Hc : current (getReport m) = 0).
  { clear Hb Hp. unfold getReport.
    destruct (log m) as [|b rest]; [reflexivity|].
    cbn [current]. rewrite Forall_forall in Hzero. apply Hzero.
    apply TrendProofs.last_of_elem. }
  split; [exact Hb|]. split; [exact Hc|]. split; [exact Hp|].
  split.
  { clear Hp. unfold getReport in *. destruct (log m); cbn in *; lia. }
  split; [|apply efficiency_flat; rewrite Hp, Hb; reflexivity].
  rewrite report_leak.
  destruct (Nat.ltb_spec (length (log m)) 10) as [Hlt|Hge].
  - unfold detectLeak. apply Nat.ltb_lt in Hlt. rewrite Hlt. reflexivity.
  - destruct (TrendProofs.window_of_ten (log m) Hge)
      as (y0 & y1 & y2 & y3 & y4 & y5 & y6 & y7 & y8 & y9 & Hwin).
    assert (Hz : Forall (fun x => x = 0) [y0; y1; y2; y3; y4; y5; y6; y7; y8; y9]).
    { rewrite <- Hwin. apply Forall_fmap. unfold slice_last.
      apply Forall_drop. exact Hzero. }
    repeat match goal with
           | H : Forall _ (_ :: _) |- _ => apply Forall_cons in H as [? H]
           end.
    subst. apply not_true_is_false. intros Hleak.
    apply (TrendProofs.detectLeak_window (log m) _ _ _ _ _ _ _ _ _ _ Hge Hwin)
      in Hleak.
    unfold MiB in Hleak. lia.
Qed.

(** X11. In a host that offers neither [process.memoryUsage] nor
    [performance.memory], however the monitor is driven, every report shows
    baseline, current, peak and growth 0, no leak and efficiency 1. *)
Theorem report_without_memory_api (arg : OptionsArg) (ops : list Op)
    (Hhost : Forall (fun o => forall r, reading_of o = Some r -> no_memory_api r)
               ops) :
  let rep := getReport (monitor (run ops (create arg))) in
  baseline rep = 0 /\ current rep = 0 /\ peak rep = 0 /\ growth rep = 0
  /\ leakDetected rep = false /\ memoryEfficiency rep = 1%Q.
Proof.
  cbv zeta. apply zero_log_report.
  assert (Hgen : forall s, Forall (fun m => heapUsed m = 0) (log (monitor s)) ->
            Forall (fun m => heapUsed m = 0) (log (monitor (run ops s)))).
  { unfold run. induction Hhost as [|o ops Ho _ IH]; intros s Hs; [exact Hs|].
    cbn. apply IH, exec_zero_log; assumption. }
  apply Hgen. constructor.
Qed.

Definition bareReading (t : Z) : Reading :=
  {| clock := t; nodeMemory := None; browserMemory := None;
     document := Some {| reactElements := 40; terminalElements := 2;
                         elementsWithListeners := 7; fileElements := 35 |} |}.

Lemma report_without_memory_api_witness :
  let ops := [OpStart "baseline" 0 (bareReading 0); OpTick 0 (bareReading 1000);
              OpRecord "end" (bareReading 1500); OpStop] in
  Forall (fun o => forall r, reading_of o = Some r -> no_memory_api r) ops
  /\ length (log (monitor (run ops (create noOptions)))) = 3%nat
  /\ peak (getReport (monitor (run ops (create noOptions)))) = 0.
Proof.
  cbv zeta.
  assert (H : Forall (fun o => forall r, reading_of o = Some r -> no_memory_api r)
                [OpStart "baseline" 0 (bareReading 0); OpTick 0 (bareReading 1000);
                 OpRecord "end" (bareReading 1500); OpStop]).
  { repeat (constructor;
              [intros r Hr; inversion Hr; subst; split; reflexivity|]).
    constructor. }
  split; [exact H|]. split; [reflexivity|].
  exact (proj1 (proj2 (proj2 (report_without_memory_api noOptions _ H)))).
Defined.

(** *** A monitored test run *)

Lemma ticks_fields (t : nat) (ticks : list Reading) (s : State) :
  intervalId (monitor s) = Some t -> t ∈ scheduled s ->
  let s' :=
    foldl (fun s r =>
             match intervalId (monitor s) with
             | Some t => tick t r s
             | None => s
             end) s ticks in
  log (monitor s')
  = log (monitor s) ++ map (measure "monitoring" (trackComponents (options s))) ticks
  /\ intervalId (monitor s') = Some t
  /\ scheduled s' = scheduled s
  /\ options s' = options s.
Proof.
  revert s. induction ticks as [|r ticks IH]; intros s Hid Hin; cbv zeta.
  - cbn. rewrite app_nil_r. auto.
  - assert (Hstep : match intervalId (monitor s) with
                    | Some t => tick t r s
                    | None => s
                    end = recordMeasurement "monitoring" r s).
    { rewrite Hid. unfold tick. rewrite bool_decide_eq_true_2 by exact Hin.
      reflexivity. }
    cbn [foldl]. rewrite Hstep.
    destruct (recordMeasurement_fields "monitoring" r s)
      as (Hl & _ & Hi & _ & Hs & _ & Ho & _).
    destruct (IH (recordMeasurement "monitoring" r s)) as (Hl' & Hi' & Hs' & Ho').
    { rewrite Hi. exact Hid. }
    { rewrite Hs. exact Hin. }
    split; [|split; [exact Hi'|split]].
    + rewrite Hl', Hl, Ho, <- app_assoc. reflexivity.
    + rewrite Hs'. exact Hs.
    + rewrite Ho'. exact Ho.
Qed.

Lemma stopMonitoring_fields (s : State) :
  intervalId (monitor s) = Some (nextTimer (create noOptions)) ->
  scheduled s = {[nextTimer (create noOptions)]} ∪ ∅ ->
  isMonitoring (monitor (stopMonitoring s)) = false
  /\ intervalId (monitor (stopMonitoring s)) = None
  /\ scheduled (stopMonitoring s) = ∅
  /\ log (monitor (stopMonitoring s)) = log (monitor s).
Proof.
  intros Hid Hs. unfold stopMonitoring. rewrite Hid.
  destruct (enableWarnings _); cbn; rewrite Hs; repeat split; set_solver.
Qed.

(** X12. [withMemoryMonitoring] always leaves its monitor stopped, with no
    interval scheduled, whether the test resolves or rejects.  When the test
    resolves, the report holds the start sample, one sample per interval
    firing during the test and the end sample, in that order, and its growth
    is the end reading minus the start reading; when it rejects there is no
    report. *)
Theorem monitored_run_report (testName : string) (startNow : Z)
    (startReading : Reading) (ticks : list Reading) (outcome : option Reading) :
  let res := withMemoryMonitoring testName startNow startReading ticks outcome in
  let first := measure ("start-" ++ testName) true startReading in
  (isMonitoring (monitor res.2) = false
   /\ intervalId (monitor res.2) = None
   /\ scheduled res.2 = ∅)
  /\ match outcome with
     | Some r =>
         let final := measure ("end-" ++ testName) true r in
         exists rep,
           res.1 = Some rep
           /\ measurements rep
              = first :: map (measure "monitoring" true) ticks ++ [final]
           /\ baseline rep = heapUsed first
           /\ current rep = heapUsed final
           /\ growth rep = heapUsed final - heapUsed first
     | None => res.1 = None
     end.
Proof.
  cbv zeta. unfold withMemoryMonitoring.
  destruct (startMonitoring_fields ("start-" ++ testName) startNow startReading
              (create noOptions) eq_refl) as (Hm & Hs & _ & Ho & _).
  set (s1 := startMonitoring ("start-" ++ testName) startNow startReading
               (create noOptions)) in *.
  assert (Hid1 : intervalId (monitor s1) = Some (nextTimer (create noOptions)))
    by (rewrite Hm; reflexivity).
  assert (Hin1 : nextTimer (create noOptions) ∈ scheduled s1)
    by (rewrite Hs; set_solver).
  destruct (ticks_fields _ ticks s1 Hid1 Hin1) as (Hl2 & Hid2 & Hs2 & Ho2).
  set (s2 := foldl _ s1 ticks) in *.
  rewrite Hm in Hl2. cbn [log] in Hl2. rewrite Ho in Hl2, Ho2.
  change (trackComponents (options (create noOptions))) with true in Hl2.
  rewrite Hs in Hs2.
  destruct outcome as [r|].
  - destruct (recordMeasurement_fields ("end-" ++ testName) r s2)
      as (Hl3 & _ & Hid3 & _ & Hs3 & _).
    rewrite Ho2 in Hl3.
    change (trackComponents (options (create noOptions))) with true in Hl3.
    set (s3 := recordMeasurement ("end-" ++ testName) r s2) in *.
    rewrite Hid2 in Hid3. rewrite Hs2 in Hs3.
    destruct (stopMonitoring_fields s3 Hid3 Hs3) as (Ha & Hb & Hc & _).
    cbn [fst snd]. split; [auto|].
    eexists. split; [reflexivity|].
    unfold getReport. rewrite Hl3, Hl2. cbn [app].
    cbn [measurements baseline current growth].
    assert (Hlast : last_of (measure ("start-" ++ testName) true startReading)
              (measure ("start-" ++ testName) true startReading
               :: (map (measure "monitoring" true) ticks
                   ++ [measure ("end-" ++ testName) true r]))
            = measure ("end-" ++ testName) true r).
    { unfold last_of.
      change (?a :: ?l ++ [?b]) with ((a :: l) ++ [b]).
      apply last_last. }
    rewrite Hlast. auto.
  - destruct (stopMonitoring_fields s2 Hid2 Hs2) as (Ha & Hb & Hc & _).
    cbn [fst snd]. auto.
Qed.

End SamplerProofs.

(* ===================================================================== *)
(** ** More on the fallback watch coordinator *)
(* ===================================================================== *)

Module WatcherProofs.
Import FileWatcher FileWatcherProofs.

(** *** The stored flag *)

(** X13. Where local storage can be read and written, the flag that
    [saveFallbackState] stores is the flag [tryLoadFallbackState] reads back;
    where storage is missing or refuses the write, saving changes nothing and
    raises nothing, and a missing or unreadable storage loads as false. *)
Theorem fallback_flag_round_trip (b : bool) (w : World) :
  (storage_usable (localStorage w) →
   tryLoadFallbackState (localStorage (saveFallbackState b w)) = b)
  ∧ (localStorage w = None → saveFallbackState b w = w)
  ∧ (∀ st, localStorage w = Some st → setItem_throws st = true →
           saveFallbackState b w = w)
  ∧ tryLoadFallbackState None = false
  ∧ (∀ st, getItem_throws st = true → tryLoadFallbackState (Some st) = false).
Proof.
  split.
  { intros (st & Hls & Hg & Hs). unfold saveFallbackState. rewrite Hls, Hs. cbn.
    rewrite Hg, lookup_insert_eq. destruct b; reflexivity. }
  split.
  { intros Hls. unfold saveFallbackState. rewrite Hls. reflexivity. }
  split.
  { intros st Hls Hs. unfold saveFallbackState. rewrite Hls, Hs. reflexivity. }
  split; [reflexivity|].
  intros st Hg. unfold tryLoadFallbackState. rewrite Hg. reflexivity.
Qed.

(** *** Starting and stopping the shared poll *)

Lemma ensurePollingActive_started (w : World) :
  disposed (state w) = false → pollingInterval (state w) = None →
  pollingInterval (state (ensurePollingActive w)) = Some (nextId w)
  ∧ activeIntervals (ensurePollingActive w)
    = <[nextId w := SharedPoll]> (activeIntervals w)
  ∧ window (ensurePollingActive w)
    = (λ l, l ++ [("beforeunload", S (nextId w)); ("unload", S (nextId w))])
        <$> window w
  ∧ disposed (state (ensurePollingActive w)) = false.
Proof.
  intros Hd Hp. unfold ensurePollingActive. rewrite Hd, Hp. cbn.
  destruct (window w) eqn:Hw; cbn; rewrite ?Hw; cbn; rewrite ?Hd; auto.
Qed.

(** X14. Starting the shared poll twice schedules it once, stopping it twice
    is stopping it once, and stopping after starting leaves no shared timer
    scheduled. *)
Theorem shared_poll_start_stop (w : World) :
  ensurePollingActive (ensurePollingActive w) = ensurePollingActive w
  ∧ stopPolling (stopPolling w) = stopPolling w
  ∧ pollingInterval (state (stopPolling (ensurePollingActive w))) = None
  ∧ (∀ t, pollingInterval (state (ensurePollingActive w)) = Some t →
          activeIntervals (stopPolling (ensurePollingActive w)) !! t = None).
Proof.
  split.
  { destruct (disposed (state w)) eqn:Hd.
    - unfold ensurePollingActive at 2. rewrite Hd, orb_true_r.
      unfold ensurePollingActive. rewrite Hd, orb_true_r. reflexivity.
    - destruct (pollingInterval (state w)) as [t|] eqn:Hp.
      + unfold ensurePollingActive at 2. rewrite Hp. cbn.
        unfold ensurePollingActive. rewrite Hp. reflexivity.
      + destruct (ensurePollingActive_started w Hd Hp) as (Hs & _).
        unfold ensurePollingActive at 1. rewrite Hs. reflexivity. }
  split.
  { unfold stopPolling at 1. rewrite stopPolling_polling. reflexivity. }
  split; [apply stopPolling_polling|].
  intros t Ht. unfold stopPolling. rewrite Ht. cbn. apply lookup_delete_eq.
Qed.

(** X15. Each start of the shared poll in a host with a [window] adds two
    unload listeners and stopping it removes none: after [n] rounds of
    starting and stopping, the window holds [2 n] listeners more. *)
Theorem unload_listeners_accumulate (n : nat) (w : World)
    (l : list (string * nat))
    (Hwin : window w = Some l)
    (Hlive : disposed (state w) = false)
    (Hidle : pollingInterval (state w) = None) :
  ∃ l', window (Nat.iter n (λ w, stopPolling (ensurePollingActive w)) w) = Some l'
        ∧ length l' = length l + 2 * n.
Proof.
  assert (Hgen : ∀ n,
    ∃ l', window (Nat.iter n (λ w, stopPolling (ensurePollingActive w)) w) = Some l'
          ∧ length l' = length l + 2 * n
          ∧ disposed (state (Nat.iter n (λ w, stopPolling (ensurePollingActive w)) w))
            = false
          ∧ pollingInterval
              (state (Nat.iter n (λ w, stopPolling (ensurePollingActive w)) w))
            = None).
  { clear n. induction n as [|n (l' & Hw' & Hlen & Hd' & Hp')].
    - exists l. cbn. rewrite Nat.add_0_r. auto.
    - rewrite Nat.iter_succ.
      set (w' := Nat.iter n (λ w, stopPolling (ensurePollingActive w)) w) in *.
      destruct (ensurePollingActive_started w' Hd' Hp') as (Hs & _ & Hwn & Hdn).
      exists (l' ++ [("beforeunload", S (nextId w')); ("unload", S (nextId w'))]).
      split.
      { unfold stopPolling. rewrite Hs. cbn. rewrite Hwn, Hw'. reflexivity. }
      split; [rewrite length_app; cbn; lia|].
      split; [rewrite stopPolling_disposed; exact Hdn | apply stopPolling_polling]. }
  destruct (Hgen n) as (l' & Hw' & Hlen & _). eauto.
Qed.

Lemma unload_listeners_accumulate_witness :
  window (boot None (Some [])) = Some []
  ∧ disposed (state (boot None (Some []))) = false
  ∧ pollingInterval (state (boot None (Some []))) = None
  ∧ ∃ l', window (Nat.iter 3 (λ w, stopPolling (ensurePollingActive w))
                    (boot None (Some []))) = Some l'
          ∧ length l' = length (@nil (string * nat)) + 2 * 3.
Proof.
  split; [reflexivity|]. split; [reflexivity|]. split; [reflexivity|].
  exact (unload_listeners_accumulate 3 (boot None (Some [])) []
           eq_refl eq_refl eq_refl).
Defined.

(** *** What each operation does to the callback map *)

Lemma safeWatch_callbacks (w : World) (p : string) (cb : Callback)
    (native : NativeOutcome) :
  disposed (state w) = false →
  callbacks (state (safeWatch p cb native w).1)
  = callbacks (addCallback p cb (state w)).
Proof.
  intros Hd. unfold safeWatch, failover. rewrite Hd. cbn.
  destruct (fallbackEnabled (state w)); cbn.
  - rewrite ensurePollingActive_callbacks. reflexivity.
  - destruct native; cbn;
      rewrite ?ensurePollingActive_callbacks, ?saveFallbackState_state;
      reflexivity.
Qed.

Lemma safeWatchPaths_callbacks (w : World) (cb : Callback) (ok : bool) :
  callbacks (state (safeWatchPaths cb ok w).1) = callbacks (state w).
Proof.
  unfold safeWatchPaths, pollPaths, setInterval.
  destruct (fallbackEnabled (state w)); cbn.
  - rewrite ensurePollingActive_callbacks. reflexivity.
  - destruct ok; cbn;
      rewrite ?ensurePollingActive_callbacks, ?saveFallbackState_state;
      reflexivity.
Qed.

Lemma close_callbacks (h : Handle) (ok : bool) (w : World) :
  callbacks (state (close h ok w)) = callbacks (state w)
  ∨ ∃ p cb, callbacks (state (close h ok w))
            = callbacks (removeCallback p cb (state w)).
Proof.
  destruct h as [p cb|wid p cb|p cb|t|i]; cbn [close].
  - right. exists p, cb. reflexivity.
  - destruct ok; [|left; reflexivity].
    right. exists p, cb. apply close_native.
  - right. exists p, cb. case_bool_decide; [rewrite stopPolling_callbacks|];
      reflexivity.
  - left. reflexivity.
  - left. reflexivity.
Qed.

Lemma disposeFileWatcher_callbacks (w : World) :
  callbacks (state (disposeFileWatcher w)) = callbacks (state w)
  ∨ callbacks (state (disposeFileWatcher w)) = ∅.
Proof.
  destruct (disposed (state w)) eqn:Hd.
  - left. rewrite disposeFileWatcher_again by exact Hd. reflexivity.
  - right. apply disposeFileWatcher_clears, Hd.
Qed.

Lemma tick_state (t : TimerId) (w : World) :
  disposed (state w) = false → state (tick t w) = state w.
Proof.
  intros Hd. unfold tick. destruct (activeIntervals w !! t) as [[|cb]|];
    rewrite ?Hd; [|reflexivity|reflexivity].
  apply (foldl_frame _ state). reflexivity.
Qed.

Lemma tick_callbacks (t : TimerId) (w : World) :
  callbacks (state (tick t w)) = callbacks (state w).
Proof.
  destruct (disposed (state w)) eqn:Hd.
  - unfold tick. destruct (activeIntervals w !! t) as [[|cb]|]; rewrite ?Hd;
      [apply stopPolling_callbacks|reflexivity|reflexivity].
  - rewrite tick_state by exact Hd. reflexivity.
Qed.

(** *** The callback map stays well formed *)

(** No pattern is kept with an empty callback set, and no set holds a
    callback twice. *)
Definition callbacks_wf (m : gmap string (list nat)) : Prop :=
  ∀ p cbs, m !! p = Some cbs → cbs ≠ [] ∧ NoDup cbs.

Lemma set_add_wf (x : nat) (s : list nat) :
  NoDup s → set_add x s ≠ [] ∧ NoDup (set_add x s).
Proof.
  intros Hnd. unfold set_add. case_bool_decide as Hin.
  - split; [|exact Hnd]. intros ->. apply elem_of_nil in Hin. exact Hin.
  - split; [destruct s; discriminate|].
    apply NoDup_app. split; [exact Hnd|]. split; [|apply NoDup_singleton].
    intros y Hy Hy'. apply list_elem_of_singleton in Hy'. subst. contradiction.
Qed.

Lemma addCallback_wf (p : string) (cb : Callback) (s : WatcherState) :
  callbacks_wf (callbacks s) → callbacks_wf (callbacks (addCallback p cb s)).
Proof.
  intros Hwf q cbs. cbn. rewrite lookup_insert. case_decide as Hpq.
  - intros [= <-]. apply set_add_wf.
    destruct (callbacks s !! p) as [old|] eqn:E; cbn.
    + apply (Hwf p old E).
    + apply NoDup_nil_2.
  - apply Hwf.
Qed.

Lemma removeCallback_wf (p : string) (cb : Callback) (s : WatcherState) :
  callbacks_wf (callbacks s) → callbacks_wf (callbacks (removeCallback p cb s)).
Proof.
  intros Hwf q cbs. unfold removeCallback.
  destruct (callbacks s !! p) as [old|] eqn:E; [|apply Hwf].
  case_bool_decide as Hlen; cbn.
  - rewrite lookup_delete. case_decide; [discriminate | apply Hwf].
  - rewrite lookup_insert. case_decide as Hpq; [|apply Hwf].
    intros [= <-]. split.
    + intros Hnil. apply Hlen. rewrite Hnil. reflexivity.
    + unfold set_delete. apply NoDup_filter. apply (Hwf p old E).
Qed.

Lemma exec_callbacks_wf (o : Op) (w : World) :
  callbacks_wf (callbacks (state w)) →
  callbacks_wf (callbacks (state (exec o w))).
Proof.
  intros Hwf. destruct o as [p cb native|cb ok|h ok| |t|throws wid]; cbn [exec].
  - destruct (disposed (state w)) eqn:Hd.
    + unfold safeWatch. rewrite Hd. exact Hwf.
    + rewrite safeWatch_callbacks by exact Hd. apply addCallback_wf, Hwf.
  - rewrite safeWatchPaths_callbacks. exact Hwf.
  - destruct (close_callbacks h ok w) as [->|(p & cb & ->)];
      [exact Hwf | apply removeCallback_wf, Hwf].
  - destruct (disposeFileWatcher_callbacks w) as [->| ->]; [exact Hwf|].
    intros p cbs Hl. rewrite lookup_empty in Hl. discriminate.
  - rewrite tick_callbacks. exact Hwf.
  - rewrite (proj1 (nativeChange_frame throws wid w)). exact Hwf.
Qed.

(** X16. Whatever is done to a coordinator, its callback map never keeps a
    pattern with an empty callback set and never holds a callback twice under
    one pattern, so [activeCallbacks] in the status counts the patterns that
    have a callback. *)
Theorem callback_map_stays_well_formed (ls : option Storage)
    (win : option (list (string * nat))) (ops : list Op) :
  callbacks_wf (callbacks (state (run ops (boot ls win))))
  ∧ (∀ p, p ∈ dom (callbacks (state (run ops (boot ls win)))) ↔
          ∃ cb cbs, callbacks (state (run ops (boot ls win))) !! p = Some cbs
                    ∧ cb ∈ cbs).
Proof.
  assert (Hwf : callbacks_wf (callbacks (state (run ops (boot ls win))))).
  { assert (Hgen : ∀ w, callbacks_wf (callbacks (state w)) →
                        callbacks_wf (callbacks (state (run ops w)))).
    { unfold run. induction ops as [|o ops IH]; intros w Hw; [exact Hw|].
      apply IH, exec_callbacks_wf, Hw. }
    apply Hgen. intros p cbs Hl. cbn in Hl. rewrite lookup_empty in Hl.
    discriminate. }
  split; [exact Hwf|].
  intros p. rewrite elem_of_dom. split.
  - intros [cbs Hl]. destruct (Hwf p cbs Hl) as [Hne _].
    destruct cbs as [|cb cbs]; [contradiction|].
    exists cb, (cb :: cbs). split; [exact Hl | left].
  - intros (cb & cbs & Hl & _). eauto.
Qed.

(** *** Notifications *)

Lemma invoke_all_trace (cbs : list Callback) (w : World) :
  trace (foldl (λ w cb, emit (EvInvoke cb) w) w cbs)
  = trace w ++ (EvInvoke <$> cbs).
Proof.
  revert w. induction cbs as [|cb cbs IH]; intros w; cbn.
  - rewrite app_nil_r. reflexivity.
  - rewrite IH. cbn. rewrite <- app_assoc. reflexivity.
Qed.

Lemma elem_of_concat {A} (x : A) (ls : list (list A)) :
  x ∈ concat ls ↔ ∃ l, x ∈ l ∧ l ∈ ls.
Proof.
  induction ls as [|l ls IH]; cbn.
  - split; [intros H%elem_of_nil; contradiction|].
    intros (l & _ & H%elem_of_nil). contradiction.
  - rewrite elem_of_app, IH. split.
    + intros [H|(l' & H & Hl')]; [exists l; split; [exact H | left]|].
      exists l'. split; [exact H | right; exact Hl'].
    + intros (l' & H & Hl'). apply elem_of_cons in Hl' as [->|Hl'];
        [left; exact H | right; eauto].
Qed.

(** X17. A tick of the shared poll on a live coordinator invokes every
    callback registered under any pattern, invokes only registered
    callbacks, once per registration, and changes nothing in the
    coordinator.  The order of the invocations across patterns is left
    open. *)
Theorem poll_tick_reaches_every_callback (w : World) (t : TimerId)
    (Hshared : activeIntervals w !! t = Some SharedPoll)
    (Hlive : disposed (state w) = false) :
  state (tick t w) = state w
  ∧ emitted w (tick t w)
    ≡ₚ EvInvoke <$> concat (snd <$> map_to_list (callbacks (state w)))
  ∧ (∀ p cbs cb, callbacks (state w) !! p = Some cbs → cb ∈ cbs →
                 EvInvoke cb ∈ emitted w (tick t w))
  ∧ (∀ cb, EvInvoke cb ∈ emitted w (tick t w) →
           ∃ p cbs, callbacks (state w) !! p = Some cbs ∧ cb ∈ cbs).
Proof.
  assert (Hem : emitted w (tick t w)
                = EvInvoke <$> concat (snd <$> map_to_list (callbacks (state w)))).
  { apply emitted_app. unfold tick. rewrite Hshared, Hlive.
    apply invoke_all_trace. }
  split; [apply tick_state, Hlive|]. split; [rewrite Hem; reflexivity|].
  rewrite Hem. split.
  - intros p cbs cb Hl Hin. apply list_elem_of_fmap_2.
    apply elem_of_concat. exists cbs. split; [exact Hin|].
    apply list_elem_of_fmap. exists (p, cbs). split; [reflexivity|].
    apply elem_of_map_to_list. exact Hl.
  - intros cb Hin. apply list_elem_of_fmap in Hin as (cb' & [= <-] & Hin).
    apply elem_of_concat in Hin as (cbs & Hin & Hcbs).
    apply list_elem_of_fmap in Hcbs as ([p cbs'] & -> & Hp).
    apply elem_of_map_to_list in Hp. eauto.
Qed.

Lemma poll_tick_reaches_every_callback_witness :
  let w := (safeWatch "src/**" 7 WatchOk (boot (Some flaggedStorage) None)).1 in
  activeIntervals w !! 0 = Some SharedPoll
  ∧ disposed (state w) = false
  ∧ emitted w (tick 0 w) = [EvInvoke 7].
Proof.
  cbv zeta.
  assert (Ha : activeIntervals
                 (safeWatch "src/**" 7 WatchOk (boot (Some flaggedStorage) None)).1
               !! 0 = Some SharedPoll) by (vm_compute; reflexivity).
  assert (Hd : disposed (state
                 (safeWatch "src/**" 7 WatchOk (boot (Some flaggedStorage) None)).1)
               = false) by reflexivity.
  split; [exact Ha|]. split; [exact Hd|].
  apply Permutation_singleton_r.
  etransitivity;
    [exact (proj1 (proj2 (poll_tick_reaches_every_callback _ 0 Ha Hd)))|].
  vm_compute. reflexivity.
Defined.





(** *** What disposal releases and what it leaves *)

Lemma clear_all (l : list TimerId) (w : World) :
  trace (foldl (λ w t, clearInterval t w) w l)
  = trace w ++ (EvClearInterval <$> l)
  ∧ openWatchers (foldl (λ w t, clearInterval t w) w l) = openWatchers w
  ∧ window (foldl (λ w t, clearInterval t w) w l) = window w
  ∧ (∀ t, t ∈ l ∨ activeIntervals w !! t = None →
          activeIntervals (foldl (λ w t, clearInterval t w) w l) !! t = None).
Proof.
  revert w. induction l as [|x l IH]; intros w; cbn.
  - rewrite app_nil_r. repeat split. intros t [H%elem_of_nil|H]; [contradiction|].
    exact H.
  - destruct (IH (clearInterval x w)) as (Ht & Ho & Hw & Ha).
    rewrite Ht, Ho, Hw. cbn. rewrite <- app_assoc. repeat split.
    intros t Hcase. apply Ha. cbn.
    destruct (decide (t = x)) as [->|Hne]; [right; apply lookup_delete_eq|].
    destruct Hcase as [Hin|Hnone].
    + apply elem_of_cons in Hin as [->|Hin]; [contradiction | left; exact Hin].
    + right. rewrite lookup_delete_ne by congruence. exact Hnone.
Qed.

Lemma unhook_all (cs : list nat) (w : World) :
  trace (foldl (λ w c, with_window (filter (λ l, l.2 ≠ c)) w) w cs) = trace w
  ∧ openWatchers (foldl (λ w c, with_window (filter (λ l, l.2 ≠ c)) w) w cs)
    = openWatchers w
  ∧ activeIntervals (foldl (λ w c, with_window (filter (λ l, l.2 ≠ c)) w) w cs)
    = activeIntervals w
  ∧ state (foldl (λ w c, with_window (filter (λ l, l.2 ≠ c)) w) w cs) = state w.
Proof.
  revert w. induction cs as [|c cs IH]; intros w; cbn; [repeat split|].
  destruct (IH (with_window (filter (λ l, l.2 ≠ c)) w)) as (-> & -> & -> & ->).
  repeat split.
Qed.

Lemma unhook_window (cs : list nat) (w : World) (l' : list (string * nat)) :
  window (foldl (λ w c, with_window (filter (λ l, l.2 ≠ c)) w) w cs) = Some l' →
  ∃ l0, window w = Some l0 ∧ ∀ x, x ∈ l' ↔ x ∈ l0 ∧ x.2 ∉ cs.
Proof.
  revert w. induction cs as [|c cs IH]; intros w Hl'; cbn in Hl'.
  - exists l'. split; [exact Hl'|]. intros x. split; [|tauto].
    intros Hx. split; [exact Hx | apply not_elem_of_nil].
  - destruct (IH _ Hl') as (l1 & Hl1 & Hiff). cbn in Hl1.
    destruct (window w) as [l0|]; [|discriminate]. cbn in Hl1.
    injection Hl1 as <-. exists l0. split; [reflexivity|].
    intros x. rewrite Hiff, list_elem_of_filter, not_elem_of_cons. tauto.
Qed.

Lemma stopPolling_effects (w : World) :
  trace (stopPolling w)
  = trace w ++ match pollingInterval (state w) with
               | Some t => [EvClearInterval t]
               | None => []
               end
  ∧ openWatchers (stopPolling w) = openWatchers w
  ∧ window (stopPolling w) = window w
  ∧ individualIntervals (state (stopPolling w)) = individualIntervals (state w)
  ∧ cleanupListeners (state (stopPolling w)) = cleanupListeners (state w)
  ∧ (∀ t, pollingInterval (state w) = Some t →
          activeIntervals (stopPolling w) !! t = None).
Proof.
  unfold stopPolling. destruct (pollingInterval (state w)) as [t|]; cbn.
  - repeat split. intros t' [= <-]. apply lookup_delete_eq.
  - rewrite app_nil_r. repeat split. intros t' Ht. discriminate.
Qed.

Definition is_watcher_close (e : Event) : bool :=
  match e with EvWatcherClose _ _ => true | _ => false end.

Lemma dispose_effects (w : World) :
  disposed (state w) = false →
  trace (disposeFileWatcher w)
  = trace w
    ++ match pollingInterval (state w) with
       | Some t => [EvClearInterval t]
       | None => []
       end
    ++ (EvClearInterval <$> individualIntervals (state w))
  ∧ openWatchers (disposeFileWatcher w) = openWatchers w
  ∧ (∀ t, pollingInterval (state w) = Some t ∨ t ∈ individualIntervals (state w) →
          activeIntervals (disposeFileWatcher w) !! t = None)
  ∧ (∀ l', window (disposeFileWatcher w) = Some l' →
           ∀ x, x ∈ l' → x.2 ∉ cleanupListeners (state w)).
Proof.
  intros Hd. unfold disposeFileWatcher. rewrite Hd.
  set (w1 := stopPolling (with_state (set_disposed true) w)).
  destruct (stopPolling_effects (with_state (set_disposed true) w))
    as (Ht1 & Ho1 & Hw1 & Hi1 & Hc1 & Ha1).
  fold w1 in Ht1, Ho1, Hw1, Hi1, Hc1, Ha1. cbn in Ht1, Ho1, Hw1, Hi1, Hc1, Ha1.
  cbv zeta. rewrite Hi1.
  destruct (clear_all (individualIntervals (state w)) w1) as (Ht2 & Ho2 & Hw2 & Ha2).
  set (w2 := foldl (λ w t, clearInterval t w) w1 (individualIntervals (state w)))
    in *.
  assert (Hc2 : cleanupListeners (state w2) = cleanupListeners (state w)).
  { unfold w2. rewrite (foldl_frame _ (λ w, cleanupListeners (state w)))
      by reflexivity. exact Hc1. }
  set (w3 := with_state (set_watchingPaths ∅)
               (with_state (set_callbacks ∅)
                  (with_state (set_individualIntervals []) w2))).
  assert (Hc3 : cleanupListeners (state w3) = cleanupListeners (state w))
    by exact Hc2.
  rewrite Hc3.
  destruct (unhook_all (cleanupListeners (state w)) w3) as (Ht4 & Ho4 & Ha4 & _).
  cbn. rewrite Ht4, Ho4, Ha4. cbn. fold w2.
  split; [rewrite Ht2, Ht1, <- app_assoc; reflexivity|].
  split; [rewrite Ho2, Ho1; reflexivity|].
  split.
  { intros t [Hp|Hin]; apply Ha2; [right; apply Ha1, Hp | left; exact Hin]. }
  intros l' Hl' x Hx.
  destruct (unhook_window _ _ _ Hl') as (l0 & _ & Hiff).
  apply Hiff in Hx. tauto.
Qed.

(** X19. [disposeFileWatcher] closes no native watcher: the watchers that
    were open stay open and none of the events of a disposal is a close.
    After the disposal of a live coordinator their change listeners find no
    callbacks, so a reported change invokes nothing. *)
Theorem dispose_leaves_native_watchers_open (w : World) :
  openWatchers (disposeFileWatcher w) = openWatchers w
  ∧ Forall (λ e, is_watcher_close e = false) (emitted w (disposeFileWatcher w))
  ∧ (disposed (state w) = false →
     ∀ throws wid,
       emitted (disposeFileWatcher w)
         (nativeChange throws wid (disposeFileWatcher w)).1 = []).
Proof.
  destruct (disposed (state w)) eqn:Hd.
  - rewrite disposeFileWatcher_again by exact Hd.
    split; [reflexivity|]. split; [|discriminate].
    unfold emitted. rewrite drop_all. constructor.
  - destruct (dispose_effects w Hd) as (Ht & Ho & _).
    split; [exact Ho|]. split.
    + rewrite (emitted_app _ _ _ Ht). apply Forall_app. split.
      * destruct (pollingInterval (state w)); repeat constructor.
      * apply Forall_fmap. apply Forall_true. reflexivity.
    + intros _ throws wid. apply emitted_app. rewrite app_nil_r.
      unfold nativeChange. destruct (openWatchers _ !! wid); [|reflexivity].
      rewrite (proj1 (proj2 (proj2 (disposeFileWatcher_clears w Hd)))).
      rewrite lookup_empty. reflexivity.
Qed.

(** X20. The events of disposing a live coordinator are exactly a clear of
    the shared poll timer, when one is set, and a clear of each interval in
    [individualIntervals]; none of these is scheduled afterwards; no window listener of a recorded
    cleanup closure is left; and the status reads disposed with no callbacks,
    paths, polling or intervals, the fallback flag kept. *)
Theorem dispose_releases_every_timer (w : World)
    (Hlive : disposed (state w) = false) :
  emitted w (disposeFileWatcher w)
  = match pollingInterval (state w) with
    | Some t => [EvClearInterval t]
    | None => []
    end ++ (EvClearInterval <$> individualIntervals (state w))
  ∧ (∀ t, pollingInterval (state w) = Some t ∨ t ∈ individualIntervals (state w) →
          activeIntervals (disposeFileWatcher w) !! t = None)
  ∧ (∀ l', window (disposeFileWatcher w) = Some l' →
           ∀ x, x ∈ l' → x.2 ∉ cleanupListeners (state w))
  ∧ getFileWatcherStatus (disposeFileWatcher w)
    = {| st_disposed := true;
         st_fallbackEnabled := fallbackEnabled (state w);
         st_activeCallbacks := 0; st_watchingPaths := 0;
         st_pollingActive := false; st_individualIntervals := 0 |}.
Proof.
  destruct (dispose_effects w Hlive) as (Ht & _ & Ha & Hw).
  split; [apply emitted_app, Ht|]. split; [exact Ha|]. split; [exact Hw|].
  destruct (disposeFileWatcher_clears w Hlive) as (Hp & Hi & Hc & Hwp & _).
  unfold getFileWatcherStatus.
  rewrite disposeFileWatcher_disposed, Hp, Hi, Hc, Hwp.
  assert (Hf : fallbackEnabled (state (disposeFileWatcher w))
               = fallbackEnabled (state w)).
  { unfold disposeFileWatcher. rewrite Hlive. cbn.
    rewrite (foldl_frame _ state) by reflexivity. cbn.
    rewrite (foldl_frame _ state) by reflexivity.
    rewrite stopPolling_fallback. reflexivity. }
  rewrite Hf. reflexivity.
Qed.

Definition busyWorld : World :=
  (safeWatchPaths 9 false (safeWatch "src/**" 1 WatchRejects (boot None (Some []))).1).1.

Lemma dispose_releases_every_timer_witness :
  disposed (state busyWorld) = false
  ∧ emitted busyWorld (disposeFileWatcher busyWorld)
    = [EvClearInterval 0; EvClearInterval 2].
Proof.
  assert (H : disposed (state busyWorld) = false) by reflexivity.
  split; [exact H|].
  rewrite (proj1 (dispose_releases_every_timer busyWorld H)).
  vm_compute. reflexivity.
Defined.

(** *** One callback, two registrations *)

Lemma set_add_present (x : nat) : set_add x [x] = [x].
Proof.
  unfold set_add. rewrite bool_decide_eq_true_2; [reflexivity | left].
Qed.

Lemma safeWatch_live (w : World) (p : string) (cb : Callback)
    (native : NativeOutcome) :
  mode w = Fallback → mode (safeWatch p cb native w).1 = Fallback.
Proof.
  intros Hm. pose proof Hm as [Hd Hf]%mode_fallback. apply mode_fallback.
  unfold safeWatch. rewrite Hd. cbn. rewrite Hf. cbn.
  rewrite ensurePollingActive_disposed, ensurePollingActive_fallback. auto.
Qed.

(** X21. Registering the same callback twice under a pattern in Fallback
    mode keeps one entry for it, and closing either of the two handles removes
    that entry: the pattern is gone from the callback map although the other
    registration was never closed. *)
Theorem duplicate_registration_shares_one_entry (w : World) (p : string)
    (cb : Callback) (n1 n2 : NativeOutcome)
    (Hmode : mode w = Fallback)
    (Hfresh : callbacks (state w) !! p = None) :
  let r1 := safeWatch p cb n1 w in
  let r2 := safeWatch p cb n2 r1.1 in
  r1.2 = Ok (FallbackHandle p cb) ∧ r2.2 = Ok (FallbackHandle p cb)
  ∧ callbacks (state r1.1) !! p = Some [cb]
  ∧ callbacks (state r2.1) !! p = Some [cb]
  ∧ callbacks (state (close (FallbackHandle p cb) true r2.1)) !! p = None.
Proof.
  cbv zeta.
  pose proof (safeWatch_live w p cb n1 Hmode) as Hm1.
  destruct (safeWatch_in_fallback w p cb n1 Hmode) as (Hh1 & _).
  destruct (safeWatch_in_fallback _ p cb n2 Hm1) as (Hh2 & _).
  assert (Hd : disposed (state w) = false) by (apply mode_fallback in Hmode; tauto).
  assert (Hd1 : disposed (state (safeWatch p cb n1 w).1) = false)
    by (apply mode_fallback in Hm1; tauto).
  assert (Hc1 : callbacks (state (safeWatch p cb n1 w).1) !! p = Some [cb]).
  { rewrite safeWatch_callbacks by exact Hd. cbn.
    rewrite lookup_insert_eq, Hfresh. reflexivity. }
  assert (Hc2 : callbacks (state (safeWatch p cb n2 (safeWatch p cb n1 w).1).1) !! p
                = Some [cb]).
  { rewrite safeWatch_callbacks by exact Hd1. cbn.
    rewrite lookup_insert_eq, Hc1. cbn. rewrite set_add_present. reflexivity. }
  split; [exact Hh1|]. split; [exact Hh2|]. split; [exact Hc1|].
  split; [exact Hc2|].
  cbn. rewrite (removeCallback_lookup _ _ _ _ Hc2), set_delete_only. reflexivity.
Qed.

Lemma duplicate_registration_shares_one_entry_witness :
  let w := boot (Some flaggedStorage) None in
  mode w = Fallback
  ∧ callbacks (state w) !! "src/**" = None
  ∧ callbacks
      (state (close (FallbackHandle "src/**" 4) true
                (safeWatch "src/**" 4 WatchOk (safeWatch "src/**" 4 WatchOk w).1).1))
    !! "src/**" = None.
Proof.
  cbv zeta.
  assert (Hm : mode (boot (Some flaggedStorage) None) = Fallback) by reflexivity.
  assert (Hf : callbacks (state (boot (Some flaggedStorage) None)) !! "src/**" = None)
    by reflexivity.
  split; [exact Hm|]. split; [exact Hf|].
  exact (proj2 (proj2 (proj2 (proj2
    (duplicate_registration_shares_one_entry _ "src/**" 4 WatchOk WatchOk Hm Hf))))).
Defined.

(** *** The polling subscriptions of [safeWatchPaths] *)

Lemma elem_of_set_delete (x y : nat) (s : list nat) :
  y ∈ set_delete x s ↔ y ≠ x ∧ y ∈ s.
Proof. unfold set_delete. exact (list_elem_of_filter (λ z, z ≠ x) s y). Qed.

(** X22. In Fallback mode on a live coordinator [safeWatchPaths] schedules
    an interval of its own, records it, and makes sure the shared poll runs.
    Closing the handle unschedules and forgets that interval, and leaves the
    shared poll running although the subscription added no callback. *)
Theorem paths_subscription_round_trip (w : World) (cb : Callback) (ok : bool)
    (Hflag : fallbackEnabled (state w) = true)
    (Hlive : disposed (state w) = false) :
  ∃ t,
    (safeWatchPaths cb ok w).2 = Ok (PathsPollHandle t)
    ∧ activeIntervals (safeWatchPaths cb ok w).1 !! t = Some (PathsPoll cb)
    ∧ t ∈ individualIntervals (state (safeWatchPaths cb ok w).1)
    ∧ is_Some (pollingInterval (state (safeWatchPaths cb ok w).1))
    ∧ callbacks (state (safeWatchPaths cb ok w).1) = callbacks (state w)
    ∧ (let w' := close (PathsPollHandle t) true (safeWatchPaths cb ok w).1 in
       activeIntervals w' !! t = None
       ∧ (t ∉ individualIntervals (state w'))
       ∧ pollingInterval (state w')
         = pollingInterval (state (safeWatchPaths cb ok w).1)).
Proof.
  pose proof (safeWatchPaths_callbacks w cb ok) as Hcb.
  revert Hcb. unfold safeWatchPaths. rewrite Hflag. unfold pollPaths, setInterval.
  cbn. intros Hcb.
  pose proof (ensurePollingActive_polling w Hlive) as Hp.
  set (w1 := ensurePollingActive w) in *.
  exists (nextId w1). cbn.
  split; [reflexivity|]. split; [apply lookup_insert_eq|].
  split; [apply elem_of_set_add|]. split; [exact Hp|]. split; [exact Hcb|].
  split; [apply lookup_delete_eq|]. split; [|reflexivity].
  intros [Hne _]%elem_of_set_delete. apply Hne. reflexivity.
Qed.

Lemma paths_subscription_round_trip_witness :
  fallbackEnabled (state (boot (Some flaggedStorage) None)) = true
  ∧ disposed (state (boot (Some flaggedStorage) None)) = false
  ∧ ∃ t, (safeWatchPaths 5 true (boot (Some flaggedStorage) None)).2
         = Ok (PathsPollHandle t).
Proof.
  split; [reflexivity|]. split; [reflexivity|].
  destruct (paths_subscription_round_trip (boot (Some flaggedStorage) None) 5 true
              eq_refl eq_refl) as (t & H & _).
  exists t. exact H.
Defined.

(** *** After disposal *)

Definition is_invoke (e : Event) : bool :=
  match e with EvInvoke _ => true | _ => false end.

Lemma tick_disposed_quiet (t : TimerId) (w : World) :
  disposed (state w) = true →
  Forall (λ e, is_invoke e = false) (emitted w (tick t w)).
Proof.
  intros Hd. unfold tick. destruct (activeIntervals w !! t) as [[|cb]|];
    rewrite ?Hd.
  - destruct (stopPolling_effects w) as (Ht & _).
    rewrite (emitted_app _ _ _ Ht).
    destruct (pollingInterval (state w)); repeat constructor.
  - erewrite emitted_app; [|reflexivity]. repeat constructor.
  - unfold emitted. rewrite drop_all. constructor.
Qed.

Lemma exec_disposed_idle (o : Op) (w : World) :
  disposed (state w) = true → pollingInterval (state w) = None →
  pollingInterval (state (exec o w)) = None.
Proof.
  intros Hd Hp.
  assert (He : ∀ w', disposed (state w') = true →
                     ensurePollingActive w' = w').
  { intros w' Hd'. unfold ensurePollingActive. rewrite Hd', orb_true_r.
    reflexivity. }
  destruct o as [p cb native|cb ok|h ok| |t|throws wid]; cbn [exec].
  - unfold safeWatch. rewrite Hd. exact Hp.
  - unfold safeWatchPaths, pollPaths, setInterval.
    destruct (fallbackEnabled (state w)).
    + rewrite (He w Hd). exact Hp.
    + destruct ok; [exact Hp|]. cbn.
      rewrite He by (rewrite saveFallbackState_disposed; exact Hd).
      rewrite saveFallbackState_state. exact Hp.
  - destruct h as [p cb|wid p cb|p cb|t|i]; cbn [close].
    + cbn. rewrite (proj2 (proj2 (removeCallback_fields _ _ _))). exact Hp.
    + destruct ok; cbn; [|exact Hp].
      rewrite (proj2 (proj2 (removeCallback_fields _ _ _))). exact Hp.
    + case_bool_decide; [apply stopPolling_polling|].
      cbn. rewrite (proj2 (proj2 (removeCallback_fields _ _ _))). exact Hp.
    + exact Hp.
    + exact Hp.
  - rewrite disposeFileWatcher_again by exact Hd. exact Hp.
  - unfold tick. destruct (activeIntervals w !! t) as [[|cb]|]; rewrite ?Hd;
      [apply stopPolling_polling | exact Hp | exact Hp].
  - rewrite (proj1 (nativeChange_frame _ _ _)). exact Hp.
Qed.

(** X23. Disposal is final: whatever is done to a disposed coordinator, it
    stays disposed, every [safeWatch] on it throws, no timer tick invokes a
    callback, and the shared poll, once stopped, is never started again, not
    even by [safeWatchPaths]. *)
Theorem disposed_is_final (w : World) (ops : list Op)
    (Hdisposed : mode w = Disposed) :
  mode (run ops w) = Disposed
  ∧ (∀ p cb native,
       (safeWatch p cb native (run ops w)).2
       = Throw "Cannot watch files with disposed file watcher")
  ∧ (∀ t, Forall (λ e, is_invoke e = false)
            (emitted (run ops w) (tick t (run ops w))))
  ∧ (pollingInterval (state w) = None →
     pollingInterval (state (run ops w)) = None).
Proof.
  pose proof Hdisposed as Hd%mode_disposed.
  assert (Hd' : disposed (state (run ops w)) = true) by (apply run_disposed, Hd).
  split; [apply mode_disposed, Hd'|].
  split; [intros p cb native; apply safeWatch_after_dispose, Hdisposed|].
  split; [intros t; apply tick_disposed_quiet, Hd'|].
  clear Hd' Hdisposed. revert w Hd. unfold run.
  induction ops as [|o ops IH]; intros w Hd Hp; [exact Hp|].
  cbn. apply IH; [apply exec_disposed, Hd | apply exec_disposed_idle; assumption].
Qed.

Lemma disposed_is_final_witness :
  mode (disposeFileWatcher busyWorld) = Disposed
  ∧ mode (run [OpWatchPaths 3 true; OpTick 2; OpWatch "a" 1 WatchOk]
            (disposeFileWatcher busyWorld)) = Disposed.
Proof.
  assert (H : mode (disposeFileWatcher busyWorld) = Disposed) by reflexivity.
  split; [exact H|].
  exact (proj1 (disposed_is_final (disposeFileWatcher busyWorld)
                  [OpWatchPaths 3 true; OpTick 2; OpWatch "a" 1 WatchOk] H)).
Defined.

(** *** Where the timer invariant is kept *)

(** The operations that keep the invariant of the shared poll timer:
    everything but the bulk registration and the close handles of the
    Fallback and Native paths. *)
Definition keeps_poll_invariant (o : Op) : Prop :=
  match o with
  | OpWatchPaths _ _ => False
  | OpClose (FallbackHandle _ _) _ => False
  | OpClose (NativeHandle _ _ _) _ => False
  | _ => True
  end.

Lemma poll_invariant_fields (w w' : World) :
  pollingInterval (state w') = pollingInterval (state w) →
  disposed (state w') = disposed (state w) →
  fallbackEnabled (state w') = fallbackEnabled (state w) →
  callbacks (state w') = callbacks (state w) →
  poll_invariant w → poll_invariant w'.
Proof. unfold poll_invariant, mode. intros -> -> -> ->. tauto. Qed.

Lemma poll_invariant_state (w w' : World) :
  state w' = state w → poll_invariant w → poll_invariant w'.
Proof. unfold poll_invariant, mode. intros ->. tauto. Qed.

Lemma poll_invariant_disposed_idle (w : World) :
  disposed (state w) = true → pollingInterval (state w) = None →
  poll_invariant w.
Proof.
  intros Hd Hp. unfold poll_invariant, mode. rewrite Hd, Hp. split.
  - intros [t Ht]. discriminate.
  - intros [Hm _]. discriminate.
Qed.

Lemma exec_keeps_poll_invariant (o : Op) (w : World) :
  keeps_poll_invariant o → poll_invariant w → poll_invariant (exec o w).
Proof.
  intros Hsafe Hinv.
  destruct o as [p cb native|cb ok|h ok| |t|throws wid]; cbn [exec].
  - apply safeWatch_keeps_invariant, Hinv.
  - contradiction.
  - destruct h as [p cb|wid p cb|p cb|t|i]; try contradiction.
    + apply failover_close_keeps_invariant, Hinv.
    + apply (poll_invariant_fields w); [reflexivity .. | exact Hinv].
    + exact Hinv.
  - destruct (disposed (state w)) eqn:Hd.
    + rewrite disposeFileWatcher_again by exact Hd. exact Hinv.
    + apply poll_invariant_disposed_idle;
        [apply disposeFileWatcher_disposed | apply disposeFileWatcher_clears, Hd].
  - destruct (disposed (state w)) eqn:Hd.
    + unfold tick. destruct (activeIntervals w !! t) as [[|cb]|]; rewrite ?Hd.
      * apply poll_invariant_disposed_idle;
          [rewrite stopPolling_disposed; exact Hd | apply stopPolling_polling].
      * apply (poll_invariant_state w); [reflexivity | exact Hinv].
      * exact Hinv.
    + apply (poll_invariant_state w); [apply tick_state, Hd | exact Hinv].
  - apply (poll_invariant_state w); [apply nativeChange_frame | exact Hinv].
Qed.

(** X24. From boot on, every sequence of [safeWatch] registrations, closes
    of failover and paths handles, disposals, timer ticks and native changes
    keeps the invariant that the shared poll timer is set exactly when the
    coordinator is in Fallback mode with a callback registered. *)
Theorem poll_invariant_is_kept (ls : option Storage)
    (win : option (list (string * nat))) (ops : list Op)
    (Hops : Forall keeps_poll_invariant ops) :
  poll_invariant (run ops (boot ls win)).
Proof.
  assert (Hgen : ∀ w, poll_invariant w → poll_invariant (run ops w)).
  { unfold run. induction Hops as [|o ops Ho _ IH]; intros w Hw; [exact Hw|].
    cbn. apply IH, exec_keeps_poll_invariant; assumption. }
  apply Hgen. unfold poll_invariant. cbn. split.
  - intros [t Ht]. discriminate.
  - intros [_ Hne]. exfalso. apply Hne. reflexivity.
Qed.

Lemma poll_invariant_is_kept_witness :
  let ops := [OpWatch "src/**" 1 WatchOk; OpWatch "lib/**" 2 WatchRejects;
              OpTick 2; OpClose (FailoverHandle "lib/**" 2) true; OpDispose] in
  Forall keeps_poll_invariant ops
  ∧ poll_invariant (run ops (boot None None)).
Proof.
  cbv zeta.
  assert (H : Forall keeps_poll_invariant
                [OpWatch "src/**" 1 WatchOk; OpWatch "lib/**" 2 WatchRejects;
                 OpTick 2; OpClose (FailoverHandle "lib/**" 2) true; OpDispose])
    by (repeat constructor).
  split; [exact H|]. exact (poll_invariant_is_kept None None _ H).
Defined.

End WatcherProofs.

(* ===================================================================== *)
(** ** More on the terminal-process registry *)
(* ===================================================================== *)

Module RegistryProofs.
Import TerminalStore TerminalStoreProofs.



Lemma detachTerminal_resume_settled (d : Detaching) (s : Store) :
  kill (process (victim d)) ≠ NeverSettles →
  (detachTerminal_resume d s).1.1 = splice1 (index d) s.
Proof.
  intros H. unfold detachTerminal_resume.
  destruct (kill (process (victim d))); try reflexivity. contradiction.
Qed.


(** *** Attaching late *)

Lemma attachTerminal_disposed (t : nat) (spawn : option Process) (s : Store) :
  disposed s = true → (attachTerminal t spawn s).1 = s.
Proof.
  intros Hd. unfold attachTerminal, attachTerminal_begin. rewrite Hd.
  reflexivity.
Qed.

Lemma dispose_terminals (s : Store) :
  disposed s = false → (dispose s).2 = Completed → terminals (dispose s).1.1 = [].
Proof.
  intros Hd. unfold dispose. rewrite Hd. unfold detachAllTerminals.
  destruct (allSettled _); cbn; try (intros Hc; discriminate Hc).
  destruct (has_dispose (boltTerminal s)); [|reflexivity].
  destruct (bolt_dispose (boltTerminal s)); cbn; intros Hc;
    first [reflexivity | discriminate Hc].
Qed.

(** X26. A call of [attachTerminal] made after [dispose] is refused at its
    first line: however many terminals arrive afterwards, with a shell that
    spawned or not, the registry is as the disposal left it, which is empty
    when the disposal of a live store completed.  The flag is not looked at
    again after the shell has been awaited: a call that was waiting for its
    shell while [dispose] ran, and goes on once [dispose] is through,
    registers its process on the disposed store, where a later [dispose]
    returns at once and never kills it. *)
Theorem attach_after_dispose_is_refused (s : Store)
    (late : list (nat * option Process)) :
  let s1 := (dispose s).1.1 in
  (attachTerminal_begin s1).1 = false
  ∧ foldl (λ s a, (attachTerminal a.1 a.2 s).1) s1 late = s1
  ∧ (disposed s = false → (dispose s).2 = Completed →
     terminals (foldl (λ s a, (attachTerminal a.1 a.2 s).1) s1 late) = [])
  ∧ (∀ t p,
       disposed s = false →
       let s2 := (attachTerminal_resume t (Some p) s1).1 in
       (attachTerminal_begin s).1 = true
       ∧ terminals s2 = terminals s1 ++ [{| terminal := t; process := p |}]
       ∧ disposed s2 = true
       ∧ dispose s2 = (s2, [], Completed)
       ∧ (killed p = false → 0 < getActiveTerminalCount s2)).
Proof.
  cbv zeta.
  pose proof (dispose_disposed s) as Hd1.
  assert (Hfix : foldl (λ s a, (attachTerminal a.1 a.2 s).1) (dispose s).1.1 late
                 = (dispose s).1.1).
  { set (s1 := (dispose s).1.1) in *. clearbody s1.
    induction late as [|a late IH]; [reflexivity|].
    cbn. rewrite attachTerminal_disposed by exact Hd1. exact IH. }
  split; [unfold attachTerminal_begin; rewrite Hd1; reflexivity|].
  split; [exact Hfix|].
  split; [intros Hd Hc; rewrite Hfix; apply dispose_terminals; assumption|].
  intros t p Hd.
  split; [unfold attachTerminal_begin; rewrite Hd; reflexivity|].
  split; [reflexivity|].
  split; [exact Hd1|].
  split; [apply dispose_again; exact Hd1|].
  intros Hk. unfold getActiveTerminalCount. cbn [attachTerminal_resume fst terminals set_terminals].
  rewrite filter_app, length_app. cbn.
  rewrite decide_True by exact Hk. cbn. lia.
Qed.

(** *** The order of a disposal *)





Lemma no_bolt_in_kills (l : list Entry) :
  EvBoltDispose ∉ concat (requestKill <$> l) ++ concat (snd <$> (settleKill <$> l)).
Proof.
  assert (Hreq : ∀ x, EvBoltDispose ∉ requestKill x).
  { intros x Hin. unfold requestKill in Hin.
    destruct (killed (process x)); [|destruct (kill (process x))];
      repeat (apply elem_of_cons in Hin as [Hin|Hin]; [discriminate|]);
      apply elem_of_nil in Hin; exact Hin. }
  assert (Hset : ∀ x, EvBoltDispose ∉ (settleKill x).2).
  { intros x Hin. unfold settleKill in Hin.
    destruct (killed (process x)); [|destruct (kill (process x))];
      cbn in Hin;
      repeat (apply elem_of_cons in Hin as [Hin|Hin]; [discriminate|]);
      apply elem_of_nil in Hin; exact Hin. }
  intros Hin. apply elem_of_app in Hin as [Hin|Hin].
  - induction l as [|x l IH]; cbn in Hin; [apply elem_of_nil in Hin; exact Hin|].
    apply elem_of_app in Hin as [Hin|Hin]; [exact (Hreq x Hin) | exact (IH Hin)].
  - induction l as [|x l IH]; cbn in Hin; [apply elem_of_nil in Hin; exact Hin|].
    apply elem_of_app in Hin as [Hin|Hin]; [exact (Hset x Hin) | exact (IH Hin)].
Qed.

(** X28. When the kill of one live process never settles, disposing a live
    store never completes: every kill is still requested, but no record
    leaves the registry and the bolt terminal is not disposed.  The disposed
    flag is set all the same, so later attaches are refused and a later
    [dispose] returns at once without retrying anything. *)
Theorem hung_kill_blocks_disposal (s : Store) (e : Entry)
    (Hlive : disposed s = false)
    (Hin : e ∈ terminals s)
    (Hk : killed (process e) = false)
    (Hhang : kill (process e) = NeverSettles) :
  (dispose s).2 = Pending
  ∧ terminals (dispose s).1.1 = terminals s
  ∧ List.filter is_kill (dispose s).1.2
    = (λ e, EvKill (pid (process e))) <$> List.filter live (terminals s)
  ∧ (EvBoltDispose ∉ (dispose s).1.2)
  ∧ disposed (dispose s).1.1 = true
  ∧ dispose (dispose s).1.1 = ((dispose s).1.1, [], Completed).
Proof.
  assert (Hdis : dispose s
                 = (set_disposed true s,
                    concat (requestKill <$> terminals s)
                    ++ concat (snd <$> (settleKill <$> terminals s)),
                    Pending)).
  { unfold dispose. rewrite Hlive. unfold detachAllTerminals.
    change (terminals (set_disposed true s)) with (terminals s).
    rewrite (allSettled_pending _ e Hin Hk Hhang). reflexivity. }
  rewrite Hdis. cbn [fst snd].
  split; [reflexivity|]. split; [reflexivity|]. split.
  { rewrite List.filter_app, requested_kills, settled_no_kills. apply app_nil_r. }
  split; [apply no_bolt_in_kills|]. split; [reflexivity|].
  apply dispose_again. reflexivity.
Qed.

Definition stuckStore : Store :=
  {| terminals :=
       [ {| terminal := 1; process := {| pid := 21; killed := false; kill := NeverSettles |} |};
         {| terminal := 2; process := {| pid := 22; killed := false; kill := Resolves |} |} ];
     boltTerminal := {| has_dispose := true; bolt_dispose := Resolves |};
     disposed := false |}.

Lemma hung_kill_blocks_disposal_witness :
  disposed stuckStore = false
  ∧ (dispose stuckStore).2 = Pending
  ∧ List.filter is_kill (dispose stuckStore).1.2 = [EvKill 21; EvKill 22].
Proof.
  assert (Hd : disposed stuckStore = false) by reflexivity.
  split; [exact Hd|].
  destruct (hung_kill_blocks_disposal stuckStore
              {| terminal := 1;
                 process := {| pid := 21; killed := false; kill := NeverSettles |} |}
              Hd ltac:(left) eq_refl eq_refl) as (Hp & _ & Hkills & _).
  split; [exact Hp | exact Hkills].
Defined.

End RegistryProofs.

(* ===================================================================== *)
(** ** The listeners the WebContainer context tracks *)
(* ===================================================================== *)

Module WebContainerContext.

(** [interface WebContainerContext]: [eventListeners] is a [Map] from event
    name to handler, kept in insertion order; [cleanup] is set once the
    container has booted. *)
Record Context := {
  loaded : bool;
  eventListeners : list (string * nat);
  cleanup_defined : bool
}.

Definition initialContext : Context :=
  {| loaded := false; eventListeners := []; cleanup_defined := false |}.

Inductive Event :=
| EvOn (name : string) (handler : nat)
| EvOff (name : string) (handler : nat)
| EvWarn (name : string).

(** [Map.prototype.set]: an existing key keeps its place. *)
Fixpoint map_set (k : string) (v : nat) (m : list (string * nat))
    : list (string * nat) :=
  match m with
  | [] => [(k, v)]
  | (k', v') :: rest =>
      if bool_decide (k' = k) then (k, v) :: rest else (k', v') :: map_set k v rest
  end.

(** What the boot continuation does to the context: it marks it loaded,
    tracks and subscribes the preview-message handler, and defines
    [cleanup]. *)
Definition booted (handler : nat) (c : Context) : Context * list Event :=
  ({| loaded := true;
      eventListeners := map_set "preview-message" handler (eventListeners c);
      cleanup_defined := true |},
   [EvOn "preview-message" handler]).

(** One step of the [forEach] in [cleanup]: [webcontainer.off] in a [try],
    a warning when it throws. *)
Definition detach (off_throws : string → bool) (l : string * nat) : list Event :=
  if off_throws l.1 then [EvOff l.1 l.2; EvWarn l.1] else [EvOff l.1 l.2].

(** [webcontainerContext.cleanup?.()], as [handleUnload] calls it. *)
Definition cleanup (off_throws : string → bool) (c : Context)
    : Context * list Event :=
  if cleanup_defined c then
    ({| loaded := loaded c; eventListeners := [];
        cleanup_defined := cleanup_defined c |},
     concat (detach off_throws <$> eventListeners c))
  else (c, []).

Definition is_off (e : Event) : bool :=
  match e with EvOff _ _ => true | _ => false end.

Definition off_of (l : string * nat) : Event := EvOff l.1 l.2.

End WebContainerContext.

Module WebContainerContextProofs.
Import WebContainerContext.

Lemma offs_of_detach (off_throws : string → bool) (m : list (string * nat)) :
  List.filter is_off (concat (detach off_throws <$> m)) = off_of <$> m.
Proof.
  induction m as [|l m IH]; [reflexivity|].
  cbn. rewrite List.filter_app, IH. unfold detach.
  destruct (off_throws l.1); reflexivity.
Qed.

(** X29. Once the container has booted, the unload cleanup unsubscribes
    every tracked listener, in order and each once, also after an
    unsubscription that throws, and leaves nothing tracked; the second of the
    two unload events finds nothing to unsubscribe.  Before the boot has
    finished the cleanup does nothing. *)
Theorem cleanup_unsubscribes_everything (off_throws : string → bool)
    (handler : nat) (c : Context) :
  (let c1 := (booted handler c).1 in
   List.filter is_off (cleanup off_throws c1).2 = off_of <$> eventListeners c1
   ∧ ("preview-message", handler) ∈ eventListeners c1
   ∧ eventListeners (cleanup off_throws c1).1 = []
   ∧ (cleanup off_throws (cleanup off_throws c1).1).2 = [])
  ∧ cleanup off_throws initialContext = (initialContext, []).
Proof.
  split; [|reflexivity]. cbv zeta. cbn.
  split; [apply offs_of_detach|]. split; [|split; reflexivity].
  induction (eventListeners c) as [|[k v] m IH]; cbn; [left|].
  case_bool_decide; [left | right; exact IH].
Qed.

End WebContainerContextProofs.
